(** * The GoodWe inverter communication core (lib/goodwe/inverter.py)

    A shallow embedding of [Sensor], [Inverter] and the response mapping,
    with the properties of the retry/failure bookkeeping, of the per-loop
    lock and of the sensor table decoding. *)

From Stdlib Require Import ZArith List String Ascii Bool Lia Arith.
From Stdlib Require Import Strings.Byte DecimalString QArith.
From Stdlib Require Import Permutation Qabs.
Import ListNotations.

Local Open Scope string_scope.
Local Open Scope list_scope.
Local Open Scope Z_scope.

(** ** Python values, exceptions and outcomes *)

Definition bytes := list byte.

(** The values a sensor can decode to ([Any] in the source).  A float is
    kept as the exact rational it denotes. *)
Inductive pyval : Type :=
| PyNone
| PyInt (z : Z)
| PyFloat (q : Q)
| PyStr (s : string).

(** The exception classes that matter to the core.  [UnicodeDecodeError]
    is a subclass of [ValueError]; the two goodwe exceptions carry the
    attributes the source reads and writes. *)
Inductive exn : Type :=
| ValueError
| UnicodeDecodeError
| NotImplementedError
| IndexError
| OSError
| CancelledError
| MaxRetriesException (attempts : nat)
| RequestFailedException (message : string) (consecutive_failures_count : Z).

(** [isinstance(e, ValueError)], what [except ValueError] tests. *)
Definition is_ValueError (e : exn) : bool :=
  match e with
  | ValueError | UnicodeDecodeError => true
  | _ => false
  end.

Inductive outcome (A : Type) : Type :=
| Ok (a : A)
| Raise (e : exn).
Arguments Ok {A} a.
Arguments Raise {A} e.

(** ** io.BytesIO, as far as the sensors use it *)

Record BytesIO := { getvalue : bytes; tell : nat }.

Definition BytesIO_new (data : bytes) : BytesIO :=
  {| getvalue := data; tell := 0%nat |}.

(** [seek] refuses a negative position and accepts any other one, also
    past the end of the data. *)
Definition seek (b : BytesIO) (pos : Z) : outcome BytesIO :=
  if pos <? 0 then Raise ValueError
  else Ok {| getvalue := getvalue b; tell := Z.to_nat pos |}.

(** [read(n)]: at most [n] bytes from the current position. *)
Definition bio_read (b : BytesIO) (n : nat) : bytes * BytesIO :=
  let chunk := firstn n (skipn (tell b) (getvalue b)) in
  (chunk, {| getvalue := getvalue b; tell := (tell b + List.length chunk)%nat |}).

(** ** SensorKind and Sensor *)

Inductive SensorKind : Type := PV | AC | UPS | BAT | GRID.

Definition SensorKind_value (k : SensorKind) : Z :=
  match k with PV => 1 | AC => 2 | UPS => 3 | BAT => 4 | GRID => 5 end.

(** The dataclass, with the overridable method [read_value] as a field: it
    gets the buffer positioned by [read] and leaves it at a new position. *)
Record Sensor := {
  id_ : string;
  offset : Z;
  name : string;
  size_ : Z;
  unit : string;
  kind : option SensorKind;
  read_value : BytesIO -> outcome pyval * nat
}.

(** [Sensor.read_value] of the base class. *)
Definition Sensor_read_value (data : BytesIO) : outcome pyval * nat :=
  (Raise NotImplementedError, tell data).

(** [Sensor.encode_value] of the base class. *)
Definition Sensor_encode_value (value : pyval) : outcome bytes :=
  Raise NotImplementedError.

Definition base_Sensor (i : string) (off : Z) (n : string) (sz : Z)
    (u : string) (k : option SensorKind) : Sensor :=
  {| id_ := i; offset := off; name := n; size_ := sz; unit := u; kind := k;
     read_value := Sensor_read_value |}.

(** [Sensor.read]: seek to the sensor's offset, then decode.  The buffer is
    shared, so the position it is left at is returned with the outcome. *)
Definition read (self : Sensor) (data : BytesIO) : outcome pyval * BytesIO :=
  match seek data (offset self) with
  | Raise e => (Raise e, data)
  | Ok d =>
      let '(r, p) := read_value self d in
      (r, {| getvalue := getvalue d; tell := p |})
  end.

(** ** Concrete field types *)

(** [int.from_bytes(bs, "big")], unsigned. *)
Fixpoint int_from_bytes (acc : Z) (bs : bytes) : Z :=
  match bs with
  | [] => acc
  | b :: rest => int_from_bytes (acc * 256 + Z.of_N (Byte.to_N b)) rest
  end.

(** Modelled from the spec: the decoding step shared by the integer field
    types (sensor.py is not among the sources).  It takes [size] bytes at the
    current position and fails with a decode error when the buffer ends
    before them. *)
Definition read_exact (data : BytesIO) (size : Z) : outcome bytes * nat :=
  let '(chunk, data') := bio_read data (Z.to_nat size) in
  if (List.length chunk <? Z.to_nat size)%nat then (Raise ValueError, tell data')
  else (Ok chunk, tell data').

(** Modelled from the spec: an unsigned integer field of [size] bytes
    (sensor.py is not among the sources). *)
Definition Integer (i : string) (off : Z) (n : string) (size : Z) (u : string)
    (k : option SensorKind) : Sensor :=
  {| id_ := i; offset := off; name := n; size_ := size; unit := u; kind := k;
     read_value := fun data =>
       match read_exact data size with
       | (Ok chunk, p) => (Ok (PyInt (int_from_bytes 0 chunk)), p)
       | (Raise e, p) => (Raise e, p)
       end |}.

(** Modelled from the spec: a fixed-point field, an unsigned integer of
    [size] bytes divided by [scale] (sensor.py is not among the sources). *)
Definition Decimal (i : string) (off : Z) (n : string) (size : Z) (scale : positive)
    (u : string) (k : option SensorKind) : Sensor :=
  {| id_ := i; offset := off; name := n; size_ := size; unit := u; kind := k;
     read_value := fun data =>
       match read_exact data size with
       | (Ok chunk, p) => (Ok (PyFloat (Qred (int_from_bytes 0 chunk # scale))), p)
       | (Raise e, p) => (Raise e, p)
       end |}.

(** The table of the spec's scenario. *)
Definition scenario_table : list Sensor :=
  [ Decimal "vpv1" 0 "PV1 Voltage" 2 10 "V" (Some PV);
    Integer "ppv1" 2 "PV1 Power" 2 "W" (Some PV) ].

(** ** Dictionaries

    A Python dict keeps insertion order, and an assignment to a key that is
    already there replaces the value where it stands. *)
Definition dict := list (string * pyval).

Fixpoint dict_set (d : dict) (k : string) (v : pyval) : dict :=
  match d with
  | [] => [(k, v)]
  | (k', v') :: d' =>
      if String.eqb k' k then (k', v) :: d' else (k', v') :: dict_set d' k v
  end.

Fixpoint dict_get (d : dict) (k : string) : option pyval :=
  match d with
  | [] => None
  | (k', v') :: d' => if String.eqb k' k then Some v' else dict_get d' k
  end.

Definition keys (d : dict) : list string := map fst d.

(** ** Inverter._map_response *)

(** The guard of the loop body: [incl_xx or not sensor.id_.startswith("xx")]. *)
Definition processed (incl_xx : bool) (sensor : Sensor) : bool :=
  incl_xx || negb (String.prefix "xx" (id_ sensor)).

Fixpoint map_response_loop (buffer : BytesIO) (result : dict)
    (sensors : list Sensor) (incl_xx : bool) : outcome dict :=
  match sensors with
  | [] => Ok result
  | sensor :: rest =>
      if processed incl_xx sensor then
        match read sensor buffer with
        | (Ok v, buffer') =>
            map_response_loop buffer' (dict_set result (id_ sensor) v) rest incl_xx
        | (Raise e, buffer') =>
            if is_ValueError e then
              map_response_loop buffer' (dict_set result (id_ sensor) PyNone)
                rest incl_xx
            else Raise e
        end
      else map_response_loop buffer result rest incl_xx
  end.

Definition _map_response (resp_data : bytes) (sensors : list Sensor)
    (incl_xx : bool) : outcome dict :=
  map_response_loop (BytesIO_new resp_data) [] sensors incl_xx.

(** ** What one sensor contributes to a mapping *)

(** The outcome of [sensor.read] on a buffer holding [data]. *)
Definition decode (sensor : Sensor) (data : bytes) : outcome pyval :=
  fst (read sensor (BytesIO_new data)).

(** The decode either succeeds or fails with a [ValueError]. *)
Definition contained (data : bytes) (sensor : Sensor) : bool :=
  match decode sensor data with
  | Ok _ => true
  | Raise e => is_ValueError e
  end.

(** The value recorded for the sensor: what it decoded, or [None]. *)
Definition entry (data : bytes) (sensor : Sensor) : string * pyval :=
  (id_ sensor, match decode sensor data with Ok v => v | Raise _ => PyNone end).

(** The sensor follows the decoding contract on short buffers. *)
Definition checks_bounds (sensor : Sensor) : Prop :=
  forall data : bytes,
    Z.of_nat (List.length data) < offset sensor + size_ sensor ->
    exists e, decode sensor data = Raise e /\ is_ValueError e = true.

(** The sensors the loop of [_map_response] reads, in table order. *)
Definition read_sensors (incl_xx : bool) (table : list Sensor) : list Sensor :=
  filter (processed incl_xx) table.

(** The assignments of a complete pass over them, from a given dictionary. *)
Definition assign_all (data : bytes) (result : dict) (ss : list Sensor) : dict :=
  fold_left (fun d s => dict_set d (fst (entry data s)) (snd (entry data s))) ss result.

(** A table with an unidentified sensor between two known ones. *)
Definition table_with_unknown : list Sensor :=
  [ Decimal "vpv1" 0 "PV1 Voltage" 2 10 "V" (Some PV);
    Integer "xx2" 2 "Unknown" 2 "" None;
    Integer "ppv1" 4 "PV1 Power" 2 "W" (Some PV) ].

(** A table whose second sensor is a bare [Sensor]: its [read_value] is the
    base one. *)
Definition table_with_base_sensor : list Sensor :=
  [ Decimal "vpv1" 0 "PV1 Voltage" 2 10 "V" (Some PV);
    base_Sensor "ppv1" 2 "PV1 Power" 2 "W" (Some PV) ].

(** ** Event loops and asyncio.Lock objects

    An event loop is known by its identity.  A Lock is an object on the
    heap: the store holds the [locked] flag of every Lock created so far,
    and a reference is the index it was created at. *)
Definition loop := nat.
Definition lock_ref := nat.
Definition lock_store := list bool.
Bind Scope nat_scope with loop lock_ref.

Definition locked (locks : lock_store) (l : lock_ref) : bool :=
  nth l locks false.

Fixpoint set_locked (locks : lock_store) (l : lock_ref) (b : bool) : lock_store :=
  match locks, l with
  | [], _ => []
  | _ :: rest, O => b :: rest
  | x :: rest, S l' => x :: set_locked rest l' b
  end.

(** [asyncio.Lock()]: a new, unlocked object. *)
Definition Lock_new (locks : lock_store) : lock_ref * lock_store :=
  (List.length locks, locks ++ [false]).

(** ** Commands

    [_read_from_socket] only calls [command.execute(host, timeout, retries)];
    a command is whatever answers that call. *)
Record Command := { execute : string -> Z -> Z -> outcome bytes }.

(** ** Inverter *)

Record Inverter := {
  host : string;
  comm_addr : Z;
  timeout : Z;
  retries : Z;
  _running_loop : option loop;
  _lock : option lock_ref;
  _consecutive_failures_count : Z;
  model_name : option string;
  serial_number : option string;
  software_version : option string;
  modbus_version : option Z;
  rated_power : option Z;
  ac_output_type : option Z;
  dsp1_sw_version : option Z;
  dsp2_sw_version : option Z;
  dsp_svn_version : option Z;
  arm_sw_version : option Z;
  arm_svn_version : option Z;
  arm_version : option string
}.

(** [Inverter.__init__]; the source's defaults are [comm_addr=0],
    [timeout=1], [retries=3]. *)
Definition __init__ (host_ : string) (comm_addr_ timeout_ retries_ : Z) : Inverter :=
  {| host := host_;
     comm_addr := comm_addr_;
     timeout := timeout_;
     retries := retries_;
     _running_loop := None;
     _lock := None;
     _consecutive_failures_count := 0;
     model_name := None;
     serial_number := None;
     software_version := None;
     modbus_version := None;
     rated_power := None;
     ac_output_type := None;
     dsp1_sw_version := None;
     dsp2_sw_version := None;
     dsp_svn_version := None;
     arm_sw_version := Some 0;
     arm_svn_version := None;
     arm_version := None |}.

Definition Inverter_default (host_ : string) : Inverter := __init__ host_ 0 1 3.

(** The two assignments of [_ensure_lock], and the one of
    [_read_from_socket]; every other attribute is kept. *)
Definition with_lock (self : Inverter) (l : lock_ref) (lp : loop) : Inverter :=
  {| host := host self;
     comm_addr := comm_addr self;
     timeout := timeout self;
     retries := retries self;
     _running_loop := Some lp;
     _lock := Some l;
     _consecutive_failures_count := _consecutive_failures_count self;
     model_name := model_name self;
     serial_number := serial_number self;
     software_version := software_version self;
     modbus_version := modbus_version self;
     rated_power := rated_power self;
     ac_output_type := ac_output_type self;
     dsp1_sw_version := dsp1_sw_version self;
     dsp2_sw_version := dsp2_sw_version self;
     dsp_svn_version := dsp_svn_version self;
     arm_sw_version := arm_sw_version self;
     arm_svn_version := arm_svn_version self;
     arm_version := arm_version self |}.

Definition with_failures (self : Inverter) (n : Z) : Inverter :=
  {| host := host self;
     comm_addr := comm_addr self;
     timeout := timeout self;
     retries := retries self;
     _running_loop := _running_loop self;
     _lock := _lock self;
     _consecutive_failures_count := n;
     model_name := model_name self;
     serial_number := serial_number self;
     software_version := software_version self;
     modbus_version := modbus_version self;
     rated_power := rated_power self;
     ac_output_type := ac_output_type self;
     dsp1_sw_version := dsp1_sw_version self;
     dsp2_sw_version := dsp2_sw_version self;
     dsp_svn_version := dsp_svn_version self;
     arm_sw_version := arm_sw_version self;
     arm_svn_version := arm_svn_version self;
     arm_version := arm_version self |}.

(** [self._lock and self._running_loop == asyncio.get_event_loop()]: a Lock
    is always truthy, and loops compare by identity. *)
Definition lock_is_current (self : Inverter) (current : loop) : option lock_ref :=
  match _lock self, _running_loop self with
  | Some l, Some lp => if Nat.eqb lp current then Some l else None
  | _, _ => None
  end.

(** [Inverter._ensure_lock], run inside the event loop [current]. *)
Definition _ensure_lock (self : Inverter) (locks : lock_store) (current : loop)
  : lock_ref * Inverter * lock_store :=
  match lock_is_current self current with
  | Some l => (l, self, locks)
  | None =>
      let '(l, locks') := Lock_new locks in
      (l, with_lock self l current, locks')
  end.

(** [str(n)] of an int, for the f-string. *)
Definition str (n : Z) : string := NilZero.string_of_int (Z.to_int n).

(** The [try] statement of [_read_from_socket], given what
    [command.execute] answered: the first two handlers count the failure and
    raise a [RequestFailedException]; anything else passes through. *)
Definition try_execute (self : Inverter) (command : Command)
  : outcome bytes * Inverter :=
  match execute command (host self) (timeout self) (retries self) with
  | Ok result => (Ok result, with_failures self 0)
  | Raise (MaxRetriesException _) =>
      let self' := with_failures self (_consecutive_failures_count self + 1) in
      (Raise (RequestFailedException
                ("No valid response received even after " ++ str (retries self')
                   ++ " retries")
                (_consecutive_failures_count self')), self')
  | Raise (RequestFailedException message _) =>
      let self' := with_failures self (_consecutive_failures_count self + 1) in
      (Raise (RequestFailedException message (_consecutive_failures_count self')),
       self')
  | Raise e => (Raise e, self)
  end.

(** [Inverter._read_from_socket] as one uninterrupted call: the Lock of
    [_ensure_lock] is taken, the [try] statement runs, the Lock is given
    back.  [None] when the Lock is held, where the caller is suspended. *)
Definition _read_from_socket (self : Inverter) (command : Command)
    (locks : lock_store) (current : loop)
  : option (outcome bytes * Inverter * lock_store) :=
  let '(l, self1, locks1) := _ensure_lock self locks current in
  if locked locks1 l then None
  else
    let locks2 := set_locked locks1 l true in
    let '(r, self2) := try_execute self1 command in
    Some (r, self2, set_locked locks2 l false).

(** ** ProtocolCommand *)

(** What one attempt of an exchange meets on the network. *)
Inductive reply : Type :=
| Absent
| Response (data : bytes)
| TransportFault (message : string).

(** The network, seen from a command: the reply to the [n]-th attempt of a
    request sent to a host. *)
Definition network := string -> bytes -> nat -> reply.

Record ProtocolCommand := {
  request : bytes;
  validator : bytes -> bool
}.

(** Modelled from the spec: the retry loop of [ProtocolCommand.execute]
    (protocol.py is not among the sources).  A response the validator
    accepts is returned; a rejected or absent response is a failed attempt;
    up to [retries] further attempts follow a failed one; when the attempts
    are exhausted the command fails with a max-retries error carrying the
    number of attempts, or with a request-failed error when the last attempt
    met a transport fault. *)
Fixpoint attempt_loop (validate : bytes -> bool) (replies : nat -> reply)
    (attempt remaining : nat) : outcome bytes :=
  let retry :=
    match remaining with
    | O => Raise (MaxRetriesException (S attempt))
    | S remaining' => attempt_loop validate replies (S attempt) remaining'
    end in
  match replies attempt with
  | Response data => if validate data then Ok data else retry
  | Absent => retry
  | TransportFault message =>
      match remaining with
      | O => Raise (RequestFailedException message 0)
      | S remaining' => attempt_loop validate replies (S attempt) remaining'
      end
  end.

(** Modelled from the spec: [ProtocolCommand.execute(host, timeout, retries)]
    (protocol.py is not among the sources), over a given network. *)
Definition ProtocolCommand_execute (net : network) (self : ProtocolCommand)
    (host_ : string) (timeout_ retries_ : Z) : outcome bytes :=
  attempt_loop (validator self) (net host_ (request self)) 0 (Z.to_nat retries_).

Definition as_command (net : network) (c : ProtocolCommand) : Command :=
  {| execute := ProtocolCommand_execute net c |}.

(** ** Inverter.send_command *)

(** The default of the [validator] parameter: [lambda x: True]. *)
Definition default_validator (x : bytes) : bool := true.

(** The [ProtocolCommand(command, validator)] that [send_command] builds;
    [None] stands for a call that leaves the validator out. *)
Definition send_command_request (command : bytes)
    (validator_ : option (bytes -> bool)) : ProtocolCommand :=
  {| request := command;
     validator := match validator_ with
                  | Some v => v
                  | None => default_validator
                  end |}.

Definition send_command (net : network) (self : Inverter) (command : bytes)
    (validator_ : option (bytes -> bool)) (locks : lock_store) (current : loop)
  : option (outcome bytes * Inverter * lock_store) :=
  _read_from_socket self (as_command net (send_command_request command validator_))
    locks current.

(** ** The abstract operations of the base class

    Each one is a body that raises; the instance is handed back as it was. *)
Definition read_device_info (self : Inverter) : outcome pyval * Inverter :=
  (Raise NotImplementedError, self).

Definition read_runtime_data (self : Inverter) (include_unknown_sensors : bool)
  : outcome dict * Inverter :=
  (Raise NotImplementedError, self).

Definition read_setting (self : Inverter) (setting_id : string)
  : outcome pyval * Inverter :=
  (Raise NotImplementedError, self).

Definition write_setting (self : Inverter) (setting_id : string) (value : pyval)
  : outcome pyval * Inverter :=
  (Raise NotImplementedError, self).

Definition read_settings_data (self : Inverter) : outcome dict * Inverter :=
  (Raise NotImplementedError, self).

Definition get_grid_export_limit (self : Inverter) : outcome Z * Inverter :=
  (Raise NotImplementedError, self).

Definition set_grid_export_limit (self : Inverter) (export_limit : Z)
  : outcome pyval * Inverter :=
  (Raise NotImplementedError, self).

Definition get_operation_mode (self : Inverter) : outcome Z * Inverter :=
  (Raise NotImplementedError, self).

Definition set_operation_mode (self : Inverter) (operation_mode eco_mode_power : Z)
  : outcome pyval * Inverter :=
  (Raise NotImplementedError, self).

Definition get_ongrid_battery_dod (self : Inverter) : outcome Z * Inverter :=
  (Raise NotImplementedError, self).

Definition set_ongrid_battery_dod (self : Inverter) (dod : Z)
  : outcome pyval * Inverter :=
  (Raise NotImplementedError, self).

Definition sensors (self : Inverter) : outcome (list Sensor) * Inverter :=
  (Raise NotImplementedError, self).

Definition settings (self : Inverter) : outcome (list Sensor) * Inverter :=
  (Raise NotImplementedError, self).

(** A call of one of the abstract operations, with its arguments. *)
Inductive abstract_call : Type :=
| Call_read_device_info
| Call_read_runtime_data (include_unknown_sensors : bool)
| Call_read_setting (setting_id : string)
| Call_write_setting (setting_id : string) (value : pyval)
| Call_read_settings_data
| Call_get_grid_export_limit
| Call_set_grid_export_limit (export_limit : Z)
| Call_get_operation_mode
| Call_set_operation_mode (operation_mode eco_mode_power : Z)
| Call_get_ongrid_battery_dod
| Call_set_ongrid_battery_dod (dod : Z)
| Call_sensors
| Call_settings.

(** What a call leaves behind: the exception it raised, if any, and the
    instance. *)
Definition raised {A : Type} (r : outcome A * Inverter) : option exn * Inverter :=
  match r with
  | (Ok _, self) => (None, self)
  | (Raise e, self) => (Some e, self)
  end.

Definition invoke (self : Inverter) (c : abstract_call) : option exn * Inverter :=
  match c with
  | Call_read_device_info => raised (read_device_info self)
  | Call_read_runtime_data i => raised (read_runtime_data self i)
  | Call_read_setting s => raised (read_setting self s)
  | Call_write_setting s v => raised (write_setting self s v)
  | Call_read_settings_data => raised (read_settings_data self)
  | Call_get_grid_export_limit => raised (get_grid_export_limit self)
  | Call_set_grid_export_limit n => raised (set_grid_export_limit self n)
  | Call_get_operation_mode => raised (get_operation_mode self)
  | Call_set_operation_mode m p => raised (set_operation_mode self m p)
  | Call_get_ongrid_battery_dod => raised (get_ongrid_battery_dod self)
  | Call_set_ongrid_battery_dod d => raised (set_ongrid_battery_dod self d)
  | Call_sensors => raised (sensors self)
  | Call_settings => raised (settings self)
  end.

(** ** The retry and failure bookkeeping over a run of calls *)

(** The calls of a run, one after the other, each made from the event loop
    running at that time; each yields its outcome and the counter it left. *)
Fixpoint run (self : Inverter) (locks : lock_store)
    (calls : list (loop * Command))
  : option (list (outcome bytes * Z) * Inverter * lock_store) :=
  match calls with
  | [] => Some ([], self, locks)
  | (current, c) :: rest =>
      match _read_from_socket self c locks current with
      | None => None
      | Some (r, self', locks') =>
          match run self' locks' rest with
          | None => None
          | Some (rs, self'', locks'') =>
              Some ((r, _consecutive_failures_count self') :: rs, self'', locks'')
          end
      end
  end.

(** The counter a run of outcomes should leave, from the counter it began
    with. *)
Fixpoint streak (c : Z) (rs : list (outcome bytes * Z)) : Z :=
  match rs with
  | [] => c
  | (Ok _, _) :: rest => streak 0 rest
  | (Raise _, _) :: rest => streak (c + 1) rest
  end.

(** The failures a command may end in under the contract of
    [ProtocolCommand.execute]: max-retries and request-failed. *)
Definition protocol_outcome (r : outcome bytes) : Prop :=
  match r with
  | Ok _ => True
  | Raise (MaxRetriesException _) => True
  | Raise (RequestFailedException _ _) => True
  | Raise _ => False
  end.

Definition follows_protocol (self : Inverter) (c : Command) : Prop :=
  protocol_outcome (execute c (host self) (timeout self) (retries self)).

(** No call is under way on the instance: its Lock, if any, is free. *)
Definition guard_free (self : Inverter) (locks : lock_store) : Prop :=
  match _lock self with
  | Some l => locked locks l = false
  | None => True
  end.

(** The identity attributes, in the order of [__init__]. *)
Definition identity (self : Inverter) :=
  (model_name self, serial_number self, software_version self,
   modbus_version self, rated_power self, ac_output_type self,
   dsp1_sw_version self, dsp2_sw_version self, dsp_svn_version self,
   arm_sw_version self, arm_svn_version self, arm_version self).

(** An attempt that fails validation: no response, or one the validator
    rejects. *)
Definition fails_validation (validate : bytes -> bool) (r : reply) : Prop :=
  match r with
  | Absent => True
  | Response data => validate data = false
  | TransportFault _ => False
  end.

(** What the outcomes and counters of a run must look like, from the
    counter [c] the run began with: a success leaves 0, a failure leaves one
    more than before and raises a request-failed error carrying that very
    count. *)
Fixpoint bookkeeping (c : Z) (rs : list (outcome bytes * Z)) : Prop :=
  match rs with
  | [] => True
  | (Ok _, c') :: rest => c' = 0 /\ bookkeeping c' rest
  | (Raise e, c') :: rest =>
      c' = c + 1 /\ (exists message, e = RequestFailedException message c')
      /\ bookkeeping c' rest
  end.

(** Networks and commands for the examples: a device that never answers,
    one that answers the third attempt, and one that echoes at once. *)
Definition silent : network := fun _ _ _ => Absent.

Definition answers_third : network :=
  fun _ _ n => if (n =? 2)%nat then Response [xaa; x55] else Absent.

Definition echo : network := fun _ req _ => Response req.

Definition probe : ProtocolCommand := send_command_request [x7f; x03] None.

(** A command whose [execute] raises the given exception. *)
Definition failing (e : exn) : Command := {| execute := fun _ _ _ => Raise e |}.

(** Three calls in a row, the last one from another event loop: no answer,
    a transport fault, an answer on the third attempt. *)
Definition three_calls : list (loop * Command) :=
  [ (0%nat, as_command silent probe);
    (0%nat, failing (RequestFailedException "truncated response" 0));
    (1%nat, as_command answers_third probe) ].

(** ** Concurrent calls of _read_from_socket

    Several tasks call [_read_from_socket] on one instance.  A task runs
    without interruption between two [await]s, so a call has three points
    where others can run: before it starts, suspended on the Lock, and
    suspended in [command.execute] with the Lock held.  A caller may be
    queued behind earlier waiters although the Lock has just been given back,
    and the order in which waiters are served is left open. *)
Inductive pc : Type :=
| Start
| Waiting (l : lock_ref)
| InFlight (l : lock_ref)
| Done (r : outcome bytes).

Record task := {
  task_loop : loop;
  task_command : Command;
  task_pc : pc
}.

Definition at_pc (t : task) (p : pc) : task :=
  {| task_loop := task_loop t; task_command := task_command t; task_pc := p |}.

Record system := {
  inverter : Inverter;
  locks : lock_store;
  tasks : list task
}.

Inductive step : system -> system -> Prop :=
| step_enter_acquire inv lks pre t post l inv' lks' :
    task_pc t = Start ->
    _ensure_lock inv lks (task_loop t) = (l, inv', lks') ->
    locked lks' l = false ->
    step {| inverter := inv; locks := lks; tasks := pre ++ t :: post |}
         {| inverter := inv'; locks := set_locked lks' l true;
            tasks := pre ++ at_pc t (InFlight l) :: post |}
| step_enter_wait inv lks pre t post l inv' lks' :
    task_pc t = Start ->
    _ensure_lock inv lks (task_loop t) = (l, inv', lks') ->
    step {| inverter := inv; locks := lks; tasks := pre ++ t :: post |}
         {| inverter := inv'; locks := lks';
            tasks := pre ++ at_pc t (Waiting l) :: post |}
| step_wake inv lks pre t post l :
    task_pc t = Waiting l ->
    locked lks l = false ->
    step {| inverter := inv; locks := lks; tasks := pre ++ t :: post |}
         {| inverter := inv; locks := set_locked lks l true;
            tasks := pre ++ at_pc t (InFlight l) :: post |}
| step_cancel_wait inv lks pre t post l :
    task_pc t = Waiting l ->
    step {| inverter := inv; locks := lks; tasks := pre ++ t :: post |}
         {| inverter := inv; locks := lks;
            tasks := pre ++ at_pc t (Done (Raise CancelledError)) :: post |}
| step_complete inv lks pre t post l r inv' :
    task_pc t = InFlight l ->
    try_execute inv (task_command t) = (r, inv') ->
    step {| inverter := inv; locks := lks; tasks := pre ++ t :: post |}
         {| inverter := inv'; locks := set_locked lks l false;
            tasks := pre ++ at_pc t (Done r) :: post |}
| step_cancel_flight inv lks pre t post l :
    task_pc t = InFlight l ->
    step {| inverter := inv; locks := lks; tasks := pre ++ t :: post |}
         {| inverter := inv; locks := set_locked lks l false;
            tasks := pre ++ at_pc t (Done (Raise CancelledError)) :: post |}.

Inductive reachable (s0 : system) : system -> Prop :=
| reach_here : reachable s0 s0
| reach_step s s' : reachable s0 s -> step s s' -> reachable s0 s'.

Definition is_in_flight (t : task) : bool :=
  match task_pc t with InFlight _ => true | _ => false end.

Definition holds (l : lock_ref) (t : task) : bool :=
  match task_pc t with InFlight l' => Nat.eqb l' l | _ => false end.

(** The exchanges under way, on the whole instance and under one Lock. *)
Definition in_flight (ts : list task) : nat := List.length (filter is_in_flight ts).
Definition holders (l : lock_ref) (ts : list task) : nat :=
  List.length (filter (holds l) ts).

(** Where a set of calls starts from: no call has begun, no Lock is held,
    and the instance's Lock, if it has one, is an object of the store. *)
Definition idle (lks : lock_store) : Prop := forall l, locked lks l = false.

Definition lock_known (inv : Inverter) (lks : lock_store) : Prop :=
  match _lock inv with
  | Some l => (l < List.length lks)%nat
  | None => True
  end.

Definition initial (s : system) : Prop :=
  idle (locks s) /\ lock_known (inverter s) (locks s) /\
  Forall (fun t => task_pc t = Start) (tasks s).

Definition new_task (lp : loop) (c : Command) : task :=
  {| task_loop := lp; task_command := c; task_pc := Start |}.

(** ** Invariants of concurrent calls *)

(** A Lock is held exactly when one exchange under it is in flight; a call
    waits only on a Lock of the store; the instance's Lock is in the store. *)
Definition locks_accounted (s : system) : Prop :=
  (forall l, holders l (tasks s) = if locked (locks s) l then 1%nat else 0%nat)
  /\ (forall t l, In t (tasks s) -> task_pc t = Waiting l ->
                  (l < List.length (locks s))%nat)
  /\ lock_known (inverter s) (locks s).

(** All calls come from the loop [lp], and a call that waits or is in
    flight does so on the Lock the instance has for that loop. *)
Definition one_loop (lp : loop) (s : system) : Prop :=
  Forall (fun t => task_loop t = lp) (tasks s)
  /\ forall t l, In t (tasks s) ->
                 task_pc t = Waiting l \/ task_pc t = InFlight l ->
                 lock_is_current (inverter s) lp = Some l.

(** Two calls on one instance from two event loops, and one schedule of
    them: the first call takes its Lock, then the second, from the other
    loop, gets a new Lock and takes it. *)
Definition two_loops_start : system :=
  {| inverter := Inverter_default "192.168.1.14";
     locks := [];
     tasks := [ new_task 0 (as_command silent probe);
                new_task 1 (as_command silent probe) ] |}.

Definition two_loops_first : system :=
  {| inverter := with_lock (Inverter_default "192.168.1.14") 0 0;
     locks := [true];
     tasks := [ at_pc (new_task 0 (as_command silent probe)) (InFlight 0);
                new_task 1 (as_command silent probe) ] |}.

Definition two_loops_both : system :=
  {| inverter := with_lock (with_lock (Inverter_default "192.168.1.14") 0 0) 1 1;
     locks := [true; true];
     tasks := [ at_pc (new_task 0 (as_command silent probe)) (InFlight 0);
                at_pc (new_task 1 (as_command silent probe)) (InFlight 1) ] |}.

(** Two calls from one event loop, and the state where the first has taken
    the Lock and the second is queued on it. *)
Definition one_loop_start : system :=
  {| inverter := Inverter_default "192.168.1.14";
     locks := [];
     tasks := [ new_task 0 (as_command silent probe);
                new_task 0 (as_command echo probe) ] |}.

Definition one_loop_queued : system :=
  {| inverter := with_lock (Inverter_default "192.168.1.14") 0 0;
     locks := [true];
     tasks := [ at_pc (new_task 0 (as_command silent probe)) (InFlight 0);
                at_pc (new_task 0 (as_command echo probe)) (Waiting 0) ] |}.

(** ** Further tables and calls for the examples *)

(** The sensors whose id does not mark them as unidentified. *)
Definition identified (sensor : Sensor) : bool :=
  negb (String.prefix "xx" (id_ sensor)).

(** A table in which two sensors share an id, the second one past the end
    of a four-byte response. *)
Definition table_with_duplicate : list Sensor :=
  [ Integer "ppv1" 2 "PV1 Power" 2 "W" (Some PV);
    Decimal "vpv1" 0 "PV1 Voltage" 2 10 "V" (Some PV);
    Integer "ppv1" 4 "PV1 Power (copy)" 2 "W" (Some PV) ].

(** A table with a sensor placed before the start of the buffer. *)
Definition table_with_negative_offset : list Sensor :=
  [ Decimal "vpv1" 0 "PV1 Voltage" 2 10 "V" (Some PV);
    base_Sensor "ppv1" (-2) "PV1 Power" 2 "W" (Some PV) ].

(** Calls that end in ways a ProtocolCommand does not: a cancellation, an
    operating-system error, then an answer. *)
Definition unruly_calls : list (loop * Command) :=
  [ (0%nat, failing CancelledError);
    (1%nat, failing OSError);
    (0%nat, failing (MaxRetriesException 4));
    (2%nat, as_command echo probe) ].

(** The counters a run recorded lie between 0 and [hi]. *)
Definition counters_within (hi : Z) (rs : list (outcome bytes * Z)) : Prop :=
  Forall (fun rc => 0 <= snd rc <= hi) rs.

(** Under one event loop the calls create at most one Lock: either none has
    been created since the start and the instance has none for the loop, or
    the instance has one for the loop and the store has grown by one at
    most. *)
Definition one_lock_made (lp : loop) (n0 : nat) (s : system) : Prop :=
  (lock_is_current (inverter s) lp = None /\ List.length (locks s) = n0)
  \/ ((exists l, lock_is_current (inverter s) lp = Some l)
      /\ (n0 <= List.length (locks s) <= S n0)%nat).

(** ** The bus driver (dbus-goodwe-em-pvinverter.py): values and errors *)

(** The exceptions of the driver's own statements, what the goodwe library
    raised, and a representative of the exceptions that are no [Exception]. *)
Inductive error : Type :=
| KeyError (key : string)
| TypeError
| AttributeError (attribute : string)
| ConnectionError (message : string)
| ArithmeticError
| InverterError (e : exn)
| KeyboardInterrupt.

(** [isinstance(e, Exception)], what [except Exception] tests;
    [asyncio.CancelledError] derives from [BaseException]. *)
Definition is_Exception (e : error) : bool :=
  match e with
  | KeyboardInterrupt => false
  | InverterError CancelledError => false
  | _ => true
  end.

Inductive result (A : Type) : Type :=
| Returns (a : A)
| Raises (e : error).
Arguments Returns {A} a.
Arguments Raises {A} e.

(** Arithmetic on floats rounds, and it can overflow; what it returns is
    left open ([None] for an arithmetic error).  The operations of the driver
    that involve a float go through this interface, the ones on integers are
    exact. *)
Class FloatArith : Type := {
  float_sub : pyval -> pyval -> option pyval;
  float_add : pyval -> Z -> option pyval;
  true_division : pyval -> Z -> option pyval
}.

Definition arithmetic (r : option pyval) : result pyval :=
  match r with
  | Some v => Returns v
  | None => Raises ArithmeticError
  end.

(** [abs(v)] and [-v]: exact on both kinds of number. *)
Definition py_abs (v : pyval) : result pyval :=
  match v with
  | PyInt z => Returns (PyInt (Z.abs z))
  | PyFloat q => Returns (PyFloat (Qabs q))
  | _ => Raises TypeError
  end.

Definition py_neg (v : pyval) : result pyval :=
  match v with
  | PyInt z => Returns (PyInt (- z))
  | PyFloat q => Returns (PyFloat (Qopp q))
  | _ => Raises TypeError
  end.

(** [v > c] for an int constant [c]: numbers compare by value. *)
Definition py_gt (v : pyval) (c : Z) : result bool :=
  match v with
  | PyInt z => Returns (c <? z)
  | PyFloat q => Returns (negb (Qle_bool q (inject_Z c)))
  | _ => Raises TypeError
  end.

(** [a - b]. *)
Definition py_sub `{FloatArith} (a b : pyval) : result pyval :=
  match a, b with
  | PyInt x, PyInt y => Returns (PyInt (x - y))
  | PyInt _, PyFloat _ | PyFloat _, PyInt _ | PyFloat _, PyFloat _ =>
      arithmetic (float_sub a b)
  | _, _ => Raises TypeError
  end.

(** [v + c] for an int constant [c]. *)
Definition py_add `{FloatArith} (v : pyval) (c : Z) : result pyval :=
  match v with
  | PyInt z => Returns (PyInt (z + c))
  | PyFloat _ => arithmetic (float_add v c)
  | _ => Raises TypeError
  end.

(** [v / c] for an int constant [c]: true division, a float. *)
Definition py_truediv `{FloatArith} (v : pyval) (c : Z) : result pyval :=
  match v with
  | PyInt _ | PyFloat _ => arithmetic (true_division v c)
  | _ => Raises TypeError
  end.

(** ** The bus driver: services *)

(** Python dicts with values of any type. *)
Fixpoint lookup {V : Type} (d : list (string * V)) (k : string) : option V :=
  match d with
  | [] => None
  | (k', v') :: d' => if String.eqb k' k then Some v' else lookup d' k
  end.

Fixpoint store {V : Type} (d : list (string * V)) (k : string) (v : V)
  : list (string * V) :=
  match d with
  | [] => [(k, v)]
  | (k', v') :: d' =>
      if String.eqb k' k then (k', v) :: d' else (k', v') :: store d' k v
  end.

(** A [VeDbusService] (velib_python): its bus name and the value of each
    path added to it.  Reading or assigning a path that was not added raises
    [KeyError]; a path that was added holds the value last assigned to it.
    What a service sends on the bus is left out: the signal of a change and
    the text of a value, which the formatting callbacks of [main] round, so
    that the values assigned are numbers or [None] -- and since velib leaves
    the stored object alone when the new value compares equal to it, a value
    is meant up to Python's [==] (0 for 0.0). *)
Record VeDbusService := {
  servicename : string;
  items : dict
}.

Definition services := list (string * VeDbusService).

Definition add_path (service : VeDbusService) (path : string) (value : pyval)
  : VeDbusService :=
  {| servicename := servicename service;
     items := dict_set (items service) path value |}.

(** [{:02d}]: at least two characters, padded with a zero. *)
Definition format_02d (n : Z) : string :=
  if (0 <=? n) && (n <? 10) then "0" ++ str n else str n.

(** [str.format] of the [type] argument, [None] by default. *)
Definition format_type (type : option string) : string :=
  match type with Some t => t | None => "None" end.

(** [VictronDbusService.create_dbus_service]; [process_name] is [__file__]
    and [python_version] is [platform.python_version()]. *)
Definition create_dbus_service (process_name python_version : string)
    (base physical logical : string) (id instance product_id : Z)
    (product_name_ custom_name_ : string) (type : option string) : VeDbusService :=
  let dbus_service :=
    {| servicename := base ++ "." ++ format_type type ++ "." ++ physical
                        ++ "_id" ++ format_02d id;
       items := [] |} in
  let dbus_service := add_path dbus_service "/Mgmt/ProcessName" (PyStr process_name) in
  let dbus_service :=
    add_path dbus_service "/Mgmt/ProcessVersion"
      (PyStr ("Unkown version, and running on Python " ++ python_version)) in
  let dbus_service := add_path dbus_service "/Mgmt/Connection" (PyStr logical) in
  let dbus_service := add_path dbus_service "/DeviceInstance" (PyInt instance) in
  let dbus_service := add_path dbus_service "/ProductId" (PyInt product_id) in
  let dbus_service := add_path dbus_service "/ProductName" (PyStr product_name_) in
  let dbus_service := add_path dbus_service "/CustomName" (PyStr custom_name_) in
  let dbus_service := add_path dbus_service "/FirmwareVersion" (PyInt 0) in
  let dbus_service := add_path dbus_service "/HardwareVersion" (PyInt 0) in
  let dbus_service := add_path dbus_service "/Connected" (PyInt 1) in
  let dbus_service := add_path dbus_service "/UpdateIndex" (PyInt 0) in
  let dbus_service := add_path dbus_service "/StatusCode" (PyInt 0) in
  let dbus_service :=
    if match type with Some t => String.eqb t "temperature" | None => false end then
      let dbus_service := add_path dbus_service "/Temperature" (PyInt 0) in
      let dbus_service := add_path dbus_service "/Status" (PyInt 0) in
      add_path dbus_service "/TemperatureType" (PyInt 0)
    else dbus_service in
  let dbus_service :=
    if match type with Some t => String.eqb t "humidity" | None => false end then
      let dbus_service := add_path dbus_service "/Humidity" (PyInt 0) in
      add_path dbus_service "/Status" (PyInt 0)
    else dbus_service in
  dbus_service.

(** ** The bus driver: GoodWeEMService *)

(** The object.  The attributes that [__init__] sets are fields; the
    readings, which exist only once [refresh_meter_data] has assigned them,
    are kept by name in [attributes]. *)
Record GoodWeEMService := {
  dbus_service : option services;
  custom_name : string;
  product_name : string;
  product_id : Z;
  logical_connection : string;
  device_instance : Z;
  has_meter : bool;
  pv_inverter_position : Z;
  pv_max_power : Z;
  pv_host : string;
  meter_product_name : string;
  attributes : dict;
  _dbus_last_update : option Q
}.

Definition with_services (self : GoodWeEMService) (d : option services)
  : GoodWeEMService :=
  {| dbus_service := d;
     custom_name := custom_name self;
     product_name := product_name self;
     product_id := product_id self;
     logical_connection := logical_connection self;
     device_instance := device_instance self;
     has_meter := has_meter self;
     pv_inverter_position := pv_inverter_position self;
     pv_max_power := pv_max_power self;
     pv_host := pv_host self;
     meter_product_name := meter_product_name self;
     attributes := attributes self;
     _dbus_last_update := _dbus_last_update self |}.

Definition with_attributes (self : GoodWeEMService) (a : dict) : GoodWeEMService :=
  {| dbus_service := dbus_service self;
     custom_name := custom_name self;
     product_name := product_name self;
     product_id := product_id self;
     logical_connection := logical_connection self;
     device_instance := device_instance self;
     has_meter := has_meter self;
     pv_inverter_position := pv_inverter_position self;
     pv_max_power := pv_max_power self;
     pv_host := pv_host self;
     meter_product_name := meter_product_name self;
     attributes := a;
     _dbus_last_update := _dbus_last_update self |}.

Definition with_last_update (self : GoodWeEMService) (t : Q) : GoodWeEMService :=
  {| dbus_service := dbus_service self;
     custom_name := custom_name self;
     product_name := product_name self;
     product_id := product_id self;
     logical_connection := logical_connection self;
     device_instance := device_instance self;
     has_meter := has_meter self;
     pv_inverter_position := pv_inverter_position self;
     pv_max_power := pv_max_power self;
     pv_host := pv_host self;
     meter_product_name := meter_product_name self;
     attributes := attributes self;
     _dbus_last_update := Some t |}.

(** [GoodWeEMService.set_dbus_service]. *)
Definition set_dbus_service (self : GoodWeEMService) (d : services) : GoodWeEMService :=
  with_services self (Some d).

(** Statements of a method: they read and change the object, and return or
    raise. *)
Definition M (A : Type) : Type := GoodWeEMService -> result A * GoodWeEMService.

Definition ret {A : Type} (a : A) : M A := fun self => (Returns a, self).

Definition raise {A : Type} (e : error) : M A := fun self => (Raises e, self).

Definition bind {A B : Type} (c : M A) (f : A -> M B) : M B :=
  fun self =>
    match c self with
    | (Returns a, self') => f a self'
    | (Raises e, self') => (Raises e, self')
    end.

Notation "x <- c1 ;; c2" := (bind c1 (fun x => c2))
  (at level 61, c1 at next level, right associativity).
Notation "c1 ;; c2" := (bind c1 (fun _ => c2))
  (at level 61, right associativity).

Definition lift {A : Type} (r : result A) : M A := fun self => (r, self).

(** [try: body  except Exception as e: logging.critical(...)]. *)
Definition try_except (body : M Datatypes.unit) : M Datatypes.unit :=
  fun self =>
    match body self with
    | (Raises e, self') =>
        if is_Exception e then (Returns tt, self') else (Raises e, self')
    | r => r
    end.

(** [d[k]] on a mapping of readings. *)
Definition subscript (d : dict) (k : string) : result pyval :=
  match dict_get d k with
  | Some v => Returns v
  | None => Raises (KeyError k)
  end.

(** [self.name] and [self.name = v] for a reading. *)
Definition get_attr (name_ : string) : M pyval :=
  fun self =>
    match dict_get (attributes self) name_ with
    | Some v => (Returns v, self)
    | None => (Raises (AttributeError name_), self)
    end.

Definition set_attr (name_ : string) (v : pyval) : M Datatypes.unit :=
  fun self => (Returns tt, with_attributes self (dict_set (attributes self) name_ v)).

(** [dbus_service[service][path]]; [dbus_service] is [None] until
    [set_dbus_service]. *)
Definition get_item (service path : string) : M pyval :=
  fun self =>
    match dbus_service self with
    | None => (Raises TypeError, self)
    | Some d =>
        match lookup d service with
        | None => (Raises (KeyError service), self)
        | Some svc =>
            match dict_get (items svc) path with
            | None => (Raises (KeyError path), self)
            | Some v => (Returns v, self)
            end
        end
    end.

(** [dbus_service[service][path] = v]: the service object is changed in
    place. *)
Definition set_item (service path : string) (v : pyval) : M Datatypes.unit :=
  fun self =>
    match dbus_service self with
    | None => (Raises TypeError, self)
    | Some d =>
        match lookup d service with
        | None => (Raises (KeyError service), self)
        | Some svc =>
            match dict_get (items svc) path with
            | None => (Raises (KeyError path), self)
            | Some _ =>
                (Returns tt,
                 with_services self
                   (Some (store d service
                            {| servicename := servicename svc;
                               items := dict_set (items svc) path v |})))
            end
        end
    end.

(** ['grid' in dbus_service]. *)
Definition has_service (service : string) : M bool :=
  fun self =>
    match dbus_service self with
    | None => (Raises TypeError, self)
    | Some d =>
        (Returns (match lookup d service with Some _ => true | None => false end),
         self)
    end.

Definition get_has_meter : M bool := fun self => (Returns (has_meter self), self).
Definition get_pv_host : M string := fun self => (Returns (pv_host self), self).

(** [GoodWeEMService._get_goodwe_data]; [runtime] stands for
    [goodwe.connect(host)] followed by [read_runtime_data()]. *)
Definition _get_goodwe_data (runtime : string -> result dict) (host_ : string)
  : result dict :=
  match runtime host_ with
  | Raises e => Raises e
  | Returns meter_data =>
      match meter_data with
      | [] => Raises (ConnectionError ("No response from GoodWe EM - " ++ host_))
      | _ => Returns meter_data
      end
  end.

(** The statements of [refresh_meter_data] under [if self.has_meter]. *)
Definition refresh_meter `{FloatArith} (meter_data : dict) : M Datatypes.unit :=
  pgrid <- lift (subscript meter_data "pgrid") ;;
  a <- lift (py_abs pgrid) ;;
  v <- lift (py_neg a) ;;
  set_attr "meter_forward" v ;;
  pgrid <- lift (subscript meter_data "pgrid") ;;
  house <- lift (subscript meter_data "house_consumption") ;;
  d <- lift (py_sub pgrid house) ;;
  a <- lift (py_abs d) ;;
  v <- lift (py_neg a) ;;
  set_attr "meter_reverse" v ;;
  v <- lift (subscript meter_data "house_consumption") ;;
  set_attr "meter_house_consumption" v ;;
  v <- lift (subscript meter_data "igrid") ;;
  set_attr "meter_current" v ;;
  pgrid <- lift (subscript meter_data "pgrid") ;;
  a <- lift (py_abs pgrid) ;;
  v <- lift (py_neg a) ;;
  set_attr "meter_total_power" v ;;
  v <- lift (subscript meter_data "vgrid") ;;
  set_attr "meter_voltage" v.

(** [GoodWeEMService.refresh_meter_data]. *)
Definition refresh_meter_data `{FloatArith} (runtime : string -> result dict) : M bool :=
  try_except (
    host_ <- get_pv_host ;;
    meter_data <- lift (_get_goodwe_data runtime host_) ;;
    v <- lift (subscript meter_data "ppv") ;;
    set_attr "pv_power" v ;;
    v <- lift (subscript meter_data "igrid") ;;
    set_attr "pv_current" v ;;
    v <- get_attr "pv_power" ;;
    set_attr "pv_total" v ;;
    v <- lift (subscript meter_data "vgrid") ;;
    set_attr "pv_voltage" v ;;
    meter <- get_has_meter ;;
    if meter then refresh_meter meter_data else ret tt) ;;
  ret true.

(** The statements of [update_dbus_pv_inverter] that publish the inverter's
    readings. *)
Definition publish_pvinverter `{FloatArith} : M Datatypes.unit :=
  let pre := "/Ac/L1" in
  v <- get_attr "pv_voltage" ;;
  set_item "pvinverter" (pre ++ "/Voltage") v ;;
  v <- get_attr "pv_current" ;;
  set_item "pvinverter" (pre ++ "/Current") v ;;
  v <- get_attr "pv_power" ;;
  set_item "pvinverter" (pre ++ "/Power") v ;;
  p <- get_attr "pv_power" ;;
  producing <- lift (py_gt p 0) ;;
  (if producing : bool then
     t <- get_attr "pv_total" ;;
     x <- lift (py_truediv t 1000) ;;
     y <- lift (py_truediv x 60) ;;
     set_item "pvinverter" (pre ++ "/Energy/Forward") y
   else
     set_item "pvinverter" (pre ++ "/Voltage") (PyInt 0) ;;
     set_item "pvinverter" (pre ++ "/Current") (PyInt 0) ;;
     set_item "pvinverter" (pre ++ "/Power") (PyInt 0) ;;
     set_item "pvinverter" (pre ++ "/Energy/Forward") (PyInt 0)) ;;
  v <- get_item "pvinverter" "/Ac/L1/Power" ;;
  set_item "pvinverter" "/Ac/Power" v ;;
  v <- get_item "pvinverter" "/Ac/L1/Energy/Forward" ;;
  set_item "pvinverter" "/Ac/Energy/Forward" v.

(** The statements that publish the grid meter's readings. *)
Definition publish_grid `{FloatArith} : M Datatypes.unit :=
  meter <- get_has_meter ;;
  if meter : bool then
    present <- has_service "grid" ;;
    if present : bool then
      let pre := "/Ac/L1" in
      v <- get_attr "meter_voltage" ;;
      set_item "grid" (pre ++ "/Voltage") v ;;
      v <- get_attr "meter_current" ;;
      set_item "grid" (pre ++ "/Current") v ;;
      v <- get_attr "meter_total_power" ;;
      set_item "grid" (pre ++ "/Power") v ;;
      f <- get_attr "meter_forward" ;;
      x <- lift (py_truediv f 1000) ;;
      y <- lift (py_truediv x 60) ;;
      set_item "grid" "/Ac/Energy/Forward" y ;;
      r <- get_attr "meter_reverse" ;;
      x <- lift (py_truediv r 1000) ;;
      y <- lift (py_truediv x 60) ;;
      set_item "grid" "/Ac/Energy/Reverse" y ;;
      f <- get_attr "meter_forward" ;;
      x <- lift (py_truediv f 1000) ;;
      y <- lift (py_truediv x 60) ;;
      set_item "grid" "/Ac/L1/Energy/Forward" y ;;
      r <- get_attr "meter_reverse" ;;
      x <- lift (py_truediv r 1000) ;;
      y <- lift (py_truediv x 60) ;;
      set_item "grid" "/Ac/L1/Energy/Reverse" y ;;
      v <- get_attr "meter_total_power" ;;
      set_item "grid" "/Ac/Power" v
    else ret tt
  else ret tt.

(** The arguments of the two [logging.debug] calls, which are evaluated. *)
Definition log_published : M Datatypes.unit :=
  get_item "pvinverter" "/Ac/Power" ;;
  get_item "pvinverter" "/Ac/Energy/Forward" ;;
  ret tt.

(** The increment of [/UpdateIndex]. *)
Definition bump_update_index `{FloatArith} : M Datatypes.unit :=
  i <- get_item "pvinverter" "/UpdateIndex" ;;
  index <- lift (py_add i 1) ;;
  over <- lift (py_gt index 255) ;;
  let index := if over : bool then PyInt 0 else index in
  set_item "pvinverter" "/UpdateIndex" index.

Definition set_last_update (now : Q) : M Datatypes.unit :=
  fun self => (Returns tt, with_last_update self now).

(** [GoodWeEMService.update_dbus_pv_inverter]; [now] is [time.time()]. *)
Definition update_dbus_pv_inverter `{FloatArith} (runtime : string -> result dict)
    (now : Q) : M bool :=
  try_except (
    refresh_meter_data runtime ;;
    publish_pvinverter ;;
    publish_grid ;;
    log_published ;;
    bump_update_index ;;
    set_last_update now) ;;
  ret true.

(** ** The bus driver: main *)

(** The dictionary of services that [main] builds and hands to
    [set_dbus_service]. *)
Definition main_services (process_name python_version : string)
    (goodwe_inverter : GoodWeEMService) : services :=
  let base := "com.victronenergy" in
  let dbusservice : services := [] in
  let pvinverter :=
    create_dbus_service process_name python_version base "http"
      (logical_connection goodwe_inverter) (device_instance goodwe_inverter)
      (device_instance goodwe_inverter) (product_id goodwe_inverter)
      (product_name goodwe_inverter) (custom_name goodwe_inverter)
      (Some "pvinverter") in
  let pvinverter := add_path pvinverter "/Ac/Energy/Forward" PyNone in
  let pvinverter := add_path pvinverter "/Ac/Power" (PyInt 0) in
  let pvinverter := add_path pvinverter "/Ac/Current" (PyInt 0) in
  let pvinverter := add_path pvinverter "/Ac/Voltage" (PyInt 0) in
  let pvinverter := add_path pvinverter "/Ac/L1/Voltage" (PyInt 0) in
  let pvinverter := add_path pvinverter "/Ac/L1/Current" (PyInt 0) in
  let pvinverter := add_path pvinverter "/Ac/L1/Power" (PyInt 0) in
  let pvinverter := add_path pvinverter "/Ac/L1/Energy/Forward" PyNone in
  let pvinverter :=
    add_path pvinverter "/Position" (PyInt (pv_inverter_position goodwe_inverter)) in
  let pvinverter :=
    add_path pvinverter "/MaxPower" (PyInt (pv_max_power goodwe_inverter)) in
  let dbusservice := store dbusservice "pvinverter" pvinverter in
  if has_meter goodwe_inverter then
    let grid :=
      create_dbus_service process_name python_version base "http"
        (logical_connection goodwe_inverter) (device_instance goodwe_inverter)
        (device_instance goodwe_inverter) (product_id goodwe_inverter)
        (meter_product_name goodwe_inverter) (meter_product_name goodwe_inverter)
        (Some "grid") in
    let grid := add_path grid "/Ac/L1/Energy/Forward" PyNone in
    let grid := add_path grid "/Ac/L1/Energy/Reverse" PyNone in
    let grid := add_path grid "/Ac/Energy/Forward" PyNone in
    let grid := add_path grid "/Ac/Energy/Reverse" PyNone in
    let grid := add_path grid "/Ac/Power" (PyInt 0) in
    let grid := add_path grid "/Ac/L1/Current" (PyInt 0) in
    let grid := add_path grid "/Ac/L1/Voltage" (PyInt 0) in
    let grid := add_path grid "/Ac/L1/Power" (PyInt 0) in
    let grid :=
      add_path grid "/Position" (PyInt (pv_inverter_position goodwe_inverter)) in
    store dbusservice "grid" grid
  else dbusservice.

(** The object as [main] leaves it for the timer. *)
Definition main_setup (process_name python_version : string)
    (goodwe_inverter : GoodWeEMService) : GoodWeEMService :=
  set_dbus_service goodwe_inverter
    (main_services process_name python_version goodwe_inverter).

(** ** The bus driver: what is observed of an object *)

(** The reading kept under an attribute, and the value of a path of a
    service, if they exist. *)
Definition attr (self : GoodWeEMService) (name_ : string) : option pyval :=
  dict_get (attributes self) name_.

Definition item_of (self : GoodWeEMService) (service path : string) : option pyval :=
  match dbus_service self with
  | Some d =>
      match lookup d service with
      | Some svc => dict_get (items svc) path
      | None => None
      end
  | None => None
  end.

(** The services and the paths of each, in order. *)
Definition paths (self : GoodWeEMService) : option (list (string * list string)) :=
  option_map (map (fun entry => (fst entry, keys (items (snd entry)))))
    (dbus_service self).

(** [/UpdateIndex] after an increment. *)
Definition next_index (i : Z) : Z := if 255 <? i + 1 then 0 else i + 1.

(** The paths of the inverter's service that a cycle assigns all exist. *)
Definition pvinverter_ready (self : GoodWeEMService) : Prop :=
  Forall (fun path => item_of self "pvinverter" path <> None)
    [ "/Ac/L1/Voltage"; "/Ac/L1/Current"; "/Ac/L1/Power"; "/Ac/L1/Energy/Forward";
      "/Ac/Power"; "/Ac/Energy/Forward"; "/UpdateIndex" ].

(** A stand-in for float arithmetic in the examples: exact on rationals. *)
Definition as_rational (v : pyval) : option Q :=
  match v with
  | PyInt z => Some (inject_Z z)
  | PyFloat q => Some q
  | _ => None
  end.

Definition exact_arith : FloatArith :=
  {| float_sub := fun a b =>
       match as_rational a, as_rational b with
       | Some x, Some y => Some (PyFloat (Qred (x - y)))
       | _, _ => None
       end;
     float_add := fun a c =>
       match as_rational a with
       | Some x => Some (PyFloat (Qred (x + inject_Z c)))
       | None => None
       end;
     true_division := fun a c =>
       match as_rational a with
       | Some x => if c =? 0 then None else Some (PyFloat (Qred (x / inject_Z c)))
       | None => None
       end |}.

(** An object as [__init__] leaves it for a site with a meter, and the
    readings of one cycle. *)
Definition site : GoodWeEMService :=
  {| dbus_service := None;
     custom_name := "GoodWe";
     product_name := "GoodWe EM";
     product_id := 65535;
     logical_connection := "GoodWe EM service";
     device_instance := 40;
     has_meter := true;
     pv_inverter_position := 0;
     pv_max_power := 5000;
     pv_host := "192.168.1.14";
     meter_product_name := "GoodWe Smart Meter";
     attributes := [];
     _dbus_last_update := None |}.

Definition readings (ppv pgrid house : Z) : dict :=
  [ ("vgrid", PyFloat (2301 # 10)); ("igrid", PyFloat (52 # 10));
    ("ppv", PyInt ppv); ("pgrid", PyInt pgrid); ("house_consumption", PyInt house) ].

(** A statement started where [P] holds ends where [Q] holds, whether it
    returns or raises. *)
Definition establishes {A : Type} (P : GoodWeEMService -> Prop) (c : M A)
    (Q : GoodWeEMService -> Prop) : Prop :=
  forall self, P self -> Q (snd (c self)).

Definition is_some {A : Type} (o : option A) : bool :=
  match o with Some _ => true | None => false end.

(** A statement that raises nothing but an [Exception]. *)
Definition guarded {A : Type} (c : M A) : Prop :=
  forall self e, fst (c self) = Raises e -> is_Exception e = true.

Definition is_number (v : pyval) : bool :=
  match v with PyInt _ | PyFloat _ => true | _ => false end.

(** The six values of the inverter's service that a cycle publishes. *)
Definition published (self : GoodWeEMService)
    (voltage current power energy : pyval) : Prop :=
  item_of self "pvinverter" "/Ac/L1/Voltage" = Some voltage
  /\ item_of self "pvinverter" "/Ac/L1/Current" = Some current
  /\ item_of self "pvinverter" "/Ac/L1/Power" = Some power
  /\ item_of self "pvinverter" "/Ac/L1/Energy/Forward" = Some energy
  /\ item_of self "pvinverter" "/Ac/Power" = Some power
  /\ item_of self "pvinverter" "/Ac/Energy/Forward" = Some energy.

(** The readings of the inverter that [refresh_meter_data] keeps. *)
Definition pv_readings (self : GoodWeEMService) (voltage current power : pyval) : Prop :=
  attr self "pv_voltage" = Some voltage
  /\ attr self "pv_current" = Some current
  /\ attr self "pv_power" = Some power
  /\ attr self "pv_total" = Some power.

(** The paths of the meter's service that a cycle assigns all exist. *)
Definition grid_ready (self : GoodWeEMService) : Prop :=
  Forall (fun path => item_of self "grid" path <> None)
    [ "/Ac/L1/Voltage"; "/Ac/L1/Current"; "/Ac/L1/Power"; "/Ac/Energy/Forward";
      "/Ac/Energy/Reverse"; "/Ac/L1/Energy/Forward"; "/Ac/L1/Energy/Reverse";
      "/Ac/Power" ].

(** The readings of the meter that [refresh_meter_data] keeps. *)
Definition meter_readings (self : GoodWeEMService)
    (voltage current power forward reverse : pyval) : Prop :=
  attr self "meter_voltage" = Some voltage
  /\ attr self "meter_current" = Some current
  /\ attr self "meter_total_power" = Some power
  /\ attr self "meter_forward" = Some forward
  /\ attr self "meter_reverse" = Some reverse.

(** Division of a number by a constant other than 0 gives a float. *)
Definition divides `{FloatArith} : Prop :=
  forall (w : pyval) (k : Z),
    is_number w = true -> k <> 0 -> exists q, true_division w k = Some (PyFloat q).

(** Objects and devices for the examples: the site once [main] has set it
    up, the same site without a meter and with the readings of an earlier
    cycle, and devices that answer, answer without a voltage, or fail. *)
Definition site_set_up : GoodWeEMService :=
  main_setup "dbus-goodwe-em-pvinverter.py" "3.8.13" site.

Definition site_producing : GoodWeEMService :=
  main_setup "dbus-goodwe-em-pvinverter.py" "3.8.13"
    {| dbus_service := None;
       custom_name := "GoodWe";
       product_name := "GoodWe EM";
       product_id := 65535;
       logical_connection := "GoodWe EM service";
       device_instance := 40;
       has_meter := false;
       pv_inverter_position := 0;
       pv_max_power := 5000;
       pv_host := "192.168.1.14";
       meter_product_name := "";
       attributes := [ ("pv_power", PyInt 1500); ("pv_current", PyFloat (52 # 10));
                       ("pv_total", PyInt 1500); ("pv_voltage", PyFloat (2301 # 10)) ];
       _dbus_last_update := None |}.

Definition device (ppv pgrid house : Z) : string -> result dict :=
  fun _ => Returns (readings ppv pgrid house).

Definition device_without_voltage : string -> result dict :=
  fun _ => Returns [ ("igrid", PyFloat (52 # 10)); ("ppv", PyInt 1500) ].

Definition device_down : string -> result dict :=
  fun _ => Raises (InverterError
                     (RequestFailedException
                        "No valid response received even after 3 retries" 1)).

(** * Properties *)

(** ** Sensor.read and the shared buffer *)

Lemma read_outcome (sensor : Sensor) (buffer : BytesIO) :
  fst (read sensor buffer) = decode sensor (getvalue buffer).
Proof.
  unfold decode, read, seek.
  destruct (offset sensor <? 0); [reflexivity|].
  cbn [getvalue BytesIO_new].
  destruct (read_value sensor _) as [r p]; reflexivity.
Qed.

Lemma read_keeps_data (sensor : Sensor) (buffer : BytesIO) :
  getvalue (snd (read sensor buffer)) = getvalue buffer.
Proof.
  unfold read, seek.
  destruct (offset sensor <? 0); [reflexivity|].
  destruct (read_value sensor _) as [r p]; reflexivity.
Qed.

Lemma negative_offset_is_contained (sensor : Sensor) (data : bytes) :
  offset sensor < 0 -> decode sensor data = Raise ValueError.
Proof.
  intros H. unfold decode, read, seek.
  apply Z.ltb_lt in H. rewrite H. reflexivity.
Qed.

(** ** Dictionaries *)

Lemma dict_set_fresh (d : dict) (k : string) (v : pyval) :
  ~ In k (keys d) -> dict_set d k v = d ++ [(k, v)].
Proof.
  induction d as [|[k' v'] d IH]; intros Hk; cbn; [reflexivity|].
  destruct (String.eqb_spec k' k) as [->|Hne].
  - exfalso. apply Hk. left. reflexivity.
  - f_equal. apply IH. intros Hin. apply Hk. right. exact Hin.
Qed.

Lemma keys_dict_set_present (d : dict) (k : string) (v : pyval) :
  In k (keys d) -> keys (dict_set d k v) = keys d.
Proof.
  induction d as [|[k' v'] d IH]; intros Hk; cbn in *; [contradiction|].
  destruct (String.eqb_spec k' k) as [->|Hne]; cbn; [reflexivity|].
  f_equal. apply IH. destruct Hk as [Hk|Hk]; [congruence|exact Hk].
Qed.

Lemma keys_dict_set (d : dict) (k : string) (v : pyval) :
  keys (dict_set d k v) = if in_dec string_dec k (keys d) then keys d else keys d ++ [k].
Proof.
  destruct (in_dec string_dec k (keys d)) as [Hin|Hout].
  - apply keys_dict_set_present, Hin.
  - rewrite dict_set_fresh by exact Hout. unfold keys. rewrite map_app. reflexivity.
Qed.

Lemma dict_set_keeps_NoDup (d : dict) (k : string) (v : pyval) :
  NoDup (keys d) -> NoDup (keys (dict_set d k v)).
Proof.
  intros Hd. rewrite keys_dict_set.
  destruct (in_dec string_dec k (keys d)) as [Hin|Hout]; [exact Hd|].
  apply NoDup_app; [exact Hd| constructor; [intros []|constructor] |].
  intros x Hx [<-|[]]. exact (Hout Hx).
Qed.

Lemma dict_set_In_keys (d : dict) (k k' : string) (v : pyval) :
  In k' (keys (dict_set d k v)) <-> In k' (keys d) \/ k' = k.
Proof.
  rewrite keys_dict_set.
  destruct (in_dec string_dec k (keys d)) as [Hin|Hout].
  - split; [tauto|]. intros [H| ->]; assumption.
  - rewrite in_app_iff. cbn. intuition congruence.
Qed.

Lemma dict_get_set_same (d : dict) (k : string) (v : pyval) :
  dict_get (dict_set d k v) k = Some v.
Proof.
  induction d as [|[k' v'] d IH]; cbn.
  - rewrite String.eqb_refl. reflexivity.
  - destruct (String.eqb k' k) eqn:E; cbn; rewrite E; [reflexivity|exact IH].
Qed.

Lemma dict_get_set_other (d : dict) (k k' : string) (v : pyval) :
  k' <> k -> dict_get (dict_set d k v) k' = dict_get d k'.
Proof.
  intros Hne. induction d as [|[k0 v0] d IH]; cbn.
  - destruct (String.eqb_spec k k'); [congruence|reflexivity].
  - destruct (String.eqb_spec k0 k) as [->|H0]; cbn.
    + destruct (String.eqb_spec k k'); [congruence|reflexivity].
    + destruct (String.eqb k0 k'); [reflexivity|exact IH].
Qed.

(** ** The loop of _map_response *)

Lemma loop_contained (incl_xx : bool) (table : list Sensor) :
  forall (buffer : BytesIO) (result : dict),
    Forall (fun s => contained (getvalue buffer) s = true) (read_sensors incl_xx table) ->
    map_response_loop buffer result table incl_xx
    = Ok (assign_all (getvalue buffer) result (read_sensors incl_xx table)).
Proof.
  induction table as [|s rest IH]; intros buffer result Hall; cbn; [reflexivity|].
  unfold read_sensors in *. cbn in Hall.
  destruct (processed incl_xx s) eqn:Hp.
  - inversion Hall as [|? ? Hs Hrest]; subst.
    pose proof (read_outcome s buffer) as Ho.
    pose proof (read_keeps_data s buffer) as Hd.
    unfold contained in Hs. unfold assign_all. cbn [fold_left].
    change (fold_left _ ?l ?a) with (assign_all (getvalue buffer) a l).
    unfold entry. cbn [fst snd].
    destruct (read s buffer) as [r buffer']. cbn in Ho, Hd. rewrite <- Ho in *.
    destruct r as [v|e].
    + rewrite IH by (rewrite Hd; exact Hrest). rewrite Hd. reflexivity.
    + rewrite Hs. rewrite IH by (rewrite Hd; exact Hrest). rewrite Hd. reflexivity.
  - apply IH, Hall.
Qed.

Lemma assign_all_fresh (data : bytes) (ss : list Sensor) :
  forall result : dict,
    NoDup (keys result ++ map id_ ss) ->
    assign_all data result ss = result ++ map (entry data) ss.
Proof.
  induction ss as [|s rest IH]; intros result Hnd; cbn.
  - rewrite app_nil_r. reflexivity.
  - unfold assign_all in *. cbn [fold_left]. cbn [entry fst snd].
    assert (Hfresh : ~ In (id_ s) (keys result)).
    { intros Hin. apply NoDup_remove_2 in Hnd. apply Hnd.
      apply in_or_app. left. exact Hin. }
    rewrite dict_set_fresh by exact Hfresh.
    rewrite IH.
    + rewrite <- app_assoc. reflexivity.
    + unfold keys in *. rewrite map_app. cbn. rewrite <- app_assoc. exact Hnd.
Qed.

Lemma loop_keys (incl_xx : bool) (table : list Sensor) :
  forall (buffer : BytesIO) (result r : dict),
    map_response_loop buffer result table incl_xx = Ok r ->
    NoDup (keys result) ->
    NoDup (keys r) /\
    forall k, In k (keys r) <->
              In k (keys result) \/ In k (map id_ (read_sensors incl_xx table)).
Proof.
  induction table as [|s rest IH]; intros buffer result r Hr Hnd; cbn in Hr.
  - inversion Hr; subst. split; [exact Hnd|]. intros k. cbn. tauto.
  - unfold read_sensors in *. cbn [filter].
    destruct (processed incl_xx s) eqn:Hp.
    + destruct (read s buffer) as [[v|e] buffer'].
      * apply IH in Hr; [|apply dict_set_keeps_NoDup, Hnd].
        destruct Hr as [H1 H2]. split; [exact H1|].
        intros k. rewrite H2, dict_set_In_keys. cbn. intuition congruence.
      * destruct (is_ValueError e); [|discriminate].
        apply IH in Hr; [|apply dict_set_keeps_NoDup, Hnd].
        destruct Hr as [H1 H2]. split; [exact H1|].
        intros k. rewrite H2, dict_set_In_keys. cbn. intuition congruence.
    + apply IH in Hr; [|exact Hnd]. exact Hr.
Qed.

Lemma loop_propagates (incl_xx : bool) (pre : list Sensor) :
  forall (buffer : BytesIO) (result : dict) (s : Sensor) (post : list Sensor) (e : exn),
    Forall (fun t => contained (getvalue buffer) t = true) (read_sensors incl_xx pre) ->
    processed incl_xx s = true ->
    decode s (getvalue buffer) = Raise e ->
    is_ValueError e = false ->
    map_response_loop buffer result (pre ++ s :: post) incl_xx = Raise e.
Proof.
  induction pre as [|t pre IH]; intros buffer result s post e Hpre Hp He Hv; cbn.
  - rewrite Hp.
    pose proof (read_outcome s buffer) as Ho.
    destruct (read s buffer) as [r b']. cbn in Ho. rewrite He in Ho. subst r.
    rewrite Hv. reflexivity.
  - unfold read_sensors in *. cbn in Hpre.
    destruct (processed incl_xx t) eqn:Hpt.
    + inversion Hpre as [|? ? Ht Hrest]; subst.
      pose proof (read_outcome t buffer) as Ho.
      pose proof (read_keeps_data t buffer) as Hd.
      unfold contained in Ht.
      destruct (read t buffer) as [r b']. cbn in Ho, Hd. rewrite <- Ho in Ht.
      destruct r as [v|e'].
      * apply IH; rewrite ?Hd; assumption.
      * rewrite Ht. apply IH; rewrite ?Hd; assumption.
    + apply IH; assumption.
Qed.

Lemma loop_raises_uncontained (incl_xx : bool) (table : list Sensor) :
  forall (buffer : BytesIO) (result : dict),
    Exists (fun s => contained (getvalue buffer) s = false) (read_sensors incl_xx table) ->
    exists e, map_response_loop buffer result table incl_xx = Raise e
              /\ is_ValueError e = false.
Proof.
  induction table as [|s rest IH]; intros buffer result Hex; cbn.
  - inversion Hex.
  - unfold read_sensors in *. cbn in Hex.
    destruct (processed incl_xx s) eqn:Hp; [|apply IH, Hex].
    pose proof (read_outcome s buffer) as Ho.
    pose proof (read_keeps_data s buffer) as Hd.
    destruct (read s buffer) as [r b'] eqn:Hr. cbn in Ho, Hd.
    destruct r as [v|e].
    + apply IH. rewrite Hd. inversion Hex as [? ? Hs|? ? Hrest]; subst; [|exact Hrest].
      unfold contained in Hs. rewrite <- Ho in Hs. discriminate.
    + destruct (is_ValueError e) eqn:Hv.
      * apply IH. rewrite Hd. inversion Hex as [? ? Hs|? ? Hrest]; subst; [|exact Hrest].
        unfold contained in Hs. rewrite <- Ho in Hs. congruence.
      * exists e. split; [reflexivity|exact Hv].
Qed.

Lemma dict_get_entries (data : bytes) (ss : list Sensor) (s : Sensor) :
  NoDup (map id_ ss) -> In s ss ->
  dict_get (map (entry data) ss) (id_ s) = Some (snd (entry data s)).
Proof.
  induction ss as [|t rest IH]; intros Hnd Hin; [contradiction|].
  cbn. inversion Hnd as [|? ? Hout Hrest]; subst.
  destruct Hin as [->|Hin].
  - rewrite String.eqb_refl. reflexivity.
  - destruct (String.eqb_spec (id_ t) (id_ s)) as [E|_].
    + exfalso. apply Hout. rewrite E. apply in_map, Hin.
    + apply IH; assumption.
Qed.

Lemma dict_get_absent (d : dict) (k : string) :
  ~ In k (keys d) -> dict_get d k = None.
Proof.
  induction d as [|[k' v'] d IH]; intros Hk; cbn; [reflexivity|].
  destruct (String.eqb_spec k' k) as [->|Hne].
  - exfalso. apply Hk. left. reflexivity.
  - apply IH. intros Hin. apply Hk. right. exact Hin.
Qed.

Lemma loop_ok_contained (incl_xx : bool) (table : list Sensor)
    (buffer : BytesIO) (result r : dict) :
  map_response_loop buffer result table incl_xx = Ok r ->
  Forall (fun s => contained (getvalue buffer) s = true) (read_sensors incl_xx table).
Proof.
  intros Hr. apply Forall_forall. intros s Hs.
  destruct (contained (getvalue buffer) s) eqn:Hc; [reflexivity|exfalso].
  destruct (loop_raises_uncontained incl_xx table buffer result) as [e [He _]].
  - apply Exists_exists. exists s. split; assumption.
  - congruence.
Qed.

(** ** The spec's scenarios *)

Example scenario_full :
  _map_response [x01; x2c; x00; x64] scenario_table true
  = Ok [("vpv1", PyFloat (30 # 1)); ("ppv1", PyInt 100)].
Proof. reflexivity. Qed.

Example scenario_truncated :
  _map_response [x01; x2c] scenario_table true
  = Ok [("vpv1", PyFloat (30 # 1)); ("ppv1", PyNone)].
Proof. reflexivity. Qed.

Lemma read_exact_short (data : bytes) (pos : nat) (size : Z) :
  0 < size ->
  Z.of_nat (List.length data) < Z.of_nat pos + size ->
  fst (read_exact {| getvalue := data; tell := pos |} size) = Raise ValueError.
Proof.
  intros Hsize Hshort. unfold read_exact, bio_read. cbn [getvalue tell].
  destruct (Nat.ltb_spec
              (List.length (firstn (Z.to_nat size) (skipn pos data)))
              (Z.to_nat size)) as [_|Hge]; [reflexivity|exfalso].
  rewrite length_firstn, length_skipn in Hge. lia.
Qed.

Lemma Integer_checks_bounds i off n size u k :
  0 <= off -> 0 < size -> checks_bounds (Integer i off n size u k).
Proof.
  intros Hoff Hsize data Hshort. exists ValueError. split; [|reflexivity].
  cbn [offset Integer size_] in Hshort.
  unfold decode, read, seek, Integer. cbn [offset read_value getvalue BytesIO_new].
  destruct (Z.ltb_spec off 0) as [?|_]; [lia|].
  pose proof (read_exact_short data (Z.to_nat off) size Hsize) as H.
  destruct (read_exact _ size) as [[chunk|e] p]; cbn in *.
  - discriminate H. lia.
  - f_equal. assert (Raise (A:=bytes) e = Raise ValueError) by (apply H; lia). congruence.
Qed.

(** ** Claims on _map_response *)

(** C2. Every sensor the loop reaches is read, in table order, and gets its
    own entry: the value it decoded, or [None] when its decode failed with a
    [ValueError].  For a table with unique ids whose decodes fail in no other
    way, the mapping is exactly the list of those entries; so a sensor that
    checks its bounds is [None] on a buffer too short for it, and every
    sensor that decoded keeps its value. *)
Theorem map_response_isolates_decode_failures
    (resp_data : bytes) (table : list Sensor) (incl_xx : bool) :
  NoDup (map id_ (read_sensors incl_xx table)) ->
  Forall (fun s => contained resp_data s = true) (read_sensors incl_xx table) ->
  let result := map (entry resp_data) (read_sensors incl_xx table) in
  _map_response resp_data table incl_xx = Ok result
  /\ (forall s, In s (read_sensors incl_xx table) ->
        checks_bounds s ->
        Z.of_nat (List.length resp_data) < offset s + size_ s ->
        dict_get result (id_ s) = Some PyNone)
  /\ (forall t v, In t (read_sensors incl_xx table) ->
        decode t resp_data = Ok v ->
        dict_get result (id_ t) = Some v).
Proof.
  intros Hnd Hall result. split; [|split].
  - unfold _map_response. rewrite loop_contained by exact Hall.
    cbn [getvalue BytesIO_new]. rewrite assign_all_fresh by exact Hnd. reflexivity.
  - intros s Hs Hb Hshort. unfold result. rewrite dict_get_entries by assumption.
    destruct (Hb resp_data Hshort) as [e [He _]].
    unfold entry. cbn [snd]. rewrite He. reflexivity.
  - intros t v Ht Hv. unfold result. rewrite dict_get_entries by assumption.
    unfold entry. cbn [snd]. rewrite Hv. reflexivity.
Qed.

Lemma map_response_isolates_decode_failures_witness :
  _map_response [x01; x2c] scenario_table true
  = Ok [("vpv1", PyFloat (30 # 1)); ("ppv1", PyNone)].
Proof.
  apply (map_response_isolates_decode_failures [x01; x2c] scenario_table true).
  - repeat constructor; cbn; intuition discriminate.
  - repeat constructor.
Defined.

(** C3. In a mapping that [_map_response] returns, no sensor whose id
    starts with "xx" has an entry when [incl_xx] is false; every sensor of
    the table has exactly one entry when [incl_xx] is true; and in both
    cases the keys are the ids of the sensors read, each exactly once (in
    table order when the ids are unique). *)
Theorem map_response_one_entry_per_sensor
    (resp_data : bytes) (table : list Sensor) (incl_xx : bool) (r : dict) :
  _map_response resp_data table incl_xx = Ok r ->
  (incl_xx = false ->
     forall s, In s table -> String.prefix "xx" (id_ s) = true ->
               ~ In (id_ s) (keys r) /\ dict_get r (id_ s) = None)
  /\ (incl_xx = true ->
        forall s, In s table -> count_occ string_dec (keys r) (id_ s) = 1%nat)
  /\ (forall s, In s (read_sensors incl_xx table) ->
        count_occ string_dec (keys r) (id_ s) = 1%nat)
  /\ (forall k, In k (keys r) -> In k (map id_ (read_sensors incl_xx table)))
  /\ (NoDup (map id_ (read_sensors incl_xx table)) ->
        keys r = map id_ (read_sensors incl_xx table)).
Proof.
  intros Hr. unfold _map_response in Hr.
  pose proof (loop_keys _ _ _ _ _ Hr (NoDup_nil _)) as [Hnd Hkeys].
  assert (Hin : forall k, In k (keys r) <-> In k (map id_ (read_sensors incl_xx table))).
  { intros k. rewrite Hkeys. cbn. tauto. }
  assert (Hone : forall s, In s (read_sensors incl_xx table) ->
                           count_occ string_dec (keys r) (id_ s) = 1%nat).
  { intros s Hs. apply NoDup_count_occ'; [exact Hnd|]. apply Hin, in_map, Hs. }
  split; [|split; [|split; [|split]]].
  - intros -> s Hs Hxx.
    assert (Hout : ~ In (id_ s) (keys r)).
    { intros Hk. apply Hin in Hk. apply in_map_iff in Hk. destruct Hk as [t [Hid Ht]].
      apply filter_In in Ht. destruct Ht as [_ Hp]. unfold processed in Hp.
      rewrite Hid, Hxx in Hp. discriminate. }
    split; [exact Hout|apply dict_get_absent, Hout].
  - intros -> s Hs. apply Hone. apply filter_In. split; [exact Hs|reflexivity].
  - exact Hone.
  - intros k. apply Hin.
  - intros Hids. apply loop_ok_contained in Hr as Hall. cbn [getvalue BytesIO_new] in Hall.
    rewrite loop_contained in Hr by exact Hall. inversion Hr as [Heq].
    cbn [getvalue BytesIO_new]. rewrite assign_all_fresh by exact Hids.
    unfold keys. cbn. rewrite map_map. apply map_ext. reflexivity.
Qed.

Lemma map_response_one_entry_per_sensor_witness :
  keys [("vpv1", PyFloat (30 # 1)); ("ppv1", PyInt 100)]
  = map id_ (read_sensors false table_with_unknown).
Proof.
  apply (map_response_one_entry_per_sensor
           [x01; x2c; x00; x07; x00; x64] table_with_unknown false
           [("vpv1", PyFloat (30 # 1)); ("ppv1", PyInt 100)]).
  - reflexivity.
  - repeat constructor; cbn; intuition discriminate.
Defined.

(** C9. Only a [ValueError] is contained.  When the read of a sensor the
    loop reaches raises anything else, [_map_response] returns no mapping: it
    raises an exception that is not a [ValueError], and that is the sensor's
    own exception when every sensor read before it decoded or failed with a
    [ValueError] -- whatever those earlier sensors had put in the mapping. *)
Theorem map_response_propagates_other_errors
    (resp_data : bytes) (table : list Sensor) (incl_xx : bool) (s : Sensor) (e : exn) :
  In s table ->
  processed incl_xx s = true ->
  decode s resp_data = Raise e ->
  is_ValueError e = false ->
  (exists e', _map_response resp_data table incl_xx = Raise e'
              /\ is_ValueError e' = false)
  /\ (forall pre post,
        table = pre ++ s :: post ->
        Forall (fun t => contained resp_data t = true) (read_sensors incl_xx pre) ->
        _map_response resp_data table incl_xx = Raise e).
Proof.
  intros Hin Hp He Hv. split.
  - apply loop_raises_uncontained. cbn [getvalue BytesIO_new].
    apply Exists_exists. exists s. split.
    + apply filter_In. split; assumption.
    + unfold contained. rewrite He. exact Hv.
  - intros pre post -> Hpre. apply loop_propagates; assumption.
Qed.

Lemma map_response_propagates_other_errors_witness :
  _map_response [x01; x2c; x00; x64] table_with_base_sensor true
  = Raise NotImplementedError.
Proof.
  apply (map_response_propagates_other_errors
           [x01; x2c; x00; x64] table_with_base_sensor true
           (base_Sensor "ppv1" 2 "PV1 Power" 2 "W" (Some PV)) NotImplementedError)
    with (pre := [Decimal "vpv1" 0 "PV1 Voltage" 2 10 "V" (Some PV)]) (post := []).
  - right. left. reflexivity.
  - reflexivity.
  - reflexivity.
  - reflexivity.
  - reflexivity.
  - repeat constructor.
Defined.

(** ** The Lock store *)

Lemma locked_set_locked (lks : lock_store) (l : lock_ref) (b : bool) :
  locked (set_locked lks l b) l = if (l <? List.length lks)%nat then b else false.
Proof.
  unfold locked. revert l. induction lks as [|x rest IH]; intros [|l]; cbn; try reflexivity.
  apply IH.
Qed.

Lemma locked_set_locked_other (lks : lock_store) (l l' : lock_ref) (b : bool) :
  l' <> l -> locked (set_locked lks l b) l' = locked lks l'.
Proof.
  unfold locked. revert l l'.
  induction lks as [|x rest IH]; intros [|l] [|l'] Hne; cbn; try reflexivity.
  - congruence.
  - apply IH. congruence.
Qed.

Lemma length_set_locked (lks : lock_store) (l : lock_ref) (b : bool) :
  List.length (set_locked lks l b) = List.length lks.
Proof.
  revert l. induction lks as [|x rest IH]; intros [|l]; cbn; try reflexivity.
  f_equal. apply IH.
Qed.

Lemma locked_release (lks : lock_store) (l : lock_ref) :
  locked (set_locked lks l false) l = false.
Proof. rewrite locked_set_locked. destruct (l <? List.length lks)%nat; reflexivity. Qed.

Lemma locked_new (lks : lock_store) :
  locked (lks ++ [false]) (List.length lks) = false.
Proof. unfold locked. rewrite app_nth2, Nat.sub_diag by lia. reflexivity. Qed.

Lemma locked_old (lks : lock_store) (l : lock_ref) :
  locked (lks ++ [false]) l = locked lks l.
Proof.
  unfold locked. destruct (Nat.lt_ge_cases l (List.length lks)) as [Hlt|Hge].
  - apply app_nth1, Hlt.
  - rewrite (nth_overflow lks) by exact Hge.
    rewrite app_nth2 by exact Hge.
    destruct (l - List.length lks)%nat as [|[|k]]; reflexivity.
Qed.

(** ** _ensure_lock *)

Lemma ensure_lock_current (self : Inverter) (lks : lock_store) (current : loop) (l : lock_ref) :
  lock_is_current self current = Some l ->
  _ensure_lock self lks current = (l, self, lks).
Proof. unfold _ensure_lock. intros ->. reflexivity. Qed.

Lemma ensure_lock_stale (self : Inverter) (lks : lock_store) (current : loop) :
  lock_is_current self current = None ->
  _ensure_lock self lks current
  = (List.length lks, with_lock self (List.length lks) current, lks ++ [false]).
Proof. unfold _ensure_lock. intros ->. reflexivity. Qed.

Lemma lock_is_current_spec (self : Inverter) (current : loop) (l : lock_ref) :
  lock_is_current self current = Some l <->
  _lock self = Some l /\ _running_loop self = Some current.
Proof.
  unfold lock_is_current.
  destruct (_lock self) as [l0|], (_running_loop self) as [lp|]; try (split; [discriminate|intros [? ?]; discriminate]).
  destruct (Nat.eqb_spec lp current) as [->|Hne].
  - split; [intros [= ->]; auto|intros [[= ->] _]; reflexivity].
  - split; [discriminate|intros [_ [= E]]; contradiction].
Qed.

Lemma ensure_lock_result (self : Inverter) (lks : lock_store) (current : loop) :
  forall l self' lks',
    _ensure_lock self lks current = (l, self', lks') ->
    lock_is_current self' current = Some l
    /\ host self' = host self /\ timeout self' = timeout self
    /\ retries self' = retries self
    /\ _consecutive_failures_count self' = _consecutive_failures_count self
    /\ identity self' = identity self.
Proof.
  intros l self' lks' H.
  destruct (lock_is_current self current) as [l0|] eqn:E.
  - rewrite (ensure_lock_current _ _ _ _ E) in H. inversion H; subst. auto 10.
  - rewrite (ensure_lock_stale _ _ _ E) in H. inversion H; subst.
    split; [|auto 10]. unfold lock_is_current. cbn. rewrite Nat.eqb_refl. reflexivity.
Qed.

Lemma ensure_lock_free (self : Inverter) (lks : lock_store) (current : loop) :
  guard_free self lks ->
  forall l self' lks',
    _ensure_lock self lks current = (l, self', lks') -> locked lks' l = false.
Proof.
  intros Hfree l self' lks' H.
  destruct (lock_is_current self current) as [l0|] eqn:E.
  - rewrite (ensure_lock_current _ _ _ _ E) in H. inversion H; subst.
    apply lock_is_current_spec in E. destruct E as [E _].
    unfold guard_free in Hfree. rewrite E in Hfree. exact Hfree.
  - rewrite (ensure_lock_stale _ _ _ E) in H. inversion H; subst. apply locked_new.
Qed.

(** ** The try statement *)

Lemma try_execute_keeps (self : Inverter) (c : Command) :
  let self' := snd (try_execute self c) in
  host self' = host self /\ timeout self' = timeout self
  /\ retries self' = retries self
  /\ _lock self' = _lock self /\ _running_loop self' = _running_loop self
  /\ identity self' = identity self.
Proof.
  unfold try_execute.
  destruct (execute c _ _ _) as [b|[]]; cbn; auto 10.
Qed.

Lemma try_execute_congr (self self1 : Inverter) (c : Command) :
  host self1 = host self -> timeout self1 = timeout self ->
  retries self1 = retries self ->
  _consecutive_failures_count self1 = _consecutive_failures_count self ->
  fst (try_execute self1 c) = fst (try_execute self c)
  /\ _consecutive_failures_count (snd (try_execute self1 c))
     = _consecutive_failures_count (snd (try_execute self c)).
Proof.
  intros Hh Ht Hr Hc. unfold try_execute. rewrite Hh, Ht, Hr.
  destruct (execute c _ _ _) as [b|[]]; cbn; rewrite ?Hc, ?Hr; auto.
Qed.

(** What the handlers do to the outcome and the counter, by the kind of
    outcome of [command.execute]. *)
Lemma try_execute_cases (self : Inverter) (c : Command) :
  let r := execute c (host self) (timeout self) (retries self) in
  let r' := fst (try_execute self c) in
  let n' := _consecutive_failures_count (snd (try_execute self c)) in
  match r with
  | Ok b => r' = Ok b /\ n' = 0
  | Raise (MaxRetriesException _) =>
      n' = _consecutive_failures_count self + 1
      /\ r' = Raise (RequestFailedException
                       ("No valid response received even after "
                          ++ str (retries self) ++ " retries") n')
  | Raise (RequestFailedException message _) =>
      n' = _consecutive_failures_count self + 1
      /\ r' = Raise (RequestFailedException message n')
  | Raise e => r' = Raise e /\ snd (try_execute self c) = self
  end.
Proof.
  unfold try_execute.
  destruct (execute c _ _ _) as [b|[]]; cbn; auto.
Qed.

(** ** _read_from_socket *)

(** With its Lock free the call goes through: it is the [try] statement on
    the instance [_ensure_lock] left, and the Lock is free again after it. *)
Lemma read_from_socket_runs (self : Inverter) (c : Command)
    (lks : lock_store) (current : loop) :
  guard_free self lks ->
  exists self' lks',
    _read_from_socket self c lks current = Some (fst (try_execute self c), self', lks')
    /\ _consecutive_failures_count self'
       = _consecutive_failures_count (snd (try_execute self c))
    /\ host self' = host self /\ timeout self' = timeout self
    /\ retries self' = retries self
    /\ identity self' = identity self
    /\ guard_free self' lks'.
Proof.
  intros Hfree.
  destruct (_ensure_lock self lks current) as [[l self1] lks1] eqn:E.
  pose proof (ensure_lock_free _ _ _ Hfree _ _ _ E) as Hl.
  pose proof (ensure_lock_result _ _ _ _ _ _ E) as (Hcur & Hh & Ht & Hr & Hc & Hi).
  pose proof (try_execute_congr self self1 c Hh Ht Hr Hc) as [Hres Hcnt].
  pose proof (try_execute_keeps self1 c) as (Kh & Kt & Kr & Kl & Klp & Ki).
  unfold _read_from_socket. rewrite E, Hl.
  destruct (try_execute self1 c) as [r self2]. cbn [fst snd] in *.
  exists self2, (set_locked (set_locked lks1 l true) l false).
  rewrite Hres. repeat split; try congruence.
  unfold guard_free. rewrite Kl.
  apply lock_is_current_spec in Hcur. destruct Hcur as [-> _].
  apply locked_release.
Qed.

(** ** ProtocolCommand.execute *)

Lemma attempt_loop_exhausted (validate : bytes -> bool) (replies : nat -> reply) :
  forall remaining attempt,
    (forall n, (attempt <= n <= attempt + remaining)%nat ->
               fails_validation validate (replies n)) ->
    attempt_loop validate replies attempt remaining
    = Raise (MaxRetriesException (S (attempt + remaining))).
Proof.
  induction remaining as [|k IH]; intros attempt Hall; cbn.
  - pose proof (Hall attempt ltac:(lia)) as H.
    rewrite Nat.add_0_r.
    destruct (replies attempt) as [|data|m]; cbn in H; [reflexivity| |contradiction].
    rewrite H. reflexivity.
  - pose proof (Hall attempt ltac:(lia)) as H.
    assert (Hnext : attempt_loop validate replies (S attempt) k
                    = Raise (MaxRetriesException (S (attempt + S k)))).
    { rewrite IH by (intros n Hn; apply Hall; lia). do 2 f_equal. lia. }
    destruct (replies attempt) as [|data|m]; cbn in H; [exact Hnext| |contradiction].
    rewrite H. exact Hnext.
Qed.

Lemma attempt_loop_accepts (replies : nat -> reply) (data : bytes) :
  forall wait attempt remaining,
    (wait <= remaining)%nat ->
    (forall n, (attempt <= n < attempt + wait)%nat ->
               forall d, replies n <> Response d) ->
    replies (attempt + wait)%nat = Response data ->
    attempt_loop default_validator replies attempt remaining = Ok data.
Proof.
  induction wait as [|w IH]; intros attempt remaining Hle Hnone Hresp.
  - rewrite Nat.add_0_r in Hresp.
    destruct remaining; cbn; rewrite Hresp; reflexivity.
  - destruct remaining as [|k]; [lia|].
    assert (Hnext : attempt_loop default_validator replies (S attempt) k = Ok data).
    { apply IH; [lia| |].
      - intros n Hn. apply Hnone. lia.
      - rewrite <- Hresp. f_equal. lia. }
    pose proof (Hnone attempt ltac:(lia)) as H0.
    cbn. destruct (replies attempt) as [|d|m]; [exact Hnext| |exact Hnext].
    exfalso. exact (H0 d eq_refl).
Qed.

Lemma protocol_command_follows_protocol (net : network) (c : ProtocolCommand)
    (self : Inverter) :
  follows_protocol self (as_command net c).
Proof.
  unfold follows_protocol, as_command, ProtocolCommand_execute. cbn [execute].
  generalize 0%nat as attempt. generalize (net (host self) (request c)) as replies.
  induction (Z.to_nat (retries self)) as [|k IH]; intros replies attempt; cbn.
  - destruct (replies attempt) as [|d|m]; cbn; auto.
    destruct (validator c d); cbn; auto.
  - destruct (replies attempt) as [|d|m]; cbn; auto.
    destruct (validator c d); cbn; auto.
Qed.

(** ** Claims on _read_from_socket *)

(** C1 (amended). A command that fails validation on every one of its
    [retries+1] attempts ends in a max-retries error counting [retries+1]
    attempts.  [_read_from_socket] does not pass that error on: it raises a
    request-failed error instead, whose message names [retries] and whose
    count is the consecutive-failure counter after its increment by exactly
    one. *)
Theorem exhausted_retries_become_request_failed
    (net : network) (self : Inverter) (command : ProtocolCommand)
    (lks : lock_store) (current : loop) :
  guard_free self lks ->
  0 <= retries self ->
  (forall n, (n <= Z.to_nat (retries self))%nat ->
             fails_validation (validator command) (net (host self) (request command) n)) ->
  (exists attempts,
      ProtocolCommand_execute net command (host self) (timeout self) (retries self)
      = Raise (MaxRetriesException attempts)
      /\ Z.of_nat attempts = retries self + 1)
  /\ exists self' lks',
      _read_from_socket self (as_command net command) lks current
      = Some (Raise (RequestFailedException
                       ("No valid response received even after "
                          ++ str (retries self) ++ " retries")
                       (_consecutive_failures_count self + 1)),
              self', lks')
      /\ _consecutive_failures_count self' = _consecutive_failures_count self + 1
      /\ guard_free self' lks'.
Proof.
  intros Hfree Hretries Hall.
  assert (Hexec : ProtocolCommand_execute net command (host self) (timeout self) (retries self)
                  = Raise (MaxRetriesException (S (Z.to_nat (retries self))))).
  { unfold ProtocolCommand_execute.
    rewrite attempt_loop_exhausted; [reflexivity|].
    intros n Hn. apply Hall. lia. }
  split.
  - eexists. split; [exact Hexec|]. lia.
  - destruct (read_from_socket_runs self (as_command net command) lks current Hfree)
      as (self' & lks' & Hrun & Hcnt & _ & _ & _ & _ & Hfree').
    pose proof (try_execute_cases self (as_command net command)) as Hcases.
    cbn [execute as_command] in Hcases. cbv zeta in Hcases. rewrite Hexec in Hcases.
    destruct Hcases as [Hn Hr].
    exists self', lks'. rewrite Hrun, Hr, Hcnt, Hn. auto.
Qed.

Lemma exhausted_retries_become_request_failed_witness :
  exists self' lks',
    _read_from_socket (Inverter_default "192.168.1.14") (as_command silent probe) [] 0%nat
    = Some (Raise (RequestFailedException
                     "No valid response received even after 3 retries" 1),
            self', lks')
    /\ _consecutive_failures_count self' = 1
    /\ guard_free self' lks'.
Proof.
  apply (exhausted_retries_become_request_failed
           silent (Inverter_default "192.168.1.14") probe [] 0%nat).
  - exact I.
  - cbn. lia.
  - intros n _. exact I.
Defined.

(** C1 as stated fails: the command of a device that never answers ends in
    a max-retries error after 4 attempts, and the call through
    [_read_from_socket] raises no max-retries error, whatever its count. *)
Lemma max_retries_error_does_not_reach_caller :
  ProtocolCommand_execute silent probe "192.168.1.14" 1 3
  = Raise (MaxRetriesException 4)
  /\ forall attempts self' lks',
      _read_from_socket (Inverter_default "192.168.1.14") (as_command silent probe)
        [] 0%nat
      <> Some (Raise (MaxRetriesException attempts), self', lks').
Proof.
  split; [reflexivity|].
  intros attempts self' lks' H. vm_compute in H. discriminate H.
Qed.

Lemma follows_protocol_congr (self self' : Inverter) (c : Command) :
  host self' = host self -> timeout self' = timeout self ->
  retries self' = retries self ->
  follows_protocol self c -> follows_protocol self' c.
Proof. unfold follows_protocol. intros -> -> ->. auto. Qed.

Lemma run_bookkeeping (calls : list (loop * Command)) :
  forall (self : Inverter) (lks : lock_store),
    guard_free self lks ->
    Forall (fun call => follows_protocol self (snd call)) calls ->
    exists rs self' lks',
      run self lks calls = Some (rs, self', lks')
      /\ List.length rs = List.length calls
      /\ bookkeeping (_consecutive_failures_count self) rs
      /\ _consecutive_failures_count self'
         = streak (_consecutive_failures_count self) rs
      /\ guard_free self' lks'.
Proof.
  induction calls as [|[current c] rest IH]; intros self lks Hfree Hall.
  - exists [], self, lks. cbn. auto.
  - inversion Hall as [|? ? Hc Hrest]; subst. cbn [snd] in Hc.
    destruct (read_from_socket_runs self c lks current Hfree)
      as (self1 & lks1 & Hrun & Hcnt & Hh & Ht & Hr & _ & Hfree1).
    destruct (IH self1 lks1 Hfree1) as (rs & self2 & lks2 & Hrun2 & Hlen & Hbk & Hst & Hfree2).
    { eapply Forall_impl; [|exact Hrest].
      intros call. apply follows_protocol_congr; assumption. }
    cbn [run]. rewrite Hrun, Hrun2.
    eexists _, self2, lks2. split; [reflexivity|].
    pose proof (try_execute_cases self c) as Hcases. cbv zeta in Hcases.
    unfold follows_protocol in Hc.
    rewrite <- Hcnt in Hcases.
    destruct (execute c (host self) (timeout self) (retries self)) as [b|e].
    + destruct Hcases as [-> Hn]. cbn. rewrite Hn in *. auto 10.
    + destruct e; cbn in Hc; try contradiction;
        destruct Hcases as [Hn ->]; cbn; rewrite <- Hn; eauto 10.
Qed.

(** C4. Over any run of commands that end as a ProtocolCommand does
    (accepted response, max-retries, request-failed), every call completes;
    each failure leaves the counter one higher and raises a request-failed
    error carrying the counter as just incremented; each success leaves it at
    exactly 0, however long the streak before it; so the counter after the
    run is the length of the failing streak that ends it. *)
Theorem failure_counter_bookkeeping
    (self : Inverter) (lks : lock_store) (calls : list (loop * Command)) :
  guard_free self lks ->
  Forall (fun call => follows_protocol self (snd call)) calls ->
  exists rs self' lks',
    run self lks calls = Some (rs, self', lks')
    /\ List.length rs = List.length calls
    /\ bookkeeping (_consecutive_failures_count self) rs
    /\ _consecutive_failures_count self'
       = streak (_consecutive_failures_count self) rs.
Proof.
  intros Hfree Hall.
  destruct (run_bookkeeping calls self lks Hfree Hall)
    as (rs & self' & lks' & H1 & H2 & H3 & H4 & _).
  exists rs, self', lks'. auto.
Qed.

Lemma failure_counter_bookkeeping_witness :
  exists rs self' lks',
    run (Inverter_default "192.168.1.14") [] three_calls
    = Some (rs, self', lks')
    /\ List.length rs = 3%nat
    /\ bookkeeping 0 rs
    /\ _consecutive_failures_count self' = streak 0 rs.
Proof.
  apply (failure_counter_bookkeeping (Inverter_default "192.168.1.14") []
           three_calls).
  - exact I.
  - repeat (constructor; try exact I).
Defined.

Example run_of_three :
  option_map (fun x => fst (fst x))
    (run (Inverter_default "192.168.1.14") [] three_calls)
  = Some [ (Raise (RequestFailedException
                     "No valid response received even after 3 retries" 1), 1);
           (Raise (RequestFailedException "truncated response" 2), 2);
           (Ok [xaa; x55], 0) ].
Proof. reflexivity. Qed.

(** An exception of another kind passes through the handlers and leaves
    the counter where it was. *)
Lemma other_errors_are_not_counted (self : Inverter) (c : Command) (e : exn) :
  execute c (host self) (timeout self) (retries self) = Raise e ->
  ~ protocol_outcome (Raise e) ->
  try_execute self c = (Raise e, self).
Proof.
  intros He Hn. unfold try_execute. rewrite He.
  destruct e; cbn in Hn; try reflexivity; exfalso; apply Hn; exact I.
Qed.

(** ** Claims on _ensure_lock *)

(** C5. [_ensure_lock] hands back the Lock the instance has exactly when
    the loop recorded with it is the loop now running; with no Lock yet, or
    with another loop recorded, it creates a new Lock object, unlocked and
    distinct from every earlier one, and records it with the running loop.
    Nothing but the two recorded attributes and the running loop enters the
    decision, and nothing but those two attributes is written. *)
Theorem ensure_lock_compares_loops
    (self : Inverter) (lks : lock_store) (current : loop) :
  let '(l, self', lks') := _ensure_lock self lks current in
  (_lock self' = Some l /\ _running_loop self' = Some current)
  /\ (forall l0, _lock self = Some l0 -> _running_loop self = Some current ->
        l = l0 /\ self' = self /\ lks' = lks)
  /\ (_lock self = None \/ _running_loop self <> Some current ->
        l = List.length lks /\ lks' = lks ++ [false]
        /\ locked lks' l = false
        /\ (forall l0, locked lks' l0 = locked lks l0)
        /\ self' = with_lock self l current)
  /\ (forall other : Inverter,
        _lock other = _lock self -> _running_loop other = _running_loop self ->
        fst (fst (_ensure_lock other lks current)) = l
        /\ snd (_ensure_lock other lks current) = lks')
  /\ (host self' = host self /\ timeout self' = timeout self
      /\ retries self' = retries self
      /\ _consecutive_failures_count self' = _consecutive_failures_count self
      /\ identity self' = identity self).
Proof.
  destruct (_ensure_lock self lks current) as [[l self'] lks'] eqn:E.
  pose proof (ensure_lock_result _ _ _ _ _ _ E) as (Hcur & Hrest).
  apply lock_is_current_spec in Hcur.
  split; [exact Hcur|]. split; [|split; [|split; [|exact Hrest]]].
  - intros l0 Hl Hlp.
    assert (C : lock_is_current self current = Some l0)
      by (apply lock_is_current_spec; auto).
    rewrite (ensure_lock_current _ _ _ _ C) in E. inversion E; subst. auto.
  - intros Hstale.
    assert (C : lock_is_current self current = None).
    { destruct (lock_is_current self current) as [l0|] eqn:C; [|reflexivity].
      apply lock_is_current_spec in C. destruct C as [C1 C2].
      destruct Hstale as [H|H]; congruence. }
    rewrite (ensure_lock_stale _ _ _ C) in E. inversion E; subst.
    repeat split. + apply locked_new. + intros l0. apply locked_old.
  - intros other Hl Hlp.
    assert (C : lock_is_current other current = lock_is_current self current).
    { unfold lock_is_current. rewrite Hl, Hlp. reflexivity. }
    unfold _ensure_lock in *. rewrite C.
    destruct (lock_is_current self current); inversion E; subst; auto.
Qed.

Example ensure_lock_first_call :
  _ensure_lock (Inverter_default "192.168.1.14") [] 7%nat
  = (0%nat, with_lock (Inverter_default "192.168.1.14") 0%nat 7%nat, [false]).
Proof. reflexivity. Qed.

Example ensure_lock_same_loop :
  _ensure_lock (with_lock (Inverter_default "192.168.1.14") 0%nat 7%nat) [true] 7%nat
  = (0%nat, with_lock (Inverter_default "192.168.1.14") 0%nat 7%nat, [true]).
Proof. reflexivity. Qed.

Example ensure_lock_other_loop :
  _ensure_lock (with_lock (Inverter_default "192.168.1.14") 0%nat 7%nat) [true] 8%nat
  = (1%nat, with_lock (Inverter_default "192.168.1.14") 1%nat 8%nat, [true; false]).
Proof. reflexivity. Qed.

(** ** Claims on the identity attributes *)

(** C7 as stated fails: the constructor sets [arm_sw_version] to 0, not to
    [None]. *)
Lemma arm_sw_version_is_set_by_constructor :
  arm_sw_version (__init__ "192.168.1.14" 0 1 3) = Some 0
  /\ arm_sw_version (__init__ "192.168.1.14" 0 1 3) <> None.
Proof. split; [reflexivity|discriminate]. Qed.

(** C7 (amended). A new instance has every identity attribute unset,
    except [arm_sw_version], which is 0; and no operation of the base class
    changes an identity attribute: not [_ensure_lock], not
    [_read_from_socket] or [send_command] whatever the command does, and not
    the abstract operations. *)
Theorem identity_unset_until_device_info
    (host_ : string) (comm_addr_ timeout_ retries_ : Z) :
  identity (__init__ host_ comm_addr_ timeout_ retries_)
  = (None, None, None, None, None, None, None, None, None, Some 0, None, None)
  /\ (forall self lks current,
        identity (snd (fst (_ensure_lock self lks current))) = identity self)
  /\ (forall self c lks current r self' lks',
        _read_from_socket self c lks current = Some (r, self', lks') ->
        identity self' = identity self)
  /\ (forall net self command v lks current r self' lks',
        send_command net self command v lks current = Some (r, self', lks') ->
        identity self' = identity self)
  /\ (forall self call, snd (invoke self call) = self).
Proof.
  assert (Hread : forall self c lks current r self' lks',
             _read_from_socket self c lks current = Some (r, self', lks') ->
             identity self' = identity self).
  { intros self c lks current r self' lks' H. unfold _read_from_socket in H.
    destruct (_ensure_lock self lks current) as [[l self1] lks1] eqn:E.
    pose proof (ensure_lock_result _ _ _ _ _ _ E) as (_ & _ & _ & _ & _ & Hi).
    destruct (locked lks1 l); [discriminate|].
    pose proof (try_execute_keeps self1 c) as (_ & _ & _ & _ & _ & Ki).
    destruct (try_execute self1 c) as [r2 self2]. cbn [snd] in Ki.
    inversion H; subst. congruence. }
  split; [reflexivity|]. split; [|split; [exact Hread|split]].
  - intros self lks current.
    destruct (_ensure_lock self lks current) as [[l self'] lks'] eqn:E.
    apply (ensure_lock_result _ _ _ _ _ _ E).
  - intros net self command v lks current r self' lks' H. eapply Hread, H.
  - intros self []; reflexivity.
Qed.

(** ** Claims on the abstract operations *)

(** C8. Each abstract operation of the base class raises
    [NotImplementedError] and leaves the instance as it was.  The handlers of
    the core do not intercept that error: raised by a command it passes
    through the [try] of [_read_from_socket] unchanged, after the single call
    of [execute] and without touching the failure counter, and raised by a
    sensor it passes through [_map_response]. *)
Theorem abstract_operations_raise_not_implemented (self : Inverter) :
  (forall call, invoke self call = (Some NotImplementedError, self))
  /\ (forall c : Command,
        execute c (host self) (timeout self) (retries self) = Raise NotImplementedError ->
        try_execute self c = (Raise NotImplementedError, self)
        /\ forall lks current,
            guard_free self lks ->
            exists self' lks',
              _read_from_socket self c lks current
              = Some (Raise NotImplementedError, self', lks')
              /\ _consecutive_failures_count self' = _consecutive_failures_count self)
  /\ is_ValueError NotImplementedError = false
  /\ (forall resp_data pre s post incl_xx,
        Forall (fun t => contained resp_data t = true) (read_sensors incl_xx pre) ->
        processed incl_xx s = true ->
        decode s resp_data = Raise NotImplementedError ->
        _map_response resp_data (pre ++ s :: post) incl_xx = Raise NotImplementedError).
Proof.
  split; [intros []; reflexivity|]. split; [|split; [reflexivity|]].
  - intros c Hc.
    assert (Ht : try_execute self c = (Raise NotImplementedError, self)).
    { unfold try_execute. rewrite Hc. reflexivity. }
    split; [exact Ht|]. intros lks current Hfree.
    destruct (read_from_socket_runs self c lks current Hfree)
      as (self' & lks' & Hrun & Hcnt & _).
    rewrite Ht in Hrun, Hcnt. cbn [fst snd] in Hrun, Hcnt.
    exists self', lks'. auto.
  - intros resp_data pre s post incl_xx Hpre Hp Hs.
    apply loop_propagates; auto.
Qed.

Example base_sensor_read_raises :
  decode (base_Sensor "ppv1" 2 "PV1 Power" 2 "W" (Some PV)) [x01; x2c; x00; x64]
  = Raise NotImplementedError.
Proof. reflexivity. Qed.

(** ** Claims on send_command *)

(** C10. The validator of a [send_command] call that names none accepts
    every byte sequence; so the command returns the first response that
    arrives within its attempts, whatever its bytes. *)
Theorem default_validator_accepts_everything (command : bytes) :
  (forall x : bytes, validator (send_command_request command None) x = true)
  /\ (forall (net : network) (host_ : string) (timeout_ retries_ : Z)
             (wait : nat) (data : bytes),
        (wait <= Z.to_nat retries_)%nat ->
        (forall n, (n < wait)%nat -> forall d, net host_ command n <> Response d) ->
        net host_ command wait = Response data ->
        execute (as_command net (send_command_request command None))
          host_ timeout_ retries_ = Ok data).
Proof.
  split; [reflexivity|].
  intros net host_ timeout_ retries_ wait data Hle Hnone Hresp.
  cbn [execute as_command]. unfold ProtocolCommand_execute.
  cbn [validator request send_command_request].
  apply attempt_loop_accepts with (wait := wait); auto.
  intros n Hn. apply Hnone. lia.
Qed.

Example send_command_default_accepts :
  option_map (fun x => fst (fst x))
    (send_command answers_third (Inverter_default "192.168.1.14") [x7f; x03] None [] 0%nat)
  = Some (Ok [xaa; x55]).
Proof. reflexivity. Qed.

Example send_command_explicit_validator_rejects :
  option_map (fun x => fst (fst x))
    (send_command answers_third (Inverter_default "192.168.1.14") [x7f; x03]
       (Some (fun data => (List.length data =? 4)%nat)) [] 0%nat)
  = Some (Raise (RequestFailedException
                   "No valid response received even after 3 retries" 1)).
Proof. reflexivity. Qed.

(** ** Concurrent calls *)

Lemma holders_split (l : lock_ref) (pre : list task) (t : task) (post : list task) :
  holders l (pre ++ t :: post)
  = (holders l pre + (if holds l t then 1 else 0) + holders l post)%nat.
Proof.
  unfold holders. rewrite filter_app, length_app. cbn [filter].
  destruct (holds l t); cbn [List.length]; lia.
Qed.

Lemma in_replaced (x t t' : task) (pre post : list task) :
  In x (pre ++ t' :: post) -> x = t' \/ In x (pre ++ t :: post).
Proof.
  rewrite !in_app_iff. cbn. intuition auto.
Qed.

Lemma holders_positive (l : lock_ref) (ts : list task) (t : task) :
  In t ts -> task_pc t = InFlight l -> (1 <= holders l ts)%nat.
Proof.
  intros Hin Hpc. apply in_split in Hin. destruct Hin as (pre & post & ->).
  rewrite holders_split. unfold holds. rewrite Hpc, Nat.eqb_refl. lia.
Qed.

Lemma holders_inhabited (l : lock_ref) (ts : list task) :
  (1 <= holders l ts)%nat -> exists t, In t ts /\ task_pc t = InFlight l.
Proof.
  unfold holders. intros H.
  destruct (filter (holds l) ts) as [|t rest] eqn:E; [cbn in H; lia|].
  assert (Hin : In t (filter (holds l) ts)) by (rewrite E; left; reflexivity).
  apply filter_In in Hin. destruct Hin as [Hin Hh]. exists t. split; [exact Hin|].
  unfold holds in Hh. destruct (task_pc t); try discriminate.
  apply Nat.eqb_eq in Hh. congruence.
Qed.

Lemma in_flight_under_one_lock (l0 : lock_ref) (ts : list task) :
  (forall t l, In t ts -> task_pc t = InFlight l -> l = l0) ->
  in_flight ts = holders l0 ts.
Proof.
  unfold in_flight, holders. induction ts as [|t rest IH]; intros H; [reflexivity|].
  cbn [filter]. unfold is_in_flight, holds.
  destruct (task_pc t) as [| |l|] eqn:E; try (apply IH; intros; eapply H; eauto; right; auto).
  rewrite (H t l (or_introl eq_refl) E), Nat.eqb_refl. cbn [List.length].
  f_equal. apply IH. intros; eapply H; eauto. right; auto.
Qed.

Lemma in_flight_none (ts : list task) :
  (forall t l, In t ts -> task_pc t <> InFlight l) -> in_flight ts = 0%nat.
Proof.
  unfold in_flight. induction ts as [|t rest IH]; intros H; [reflexivity|].
  cbn [filter]. unfold is_in_flight.
  destruct (task_pc t) as [| |l|] eqn:E; try (apply IH; intros; apply H; right; auto).
  exfalso. exact (H t l (or_introl eq_refl) E).
Qed.

Lemma ensure_lock_store (self : Inverter) (lks : lock_store) (current : loop) :
  lock_known self lks ->
  forall l self' lks',
    _ensure_lock self lks current = (l, self', lks') ->
    (l < List.length lks')%nat
    /\ (forall l', locked lks' l' = locked lks l')
    /\ (List.length lks <= List.length lks')%nat
    /\ _lock self' = Some l.
Proof.
  intros Hk l self' lks' H.
  destruct (lock_is_current self current) as [l0|] eqn:E.
  - rewrite (ensure_lock_current _ _ _ _ E) in H. inversion H; subst.
    apply lock_is_current_spec in E. destruct E as [E _].
    unfold lock_known in Hk. rewrite E in Hk. auto.
  - rewrite (ensure_lock_stale _ _ _ E) in H. inversion H; subst.
    rewrite length_app. cbn. repeat split; try lia. intros l'. apply locked_old.
Qed.

Lemma locked_in_store (lks : lock_store) (l : lock_ref) :
  locked lks l = true -> (l < List.length lks)%nat.
Proof.
  intros H. destruct (Nat.lt_ge_cases l (List.length lks)) as [Hlt|Hge]; [exact Hlt|].
  unfold locked in H. rewrite nth_overflow in H by exact Hge. discriminate.
Qed.

Lemma locked_after_set (lks : lock_store) (l l' : lock_ref) (b : bool) :
  (l < List.length lks)%nat ->
  locked (set_locked lks l b) l' = if Nat.eqb l l' then b else locked lks l'.
Proof.
  intros Hl. destruct (Nat.eqb_spec l l') as [<-|Hne].
  - rewrite locked_set_locked. apply Nat.ltb_lt in Hl. rewrite Hl. reflexivity.
  - apply locked_set_locked_other. congruence.
Qed.

Lemma initial_accounted (s : system) : initial s -> locks_accounted s.
Proof.
  intros (Hidle & Hknown & Hstart). split; [|split; [|exact Hknown]].
  - intros l. rewrite Hidle.
    destruct (holders l (tasks s)) as [|n] eqn:E; [reflexivity|exfalso].
    destruct (holders_inhabited l (tasks s)) as (t & Hin & Hpc); [lia|].
    rewrite Forall_forall in Hstart. rewrite (Hstart t Hin) in Hpc. discriminate.
  - intros t l Hin Hpc. rewrite Forall_forall in Hstart.
    rewrite (Hstart t Hin) in Hpc. discriminate.
Qed.

(** The recurring steps of the accounting: the holders of [l'] before and
    after the task [t] moved, and the tasks other than [t]. *)
Ltac recount Hcount Hpc l' :=
  intros l'; rewrite holders_split; specialize (Hcount l');
  rewrite holders_split in Hcount; unfold holds in *; rewrite Hpc in Hcount;
  cbn [task_pc at_pc].

Ltac other_waiters Hwait t :=
  let x := fresh "x" in
  let l' := fresh "l'" in
  let Hin := fresh "Hin" in
  let Hx := fresh "Hx" in
  intros x l' Hin Hx; rewrite ?length_set_locked;
  apply (in_replaced x t) in Hin; destruct Hin as [->|Hin];
  [ try discriminate Hx | specialize (Hwait x l' Hin Hx); try lia ].

Lemma held_by_in_flight (lks : lock_store) (pre post : list task) (t : task)
    (l : lock_ref) :
  (forall l', holders l' (pre ++ t :: post) = if locked lks l' then 1%nat else 0%nat) ->
  task_pc t = InFlight l ->
  locked lks l = true.
Proof.
  intros Hcount Hpc.
  pose proof (holders_positive l _ t (in_elt t pre post) Hpc) as H1.
  specialize (Hcount l). destruct (locked lks l); [reflexivity|lia].
Qed.

Lemma step_accounted (s s' : system) :
  step s s' -> locks_accounted s -> locks_accounted s'.
Proof.
  intros Hstep (Hcount & Hwait & Hknown).
  destruct Hstep as
    [ inv lks pre t post l inv' lks' Hpc He Hl
    | inv lks pre t post l inv' lks' Hpc He
    | inv lks pre t post l Hpc Hl
    | inv lks pre t post l Hpc
    | inv lks pre t post l r inv' Hpc Ht
    | inv lks pre t post l Hpc ];
    unfold locks_accounted; cbn [inverter locks tasks] in *.
  - (* the call takes the Lock at once *)
    destruct (ensure_lock_store _ _ _ Hknown _ _ _ He) as (Hlt & Hsame & Hlen & Hlock).
    split; [|split].
    + recount Hcount Hpc l'. rewrite locked_after_set by exact Hlt.
      destruct (Nat.eqb_spec l l') as [E|Hne]; [subst l'|].
      * rewrite <- Hsame, Hl in Hcount. lia.
      * rewrite Hsame. lia.
    + other_waiters Hwait t.
    + unfold lock_known. rewrite Hlock, length_set_locked. exact Hlt.
  - (* the call is queued on the Lock *)
    destruct (ensure_lock_store _ _ _ Hknown _ _ _ He) as (Hlt & Hsame & Hlen & Hlock).
    split; [|split].
    + recount Hcount Hpc l'. rewrite Hsame. exact Hcount.
    + other_waiters Hwait t. cbn in Hx. inversion Hx; subst. exact Hlt.
    + unfold lock_known. rewrite Hlock. exact Hlt.
  - (* a waiting call gets the Lock *)
    assert (Hlt : (l < List.length lks)%nat)
      by (apply (Hwait t l); [apply in_elt|exact Hpc]).
    split; [|split].
    + recount Hcount Hpc l'. rewrite locked_after_set by exact Hlt.
      destruct (Nat.eqb_spec l l') as [E|Hne]; [subst l'|].
      * rewrite Hl in Hcount. lia.
      * lia.
    + other_waiters Hwait t.
    + unfold lock_known in *. rewrite length_set_locked. exact Hknown.
  - (* a waiting call is cancelled *)
    split; [|split; [|exact Hknown]].
    + recount Hcount Hpc l'. exact Hcount.
    + other_waiters Hwait t.
  - (* the exchange ends and the Lock is given back *)
    pose proof (held_by_in_flight _ _ _ _ _ Hcount Hpc) as Hheld.
    pose proof (locked_in_store _ _ Hheld) as Hlt.
    pose proof (try_execute_keeps inv (task_command t)) as (_ & _ & _ & Kl & _).
    rewrite Ht in Kl. cbn [snd] in Kl.
    split; [|split].
    + recount Hcount Hpc l'. rewrite locked_after_set by exact Hlt.
      destruct (Nat.eqb_spec l l') as [E|Hne]; [subst l'|].
      * rewrite Hheld in Hcount. lia.
      * lia.
    + other_waiters Hwait t.
    + unfold lock_known in *. rewrite Kl, length_set_locked. exact Hknown.
  - (* the exchange is cancelled and the Lock is given back *)
    pose proof (held_by_in_flight _ _ _ _ _ Hcount Hpc) as Hheld.
    pose proof (locked_in_store _ _ Hheld) as Hlt.
    split; [|split].
    + recount Hcount Hpc l'. rewrite locked_after_set by exact Hlt.
      destruct (Nat.eqb_spec l l') as [E|Hne]; [subst l'|].
      * rewrite Hheld in Hcount. lia.
      * lia.
    + other_waiters Hwait t.
    + unfold lock_known in *. rewrite length_set_locked. exact Hknown.
Qed.

Lemma reachable_accounted (s0 s : system) :
  initial s0 -> reachable s0 s -> locks_accounted s.
Proof.
  intros Hinit Hreach. induction Hreach as [|s s' _ IH Hstep].
  - apply initial_accounted, Hinit.
  - eapply step_accounted; eauto.
Qed.

Lemma initial_one_loop (lp : loop) (s : system) :
  initial s -> Forall (fun t => task_loop t = lp) (tasks s) -> one_loop lp s.
Proof.
  intros (_ & _ & Hstart) Hloop. split; [exact Hloop|].
  intros t l Hin Hpc. rewrite Forall_forall in Hstart.
  rewrite (Hstart t Hin) in Hpc. destruct Hpc; discriminate.
Qed.

Lemma Forall_replaced (P : task -> Prop) (pre post : list task) (t t' : task) :
  Forall P (pre ++ t :: post) -> P t' -> Forall P (pre ++ t' :: post).
Proof.
  intros H Ht'. apply Forall_app in H. destruct H as [Hpre Hpost].
  inversion Hpost; subst. apply Forall_app. split; [exact Hpre|].
  constructor; assumption.
Qed.

Lemma Forall_at (P : task -> Prop) (pre post : list task) (t : task) :
  Forall P (pre ++ t :: post) -> P t.
Proof. intros H. rewrite Forall_forall in H. apply H, in_elt. Qed.

Lemma lock_is_current_try_execute (inv inv' : Inverter) (c : Command)
    (r : outcome bytes) (lp : loop) :
  try_execute inv c = (r, inv') ->
  lock_is_current inv' lp = lock_is_current inv lp.
Proof.
  intros H. pose proof (try_execute_keeps inv c) as (_ & _ & _ & Kl & Klp & _).
  rewrite H in Kl, Klp. cbn [snd] in Kl, Klp.
  unfold lock_is_current. rewrite Kl, Klp. reflexivity.
Qed.

Lemma step_one_loop (lp : loop) (s s' : system) :
  step s s' -> one_loop lp s -> one_loop lp s'.
Proof.
  intros Hstep (Hloop & Hcur).
  destruct Hstep as
    [ inv lks pre t post l inv' lks' Hpc He Hl
    | inv lks pre t post l inv' lks' Hpc He
    | inv lks pre t post l Hpc Hl
    | inv lks pre t post l Hpc
    | inv lks pre t post l r inv' Hpc Ht
    | inv lks pre t post l Hpc ];
    unfold one_loop; cbn [inverter locks tasks] in *;
    pose proof (Forall_at _ _ _ _ Hloop) as Hlp;
    (split; [eapply Forall_replaced; [exact Hloop|exact Hlp]|]).
  1,2: (* the call goes through _ensure_lock *)
    rewrite Hlp in He;
    pose proof (ensure_lock_result _ _ _ _ _ _ He) as (Hnew & _);
    intros x l' Hin Hx;
    apply (in_replaced x t) in Hin; destruct Hin as [->|Hin];
    [ cbn in Hx; destruct Hx as [Hx|Hx]; inversion Hx; subst; exact Hnew
    | pose proof (Hcur x l' Hin Hx) as Hold;
      rewrite (ensure_lock_current _ _ _ _ Hold) in He;
      inversion He; subst; exact Hold ].
  - intros x l' Hin Hx.
    apply (in_replaced x t) in Hin. destruct Hin as [->|Hin]; [|exact (Hcur x l' Hin Hx)].
    cbn in Hx. destruct Hx as [Hx|Hx]; inversion Hx; subst.
    apply (Hcur t l'); [apply in_elt|left; exact Hpc].
  - intros x l' Hin Hx.
    apply (in_replaced x t) in Hin. destruct Hin as [->|Hin]; [|exact (Hcur x l' Hin Hx)].
    cbn in Hx. destruct Hx; discriminate.
  - intros x l' Hin Hx. rewrite (lock_is_current_try_execute _ _ _ _ lp Ht).
    apply (in_replaced x t) in Hin. destruct Hin as [->|Hin]; [|exact (Hcur x l' Hin Hx)].
    cbn in Hx. destruct Hx; discriminate.
  - intros x l' Hin Hx.
    apply (in_replaced x t) in Hin. destruct Hin as [->|Hin]; [|exact (Hcur x l' Hin Hx)].
    cbn in Hx. destruct Hx; discriminate.
Qed.

Lemma reachable_one_loop (lp : loop) (s0 s : system) :
  initial s0 -> Forall (fun t => task_loop t = lp) (tasks s0) ->
  reachable s0 s -> one_loop lp s.
Proof.
  intros Hinit Hloop Hreach. induction Hreach as [|s s' _ IH Hstep].
  - apply initial_one_loop; assumption.
  - eapply step_one_loop; eauto.
Qed.

(** A call that runs alone is two steps of the concurrent system. *)
Lemma read_from_socket_as_steps (self : Inverter) (c : Command)
    (lks : lock_store) (current : loop) (r : outcome bytes)
    (self' : Inverter) (lks' : lock_store) :
  _read_from_socket self c lks current = Some (r, self', lks') ->
  reachable {| inverter := self; locks := lks; tasks := [new_task current c] |}
            {| inverter := self'; locks := lks';
               tasks := [at_pc (new_task current c) (Done r)] |}.
Proof.
  unfold _read_from_socket.
  destruct (_ensure_lock self lks current) as [[l self1] lks1] eqn:E.
  destruct (locked lks1 l) eqn:Hl; [discriminate|].
  destruct (try_execute self1 c) as [r2 self2] eqn:Ht.
  intros H. inversion H; subst.
  eapply reach_step.
  - eapply reach_step; [apply reach_here|].
    apply (step_enter_acquire self lks [] (new_task current c) [] l self1 lks1);
      [reflexivity|exact E|exact Hl].
  - apply (step_complete self1 (set_locked lks1 l true) []
             (at_pc (new_task current c) (InFlight l)) [] l r self');
      [reflexivity|exact Ht].
Qed.

(** ** Claims on the concurrency guard *)

(** C6 as stated fails: two calls on one instance from two event loops can
    both be in flight, because the second call finds another loop recorded
    and replaces the Lock while the first call holds the old one. *)
Lemma two_loops_two_exchanges_in_flight :
  initial two_loops_start
  /\ reachable two_loops_start two_loops_both
  /\ in_flight (tasks two_loops_both) = 2%nat.
Proof.
  split; [|split; [|reflexivity]].
  - split; [|split].
    + intros [|l]; reflexivity.
    + exact I.
    + repeat constructor.
  - apply reach_step with (s := two_loops_first).
    + apply reach_step with (s := two_loops_start); [apply reach_here|].
      apply (step_enter_acquire (Inverter_default "192.168.1.14") []
               [] (new_task 0 (as_command silent probe))
               [new_task 1 (as_command silent probe)]
               0 (with_lock (Inverter_default "192.168.1.14") 0 0) [false]);
        reflexivity.
    + apply (step_enter_acquire (with_lock (Inverter_default "192.168.1.14") 0 0) [true]
               [at_pc (new_task 0 (as_command silent probe)) (InFlight 0)]
               (new_task 1 (as_command silent probe)) []
               1 (with_lock (with_lock (Inverter_default "192.168.1.14") 0 0) 1 1)
               [true; false]);
        reflexivity.
Qed.

(** C6 (amended). From a state where no call has begun, whatever the
    schedule and whatever the commands return or raise: a call is in flight
    only while it holds its Lock; a Lock is held only while a call under it
    is in flight, so none stays held after its call has returned, raised or
    been cancelled; at most one call is in flight under each Lock; and when
    all calls come from one event loop, at most one call is in flight on the
    instance. *)
Theorem guard_serialises_one_loop (s0 s : system) :
  initial s0 ->
  reachable s0 s ->
  (forall t l, In t (tasks s) -> task_pc t = InFlight l -> locked (locks s) l = true)
  /\ (forall l, locked (locks s) l = true ->
                exists t, In t (tasks s) /\ task_pc t = InFlight l)
  /\ (forall l, (holders l (tasks s) <= 1)%nat)
  /\ (forall lp, Forall (fun t => task_loop t = lp) (tasks s0) ->
                 (in_flight (tasks s) <= 1)%nat).
Proof.
  intros Hinit Hreach.
  pose proof (reachable_accounted _ _ Hinit Hreach) as (Hcount & _ & _).
  split; [|split; [|split]].
  - intros t l Hin Hpc. pose proof (holders_positive l _ t Hin Hpc) as H.
    specialize (Hcount l). destruct (locked (locks s) l); [reflexivity|lia].
  - intros l Hl. apply holders_inhabited. rewrite Hcount, Hl. lia.
  - intros l. rewrite Hcount. destruct (locked (locks s) l); lia.
  - intros lp Hloop.
    pose proof (reachable_one_loop lp _ _ Hinit Hloop Hreach) as (_ & Hcur).
    destruct (lock_is_current (inverter s) lp) as [l0|] eqn:E.
    + rewrite (in_flight_under_one_lock l0).
      * rewrite Hcount. destruct (locked (locks s) l0); lia.
      * intros t l Hin Hpc. specialize (Hcur t l Hin (or_intror Hpc)). congruence.
    + rewrite in_flight_none; [lia|].
      intros t l Hin Hpc. specialize (Hcur t l Hin (or_intror Hpc)). congruence.
Qed.

Lemma one_loop_queued_reachable : reachable one_loop_start one_loop_queued.
Proof.
  apply reach_step with
    (s := {| inverter := with_lock (Inverter_default "192.168.1.14") 0 0;
             locks := [true];
             tasks := [ at_pc (new_task 0 (as_command silent probe)) (InFlight 0);
                        new_task 0 (as_command echo probe) ] |}).
  - apply reach_step with (s := one_loop_start); [apply reach_here|].
    apply (step_enter_acquire (Inverter_default "192.168.1.14") []
             [] (new_task 0 (as_command silent probe))
             [new_task 0 (as_command echo probe)]
             0 (with_lock (Inverter_default "192.168.1.14") 0 0) [false]);
      reflexivity.
  - apply (step_enter_wait (with_lock (Inverter_default "192.168.1.14") 0 0) [true]
             [at_pc (new_task 0 (as_command silent probe)) (InFlight 0)]
             (new_task 0 (as_command echo probe)) []
             0 (with_lock (Inverter_default "192.168.1.14") 0 0) [true]);
      reflexivity.
Defined.

Lemma guard_serialises_one_loop_witness :
  (forall t l, In t (tasks one_loop_queued) -> task_pc t = InFlight l ->
               locked (locks one_loop_queued) l = true)
  /\ (forall l, locked (locks one_loop_queued) l = true ->
                exists t, In t (tasks one_loop_queued) /\ task_pc t = InFlight l)
  /\ (forall l, (holders l (tasks one_loop_queued) <= 1)%nat)
  /\ (forall lp, Forall (fun t => task_loop t = lp) (tasks one_loop_start) ->
                 (in_flight (tasks one_loop_queued) <= 1)%nat).
Proof.
  apply (guard_serialises_one_loop one_loop_start one_loop_queued).
  - split; [|split].
    + intros [|l]; reflexivity.
    + exact I.
    + repeat constructor.
  - exact one_loop_queued_reachable.
Defined.

(** * Further properties of the inverter core *)

(** ** _map_response *)

Lemma loop_skips_like_filtering (table : list Sensor) :
  forall (buffer : BytesIO) (result : dict),
    map_response_loop buffer result table false
    = map_response_loop buffer result (filter identified table) true.
Proof.
  induction table as [|s rest IH]; intros buffer result; [reflexivity|].
  cbn [filter map_response_loop]. unfold processed, identified. cbn [orb].
  destruct (negb (String.prefix "xx" (id_ s))) eqn:E.
  - cbn [map_response_loop]. unfold processed. cbn [orb].
    destruct (read s buffer) as [[v|e] buffer']; [apply IH|].
    destruct (is_ValueError e); [apply IH|reflexivity].
  - apply IH.
Qed.

(** X1. Leaving the unidentified sensors out with [incl_xx = False] is the
    same as mapping the table from which they have been removed: the same
    mapping, or the same exception. *)
Theorem map_response_skips_like_filtering (resp_data : bytes) (table : list Sensor) :
  _map_response resp_data table false
  = _map_response resp_data (filter identified table) true.
Proof. apply loop_skips_like_filtering. Qed.

Lemma assign_all_keeps_other (data : bytes) (k : string) (ss : list Sensor) :
  forall result : dict,
    ~ In k (map id_ ss) ->
    dict_get (assign_all data result ss) k = dict_get result k.
Proof.
  induction ss as [|s rest IH]; intros result Hk; [reflexivity|].
  unfold assign_all in *. cbn [fold_left]. cbn [entry fst snd].
  rewrite IH by (intros H; apply Hk; right; exact H).
  apply dict_get_set_other. intros ->. apply Hk. left. reflexivity.
Qed.

Lemma assign_all_app (data : bytes) (result : dict) (xs ys : list Sensor) :
  assign_all data result (xs ++ ys) = assign_all data (assign_all data result xs) ys.
Proof. unfold assign_all. apply fold_left_app. Qed.

(** X2. When two sensors of a table share an id they share one entry, and
    it is the last of them that fills it: in a pass whose decodes fail with
    nothing but a [ValueError], the entry under a sensor's id holds that
    sensor's own value (or [None]) as soon as no later sensor read has the
    same id. *)
Theorem map_response_last_sensor_wins
    (resp_data : bytes) (table : list Sensor) (incl_xx : bool) :
  Forall (fun s => contained resp_data s = true) (read_sensors incl_xx table) ->
  exists result,
    _map_response resp_data table incl_xx = Ok result
    /\ forall pre s post,
        read_sensors incl_xx table = pre ++ s :: post ->
        ~ In (id_ s) (map id_ post) ->
        dict_get result (id_ s) = Some (snd (entry resp_data s)).
Proof.
  intros Hall. eexists. split.
  - unfold _map_response. apply loop_contained. exact Hall.
  - intros pre s post Hsplit Hlast. cbn [getvalue BytesIO_new]. rewrite Hsplit.
    rewrite assign_all_app.
    change (s :: post) with ([s] ++ post). rewrite assign_all_app.
    rewrite assign_all_keeps_other by exact Hlast.
    unfold assign_all. cbn [fold_left]. apply dict_get_set_same.
Qed.

Lemma map_response_last_sensor_wins_witness :
  exists result,
    _map_response [x01; x2c; x00; x64] table_with_duplicate true = Ok result
    /\ forall pre s post,
        read_sensors true table_with_duplicate = pre ++ s :: post ->
        ~ In (id_ s) (map id_ post) ->
        dict_get result (id_ s) = Some (snd (entry [x01; x2c; x00; x64] s)).
Proof.
  apply (map_response_last_sensor_wins [x01; x2c; x00; x64] table_with_duplicate true).
  repeat constructor.
Defined.

Example duplicate_id_is_overwritten :
  _map_response [x01; x2c; x00; x64] table_with_duplicate true
  = Ok [("ppv1", PyNone); ("vpv1", PyFloat (30 # 1))].
Proof. reflexivity. Qed.

(** X3. A sensor whose offset is negative is never decoded: [read] fails in
    [seek] with a [ValueError], whatever the sensor's [read_value] would do
    and wherever the buffer stands, and leaves the buffer as it was; in a
    mapping that [_map_response] returns its entry is therefore [None] when
    no later sensor shares its id. *)
Theorem negative_offset_reads_as_none
    (resp_data : bytes) (table : list Sensor) (incl_xx : bool) (s : Sensor) :
  offset s < 0 ->
  (forall buffer : BytesIO, read s buffer = (Raise ValueError, buffer))
  /\ forall r pre post,
      _map_response resp_data table incl_xx = Ok r ->
      read_sensors incl_xx table = pre ++ s :: post ->
      ~ In (id_ s) (map id_ post) ->
      dict_get r (id_ s) = Some PyNone.
Proof.
  intros Hneg. split.
  - intros buffer. unfold read, seek. apply Z.ltb_lt in Hneg. rewrite Hneg. reflexivity.
  - intros r pre post Hr Hsplit Hlast. unfold _map_response in Hr.
    apply loop_ok_contained in Hr as Hall. cbn [getvalue BytesIO_new] in Hall.
    rewrite loop_contained in Hr by exact Hall. inversion Hr as [Heq].
    cbn [getvalue BytesIO_new]. rewrite Hsplit.
    rewrite assign_all_app.
    change (s :: post) with ([s] ++ post). rewrite assign_all_app.
    rewrite assign_all_keeps_other by exact Hlast.
    unfold assign_all. cbn [fold_left]. rewrite dict_get_set_same.
    unfold entry. cbn [snd]. rewrite negative_offset_is_contained by exact Hneg.
    reflexivity.
Qed.

Lemma negative_offset_reads_as_none_witness :
  offset (base_Sensor "ppv1" (-2) "PV1 Power" 2 "W" (Some PV)) < 0
  /\ (forall buffer : BytesIO,
        read (base_Sensor "ppv1" (-2) "PV1 Power" 2 "W" (Some PV)) buffer
        = (Raise ValueError, buffer))
  /\ forall r pre post,
      _map_response [x01; x2c] table_with_negative_offset true = Ok r ->
      read_sensors true table_with_negative_offset
      = pre ++ base_Sensor "ppv1" (-2) "PV1 Power" 2 "W" (Some PV) :: post ->
      ~ In "ppv1" (map id_ post) ->
      dict_get r "ppv1" = Some PyNone.
Proof.
  split; [reflexivity|].
  apply (negative_offset_reads_as_none [x01; x2c] table_with_negative_offset true
           (base_Sensor "ppv1" (-2) "PV1 Power" 2 "W" (Some PV))).
  reflexivity.
Defined.

Example negative_offset_in_table :
  _map_response [x01; x2c] table_with_negative_offset true
  = Ok [("vpv1", PyFloat (30 # 1)); ("ppv1", PyNone)].
Proof. reflexivity. Qed.

Lemma Permutation_filter {A : Type} (f : A -> bool) (l l' : list A) :
  Permutation l l' -> Permutation (filter f l) (filter f l').
Proof.
  induction 1 as [|x l l' _ IH|x y l|l l' l'' _ IH1 _ IH2]; cbn.
  - constructor.
  - destruct (f x); [constructor|]; exact IH.
  - destruct (f x), (f y); try apply Permutation_refl. constructor.
  - eapply Permutation_trans; eassumption.
Qed.

Lemma dict_get_permutation (d d' : dict) (k : string) :
  Permutation d d' -> NoDup (keys d) -> dict_get d k = dict_get d' k.
Proof.
  induction 1 as [|[k0 v0] l l' Hp IH|[k1 v1] [k2 v2] l|l l' l'' Hp1 IH1 Hp2 IH2];
    intros Hnd; cbn in *.
  - reflexivity.
  - inversion Hnd; subst. destruct (String.eqb k0 k); [reflexivity|auto].
  - inversion Hnd as [|? ? Hout Hrest]; subst.
    destruct (String.eqb_spec k1 k) as [->|H1], (String.eqb_spec k2 k) as [->|H2];
      try reflexivity.
    exfalso. apply Hout. left. reflexivity.
  - rewrite IH1 by exact Hnd. apply IH2.
    unfold keys in *. eapply Permutation_NoDup; [|exact Hnd].
    apply Permutation_map, Hp1.
Qed.

(** X4. The order of a table with unique ids decides the order of the keys
    and nothing else: a sensor's decode does not depend on the sensors read
    before it, so two tables that are permutations of each other give
    mappings with the same value under every id. *)
Theorem map_response_order_is_irrelevant
    (resp_data : bytes) (table table' : list Sensor) (incl_xx : bool) :
  Permutation table table' ->
  NoDup (map id_ (read_sensors incl_xx table)) ->
  Forall (fun s => contained resp_data s = true) (read_sensors incl_xx table) ->
  exists r r',
    _map_response resp_data table incl_xx = Ok r
    /\ _map_response resp_data table' incl_xx = Ok r'
    /\ Permutation r r'
    /\ forall k, dict_get r k = dict_get r' k.
Proof.
  intros Hperm Hnd Hall.
  assert (Hp : Permutation (read_sensors incl_xx table) (read_sensors incl_xx table'))
    by (apply Permutation_filter, Hperm).
  assert (Hnd' : NoDup (map id_ (read_sensors incl_xx table'))).
  { eapply Permutation_NoDup; [|exact Hnd]. apply Permutation_map, Hp. }
  assert (Hall' : Forall (fun s => contained resp_data s = true)
                    (read_sensors incl_xx table')).
  { rewrite Forall_forall in *. intros s Hs. apply Hall.
    eapply Permutation_in; [apply Permutation_sym, Hp|exact Hs]. }
  exists (map (entry resp_data) (read_sensors incl_xx table)),
         (map (entry resp_data) (read_sensors incl_xx table')).
  assert (Hpr : Permutation (map (entry resp_data) (read_sensors incl_xx table))
                  (map (entry resp_data) (read_sensors incl_xx table')))
    by (apply Permutation_map, Hp).
  split; [|split; [|split; [exact Hpr|]]].
  - unfold _map_response. rewrite loop_contained by exact Hall.
    cbn [getvalue BytesIO_new]. rewrite assign_all_fresh by exact Hnd. reflexivity.
  - unfold _map_response. rewrite loop_contained by exact Hall'.
    cbn [getvalue BytesIO_new]. rewrite assign_all_fresh by exact Hnd'. reflexivity.
  - intros k. apply dict_get_permutation; [exact Hpr|].
    unfold keys. rewrite map_map. cbn. exact Hnd.
Qed.

Lemma map_response_order_is_irrelevant_witness :
  exists r r',
    _map_response [x01; x2c; x00; x64] scenario_table true = Ok r
    /\ _map_response [x01; x2c; x00; x64] (rev scenario_table) true = Ok r'
    /\ Permutation r r'
    /\ forall k, dict_get r k = dict_get r' k.
Proof.
  apply (map_response_order_is_irrelevant [x01; x2c; x00; x64]
           scenario_table (rev scenario_table) true).
  - apply Permutation_rev.
  - repeat constructor; cbn; intuition discriminate.
  - repeat constructor.
Defined.

(** ** _ensure_lock *)

(** X5. [_ensure_lock] is idempotent within an event loop: a second call
    from the same loop returns the Lock of the first, creates no Lock and
    changes nothing, whether the first call found a Lock or made one. *)
Theorem ensure_lock_twice (self : Inverter) (lks : lock_store) (current : loop) :
  let '(l, self', lks') := _ensure_lock self lks current in
  _ensure_lock self' lks' current = (l, self', lks').
Proof.
  destruct (_ensure_lock self lks current) as [[l self'] lks'] eqn:E.
  pose proof (ensure_lock_result _ _ _ _ _ _ E) as (Hcur & _).
  apply ensure_lock_current, Hcur.
Qed.

(** X6. A Lock is not kept for a loop that was left: after calls from loop
    [a], then loop [b], then loop [a] again, the third call gets a third
    Lock object, distinct from the one the first call got, and the store
    holds two more Locks than after the first call. *)
Theorem ensure_lock_does_not_return_to_old_lock
    (self : Inverter) (lks : lock_store) (a b : loop) :
  lock_known self lks ->
  a <> b ->
  let '(l1, self1, lks1) := _ensure_lock self lks a in
  let '(l2, self2, lks2) := _ensure_lock self1 lks1 b in
  let '(l3, self3, lks3) := _ensure_lock self2 lks2 a in
  l1 <> l2 /\ l2 <> l3 /\ l1 <> l3
  /\ List.length lks3 = S (S (List.length lks1))
  /\ locked lks3 l3 = false.
Proof.
  intros Hknown Hab.
  destruct (_ensure_lock self lks a) as [[l1 self1] lks1] eqn:E1.
  destruct (ensure_lock_store _ _ _ Hknown _ _ _ E1) as (Hl1 & _ & _ & _).
  pose proof (ensure_lock_result _ _ _ _ _ _ E1) as (Hc1 & _).
  apply lock_is_current_spec in Hc1. destruct Hc1 as [Hlock1 Hloop1].
  assert (S1 : lock_is_current self1 b = None).
  { unfold lock_is_current. rewrite Hlock1, Hloop1.
    destruct (Nat.eqb_spec a b); [contradiction|reflexivity]. }
  rewrite (ensure_lock_stale _ _ _ S1).
  assert (S2 : lock_is_current (with_lock self1 (List.length lks1) b) a = None).
  { unfold lock_is_current. cbn.
    destruct (Nat.eqb_spec b a); [congruence|reflexivity]. }
  rewrite (ensure_lock_stale _ _ _ S2).
  rewrite !length_app. cbn [List.length].
  repeat split; try lia.
  replace (List.length lks1 + 1)%nat with (List.length (lks1 ++ [false]))
    by (rewrite length_app; reflexivity).
  apply locked_new.
Qed.

Lemma ensure_lock_does_not_return_to_old_lock_witness :
  (0 <> 1 /\ 1 <> 2 /\ 0 <> 2
   /\ List.length [true; false; false] = 3 /\ locked [true; false; false] 2 = false)%nat.
Proof.
  apply (ensure_lock_does_not_return_to_old_lock
           (with_lock (Inverter_default "192.168.1.14") 0 7) [true] 7%nat 8%nat).
  - cbn. lia.
  - discriminate.
Defined.

(** ** _read_from_socket *)

(** X7. A request-failed error of the command is not passed on as it is:
    the caller gets a new request-failed error with the command's message
    and with the instance's counter, just incremented, in place of whatever
    count the command's error carried. *)
Theorem request_failed_is_recounted
    (self : Inverter) (c : Command) (lks : lock_store) (current : loop)
    (message : string) (n : Z) :
  guard_free self lks ->
  execute c (host self) (timeout self) (retries self)
  = Raise (RequestFailedException message n) ->
  exists self' lks',
    _read_from_socket self c lks current
    = Some (Raise (RequestFailedException message
                     (_consecutive_failures_count self + 1)), self', lks')
    /\ _consecutive_failures_count self' = _consecutive_failures_count self + 1
    /\ guard_free self' lks'.
Proof.
  intros Hfree Hexec.
  destruct (read_from_socket_runs self c lks current Hfree)
    as (self' & lks' & Hrun & Hcnt & _ & _ & _ & _ & Hfree').
  pose proof (try_execute_cases self c) as Hcases. cbv zeta in Hcases.
  rewrite Hexec in Hcases. destruct Hcases as [Hn Hr].
  exists self', lks'. rewrite Hrun, Hr, Hcnt, Hn. auto.
Qed.

Lemma request_failed_is_recounted_witness :
  exists self' lks',
    _read_from_socket (Inverter_default "192.168.1.14")
      (failing (RequestFailedException "truncated response" 41)) [] 0%nat
    = Some (Raise (RequestFailedException "truncated response" 1), self', lks')
    /\ _consecutive_failures_count self' = 1
    /\ guard_free self' lks'.
Proof.
  apply (request_failed_is_recounted (Inverter_default "192.168.1.14")
           (failing (RequestFailedException "truncated response" 41)) [] 0%nat
           "truncated response" 41).
  - exact I.
  - reflexivity.
Defined.

(** X8. An exception of the command that is neither a max-retries nor a
    request-failed error reaches the caller as it is; the failure counter is
    not touched by it -- neither incremented nor reset -- and the Lock is
    given back all the same. *)
Theorem other_errors_pass_uncounted
    (self : Inverter) (c : Command) (lks : lock_store) (current : loop) (e : exn) :
  guard_free self lks ->
  execute c (host self) (timeout self) (retries self) = Raise e ->
  ~ protocol_outcome (Raise e) ->
  exists self' lks',
    _read_from_socket self c lks current = Some (Raise e, self', lks')
    /\ _consecutive_failures_count self' = _consecutive_failures_count self
    /\ guard_free self' lks'.
Proof.
  intros Hfree Hexec Hother.
  destruct (read_from_socket_runs self c lks current Hfree)
    as (self' & lks' & Hrun & Hcnt & _ & _ & _ & _ & Hfree').
  rewrite (other_errors_are_not_counted self c e Hexec Hother) in Hrun, Hcnt.
  cbn [fst snd] in Hrun, Hcnt.
  exists self', lks'. auto.
Qed.

Lemma other_errors_pass_uncounted_witness :
  exists self' lks',
    _read_from_socket (with_failures (Inverter_default "192.168.1.14") 5)
      (failing OSError) [] 0%nat
    = Some (Raise OSError, self', lks')
    /\ _consecutive_failures_count self' = 5
    /\ guard_free self' lks'.
Proof.
  apply (other_errors_pass_uncounted
           (with_failures (Inverter_default "192.168.1.14") 5) (failing OSError)
           [] 0%nat OSError).
  - exact I.
  - reflexivity.
  - intros H. exact H.
Defined.

Lemma try_execute_counter_bounds (self : Inverter) (c : Command) :
  0 <= _consecutive_failures_count self ->
  0 <= _consecutive_failures_count (snd (try_execute self c))
    <= _consecutive_failures_count self + 1.
Proof.
  intros H0. unfold try_execute.
  destruct (execute c _ _ _) as [b|[]]; cbn; lia.
Qed.

Lemma run_completes (calls : list (loop * Command)) :
  forall (self : Inverter) (lks : lock_store),
    guard_free self lks ->
    0 <= _consecutive_failures_count self ->
    exists rs self' lks',
      run self lks calls = Some (rs, self', lks')
      /\ List.length rs = List.length calls
      /\ counters_within
           (_consecutive_failures_count self + Z.of_nat (List.length calls)) rs
      /\ 0 <= _consecutive_failures_count self'
           <= _consecutive_failures_count self + Z.of_nat (List.length calls)
      /\ guard_free self' lks'.
Proof.
  induction calls as [|[current c] rest IH]; intros self lks Hfree H0.
  - exists [], self, lks. cbn. repeat split; try lia; try assumption. constructor.
  - destruct (read_from_socket_runs self c lks current Hfree)
      as (self1 & lks1 & Hrun & Hcnt & _ & _ & _ & _ & Hfree1).
    pose proof (try_execute_counter_bounds self c H0) as Hb. rewrite <- Hcnt in Hb.
    destruct (IH self1 lks1 Hfree1 ltac:(lia))
      as (rs & self2 & lks2 & Hrun2 & Hlen & Hin & Hfin & Hfree2).
    cbn [run]. rewrite Hrun, Hrun2.
    eexists _, self2, lks2. split; [reflexivity|].
    cbn [List.length]. rewrite Nat2Z.inj_succ.
    split; [f_equal; exact Hlen|]. split; [|split; [lia|exact Hfree2]].
    constructor; [cbn; lia|].
    eapply Forall_impl; [|exact Hin]. cbn. intros rc Hrc. lia.
Qed.

(** X9. A run of calls made one after the other never gets stuck on the
    instance's own Lock, whatever the commands do and whichever loops the
    calls come from: every call completes and leaves the Lock free.  From a
    counter that is not negative, the counter is never negative and never
    exceeds its start plus the number of calls made. *)
Theorem run_never_blocks
    (self : Inverter) (lks : lock_store) (calls : list (loop * Command)) :
  guard_free self lks ->
  0 <= _consecutive_failures_count self ->
  exists rs self' lks',
    run self lks calls = Some (rs, self', lks')
    /\ List.length rs = List.length calls
    /\ counters_within
         (_consecutive_failures_count self + Z.of_nat (List.length calls)) rs
    /\ 0 <= _consecutive_failures_count self'
         <= _consecutive_failures_count self + Z.of_nat (List.length calls)
    /\ guard_free self' lks'.
Proof. intros Hfree H0. apply run_completes; assumption. Qed.

Lemma run_never_blocks_witness :
  exists rs self' lks',
    run (Inverter_default "192.168.1.14") [] unruly_calls = Some (rs, self', lks')
    /\ List.length rs = 4%nat
    /\ counters_within 4 rs
    /\ 0 <= _consecutive_failures_count self' <= 4
    /\ guard_free self' lks'.
Proof.
  apply (run_never_blocks (Inverter_default "192.168.1.14") [] unruly_calls).
  - exact I.
  - cbn. lia.
Defined.

Example run_of_unruly_calls :
  option_map (fun x => fst (fst x))
    (run (Inverter_default "192.168.1.14") [] unruly_calls)
  = Some [ (Raise CancelledError, 0);
           (Raise OSError, 0);
           (Raise (RequestFailedException
                     "No valid response received even after 3 retries" 1), 1);
           (Ok [x7f; x03], 0) ].
Proof. reflexivity. Qed.

(** ** Concurrent calls from one event loop *)

Lemma step_one_lock_made (lp : loop) (n0 : nat) (s s' : system) :
  step s s' -> one_loop lp s -> one_lock_made lp n0 s -> one_lock_made lp n0 s'.
Proof.
  intros Hstep (Hloop & _) Hmade.
  destruct Hstep as
    [ inv lks pre t post l inv' lks' Hpc He Hl
    | inv lks pre t post l inv' lks' Hpc He
    | inv lks pre t post l Hpc Hl
    | inv lks pre t post l Hpc
    | inv lks pre t post l r inv' Hpc Ht
    | inv lks pre t post l Hpc ];
    unfold one_lock_made in *; cbn [inverter locks tasks] in *;
    rewrite ?length_set_locked; try exact Hmade.
  1,2: pose proof (Forall_at _ _ _ _ Hloop) as Hlp; rewrite Hlp in He;
       pose proof (ensure_lock_result _ _ _ _ _ _ He) as (Hnew & _);
       right; (split; [eexists; exact Hnew|]);
       destruct Hmade as [[Hnone Hlen]|[[l0 Hsome] Hlen]];
       [ rewrite (ensure_lock_stale _ _ _ Hnone) in He; inversion He; subst;
         rewrite length_app; cbn; lia
       | rewrite (ensure_lock_current _ _ _ _ Hsome) in He; inversion He; subst;
         exact Hlen ].
  rewrite (lock_is_current_try_execute _ _ _ _ lp Ht). exact Hmade.
Qed.

(** X10. However many calls are made from one event loop, and however they
    interleave, they create at most one Lock: the Lock store never grows by
    more than one object. *)
Theorem one_loop_creates_one_lock (lp : loop) (s0 s : system) :
  initial s0 ->
  Forall (fun t => task_loop t = lp) (tasks s0) ->
  reachable s0 s ->
  (List.length (locks s0) <= List.length (locks s) <= S (List.length (locks s0)))%nat.
Proof.
  intros Hinit Hloop Hreach.
  assert (H : one_loop lp s /\ one_lock_made lp (List.length (locks s0)) s).
  { induction Hreach as [|s s' Hreach IH Hstep].
    - split; [apply initial_one_loop; assumption|].
      unfold one_lock_made.
      destruct (lock_is_current (inverter s0) lp) as [l|] eqn:E.
      + right. split; [eexists; reflexivity|lia].
      + left. split; reflexivity.
    - destruct IH as [H1 H2]. split.
      + eapply step_one_loop; eassumption.
      + eapply step_one_lock_made; eassumption. }
  destruct H as [_ [[_ Hlen]|[_ Hlen]]]; lia.
Qed.

Lemma one_loop_creates_one_lock_witness :
  (List.length (locks one_loop_start) <= List.length (locks one_loop_queued)
   <= S (List.length (locks one_loop_start)))%nat.
Proof.
  apply (one_loop_creates_one_lock 0%nat one_loop_start one_loop_queued).
  - split; [|split].
    + intros [|l]; reflexivity.
    + exact I.
    + repeat constructor.
  - repeat constructor.
  - exact one_loop_queued_reachable.
Defined.

(** * Properties of the bus driver *)

Lemma dict_get_set (d : dict) (k k' : string) (v : pyval) :
  dict_get (dict_set d k v) k' = if String.eqb k k' then Some v else dict_get d k'.
Proof.
  destruct (String.eqb_spec k k') as [<-|Hne].
  - apply dict_get_set_same.
  - apply dict_get_set_other. congruence.
Qed.

Lemma lookup_store {V : Type} (d : list (string * V)) (k k' : string) (v : V) :
  lookup (store d k v) k' = if String.eqb k k' then Some v else lookup d k'.
Proof.
  induction d as [|[k0 v0] d IH]; cbn.
  - reflexivity.
  - destruct (String.eqb_spec k0 k) as [->|H0]; cbn.
    + destruct (String.eqb k k'); reflexivity.
    + rewrite IH. destruct (String.eqb_spec k0 k') as [->|H1]; [|reflexivity].
      destruct (String.eqb_spec k k'); [congruence|reflexivity].
Qed.

Lemma store_keeps_shape {V W : Type} (f : string * V -> W) (d : list (string * V))
    (k : string) (v v' : V) :
  lookup d k = Some v -> (forall k0, f (k0, v') = f (k0, v)) ->
  map f (store d k v') = map f d.
Proof.
  intros Hl Hf. induction d as [|[k0 v0] d IH]; cbn in *; [discriminate|].
  destruct (String.eqb k0 k) eqn:E; cbn.
  - inversion Hl; subst. rewrite Hf. reflexivity.
  - f_equal. apply IH, Hl.
Qed.

(** ** What is observed after an assignment *)

Lemma item_of_set_item (self : GoodWeEMService) (sv p sv' p' : string) (v : pyval) :
  item_of (snd (set_item sv p v self)) sv' p'
  = if String.eqb sv sv' && String.eqb p p' && is_some (item_of self sv p)
    then Some v else item_of self sv' p'.
Proof.
  unfold set_item, item_of.
  destruct (dbus_service self) as [d|] eqn:Ed; cbn;
    [|rewrite Ed, andb_false_r; reflexivity].
  destruct (lookup d sv) as [svc|] eqn:El; cbn;
    [|rewrite Ed, andb_false_r; reflexivity].
  destruct (dict_get (items svc) p) as [v0|] eqn:Ep; cbn;
    [|rewrite Ed, andb_false_r; reflexivity].
  rewrite andb_true_r, lookup_store.
  destruct (String.eqb_spec sv sv') as [<-|Hs]; cbn; [|reflexivity].
  rewrite dict_get_set, El. reflexivity.
Qed.

Lemma attr_set_item (self : GoodWeEMService) (sv p n : string) (v : pyval) :
  attr (snd (set_item sv p v self)) n = attr self n.
Proof.
  unfold set_item, attr.
  destruct (dbus_service self) as [d|]; [|reflexivity].
  destruct (lookup d sv) as [svc|]; [|reflexivity].
  destruct (dict_get (items svc) p); reflexivity.
Qed.

Lemma paths_set_item (self : GoodWeEMService) (sv p : string) (v : pyval) :
  paths (snd (set_item sv p v self)) = paths self.
Proof.
  unfold set_item, paths.
  destruct (dbus_service self) as [d|] eqn:Ed; cbn; [|rewrite Ed; reflexivity].
  destruct (lookup d sv) as [svc|] eqn:El; cbn; [|rewrite Ed; reflexivity].
  destruct (dict_get (items svc) p) as [v0|] eqn:Ep; cbn; [|rewrite Ed; reflexivity].
  f_equal. apply store_keeps_shape with (v := svc); [exact El|].
  intros k0. cbn. f_equal. apply keys_dict_set_present.
  clear -Ep. induction (items svc) as [|[k1 v1] l IH]; cbn in *; [discriminate|].
  destruct (String.eqb_spec k1 p); [left; assumption|right; auto].
Qed.

Lemma attr_set_attr (self : GoodWeEMService) (n n' : string) (v : pyval) :
  attr (snd (set_attr n v self)) n' = if String.eqb n n' then Some v else attr self n'.
Proof. unfold set_attr, attr. cbn. apply dict_get_set. Qed.

(** ** Statements that keep or establish a property *)
Section Rules.
Context {A B : Type}.

Lemma est_bind (P R Q : GoodWeEMService -> Prop) (c : M A) (f : A -> M B) :
  establishes P c R -> (forall s, R s -> Q s) ->
  (forall x, establishes R (f x) Q) ->
  establishes P (bind c f) Q.
Proof.
  intros Hc Hraise Hf s Hs. unfold bind. specialize (Hc s Hs).
  destruct (c s) as [[x|e] s']; cbn in *.
  - apply Hf, Hc.
  - apply Hraise, Hc.
Qed.

Lemma inv_bind (I : GoodWeEMService -> Prop) (c : M A) (f : A -> M B) :
  establishes I c I -> (forall x, establishes I (f x) I) -> establishes I (bind c f) I.
Proof. intros Hc Hf. eapply est_bind; eauto. Qed.

Lemma inv_pure (I : GoodWeEMService -> Prop) (c : M A) :
  (forall s, snd (c s) = s) -> establishes I c I.
Proof. intros H s Hs. rewrite H. exact Hs. Qed.
End Rules.

Lemma inv_try (I : GoodWeEMService -> Prop) (body : M Datatypes.unit) :
  establishes I body I -> establishes I (try_except body) I.
Proof.
  intros H s Hs. specialize (H s Hs). unfold try_except.
  destruct (body s) as [[x|e] s']; cbn in *; [exact H|].
  destruct (is_Exception e); exact H.
Qed.

Lemma pure_ret {A} (a : A) s : snd (ret a s) = s. Proof. reflexivity. Qed.
Lemma pure_lift {A} (r : result A) s : snd (lift r s) = s. Proof. reflexivity. Qed.
Lemma pure_get_attr n s : snd (get_attr n s) = s.
Proof. unfold get_attr. destruct (dict_get _ _); reflexivity. Qed.
Lemma pure_get_item sv p s : snd (get_item sv p s) = s.
Proof.
  unfold get_item. destruct (dbus_service s) as [d|]; [|reflexivity].
  destruct (lookup d sv) as [svc|]; [|reflexivity].
  destruct (dict_get _ _); reflexivity.
Qed.
Lemma pure_has_service sv s : snd (has_service sv s) = s.
Proof. unfold has_service. destruct (dbus_service s); reflexivity. Qed.
Lemma pure_get_has_meter s : snd (get_has_meter s) = s. Proof. reflexivity. Qed.
Lemma pure_get_pv_host s : snd (get_pv_host s) = s. Proof. reflexivity. Qed.

(** Walks through a statement, leaving the assignments to [tac]. *)
Ltac walk tac :=
  repeat first
    [ apply inv_bind; [|intros ?]
    | apply inv_try
    | apply inv_pure; intros ?;
      first [ apply pure_ret | apply pure_lift | apply pure_get_attr
            | apply pure_get_item | apply pure_has_service
            | apply pure_get_has_meter | apply pure_get_pv_host ]
    | match goal with
      | |- establishes _ (if ?b then _ else _) _ => destruct b
      end
    | tac ].


Lemma est_try (P Q : GoodWeEMService -> Prop) (body : M Datatypes.unit) :
  establishes P body Q -> establishes P (try_except body) Q.
Proof.
  intros H s Hs. specialize (H s Hs). unfold try_except.
  destruct (body s) as [[x|e] s']; cbn in *; [exact H|].
  destruct (is_Exception e); exact H.
Qed.

Lemma est_bind_returns {A B : Type} (P R Q : GoodWeEMService -> Prop)
    (c : M A) (f : A -> M B) :
  (forall s, P s -> exists x s', c s = (Returns x, s') /\ R s') ->
  (forall x, establishes R (f x) Q) ->
  establishes P (bind c f) Q.
Proof.
  intros Hc Hf s Hs. unfold bind. destruct (Hc s Hs) as (x & s' & -> & HR).
  apply Hf, HR.
Qed.

(** ** Statements that raise nothing but Exceptions *)

Lemma guarded_bind {A B : Type} (c : M A) (f : A -> M B) :
  guarded c -> (forall x, guarded (f x)) -> guarded (bind c f).
Proof.
  intros Hc Hf s e. unfold bind. specialize (Hc s).
  destruct (c s) as [[x|e'] s'] eqn:E; cbn in *.
  - apply Hf.
  - intros [= ->]. apply Hc. reflexivity.
Qed.

Lemma guarded_returns {A : Type} (c : M A) :
  (forall s, exists x, fst (c s) = Returns x) -> guarded c.
Proof. intros H s e He. destruct (H s) as [x Hx]. congruence. Qed.

Lemma guarded_lift {A : Type} (r : result A) :
  (forall e, r = Raises e -> is_Exception e = true) -> guarded (lift r).
Proof. intros H s e. cbn. apply H. Qed.

Lemma guarded_get_attr n : guarded (get_attr n).
Proof.
  intros s e. unfold get_attr. destruct (dict_get _ _); cbn; [discriminate|].
  intros [= <-]. reflexivity.
Qed.

Lemma guarded_get_item sv p : guarded (get_item sv p).
Proof.
  intros s e. unfold get_item. destruct (dbus_service s) as [d|]; cbn.
  - destruct (lookup d sv) as [svc|]; cbn.
    + destruct (dict_get _ _); cbn; [discriminate|]. intros [= <-]. reflexivity.
    + intros [= <-]. reflexivity.
  - intros [= <-]. reflexivity.
Qed.

Lemma guarded_set_item sv p v : guarded (set_item sv p v).
Proof.
  intros s e. unfold set_item. destruct (dbus_service s) as [d|]; cbn.
  - destruct (lookup d sv) as [svc|]; cbn.
    + destruct (dict_get _ _); cbn; [discriminate|]. intros [= <-]. reflexivity.
    + intros [= <-]. reflexivity.
  - intros [= <-]. reflexivity.
Qed.

Lemma guarded_has_service sv : guarded (has_service sv).
Proof.
  intros s e. unfold has_service. destruct (dbus_service s); cbn; [discriminate|].
  intros [= <-]. reflexivity.
Qed.

Lemma subscript_error d k e : subscript d k = Raises e -> is_Exception e = true.
Proof. unfold subscript. destruct (dict_get d k); [discriminate|]. intros [= <-]. reflexivity. Qed.

Lemma py_abs_error v e : py_abs v = Raises e -> is_Exception e = true.
Proof. destruct v; cbn; try discriminate; intros [= <-]; reflexivity. Qed.

Lemma py_neg_error v e : py_neg v = Raises e -> is_Exception e = true.
Proof. destruct v; cbn; try discriminate; intros [= <-]; reflexivity. Qed.

Lemma py_gt_error v c e : py_gt v c = Raises e -> is_Exception e = true.
Proof. destruct v; cbn; try discriminate; intros [= <-]; reflexivity. Qed.

Lemma arithmetic_error r e : arithmetic r = Raises e -> is_Exception e = true.
Proof. destruct r; cbn; [discriminate|]. intros [= <-]. reflexivity. Qed.

Section Driver.
Context {fa : FloatArith}.

Lemma py_sub_error a b e : py_sub a b = Raises e -> is_Exception e = true.
Proof.
  destruct a, b; cbn; try discriminate; try (intros [= <-]; reflexivity);
    apply arithmetic_error.
Qed.

Lemma py_add_error v c e : py_add v c = Raises e -> is_Exception e = true.
Proof.
  destruct v; cbn; try discriminate; try (intros [= <-]; reflexivity);
    apply arithmetic_error.
Qed.

Lemma py_truediv_error v c e : py_truediv v c = Raises e -> is_Exception e = true.
Proof.
  destruct v; cbn; try discriminate; try (intros [= <-]; reflexivity);
    apply arithmetic_error.
Qed.

(** Walks through a statement whose parts raise nothing but Exceptions. *)
Ltac walk_guarded :=
  repeat first
    [ apply guarded_bind; [|intros ?]
    | apply guarded_get_attr | apply guarded_get_item | apply guarded_set_item
    | apply guarded_has_service
    | apply guarded_lift; intros ?;
      first [ apply subscript_error | apply py_abs_error | apply py_neg_error
            | apply py_gt_error | apply py_sub_error | apply py_add_error
            | apply py_truediv_error ]
    | apply guarded_returns; intros ?; eexists; reflexivity
    | match goal with
      | |- guarded (if ?b then _ else _) => destruct b
      end ].

Lemma refresh_meter_guarded md : guarded (refresh_meter md).
Proof. unfold refresh_meter. walk_guarded. Qed.

Lemma publish_pvinverter_guarded : guarded publish_pvinverter.
Proof. unfold publish_pvinverter. cbv zeta. walk_guarded. Qed.

Lemma publish_grid_guarded : guarded publish_grid.
Proof. unfold publish_grid. cbv zeta. walk_guarded. Qed.

Lemma log_published_guarded : guarded log_published.
Proof. unfold log_published. walk_guarded. Qed.

Lemma bump_update_index_guarded : guarded bump_update_index.
Proof. unfold bump_update_index. cbv zeta. walk_guarded. Qed.

Lemma try_except_guarded (body : M Datatypes.unit) (s : GoodWeEMService) :
  guarded body -> fst (try_except body s) = Returns tt.
Proof.
  intros H. unfold try_except. specialize (H s).
  destruct (body s) as [[[]|e] s']; cbn in *; [reflexivity|].
  rewrite (H e eq_refl). reflexivity.
Qed.

(** ** refresh_meter_data *)

Lemma refresh_fetch_fails (runtime : string -> result dict) (self : GoodWeEMService) (e : error) :
  _get_goodwe_data runtime (pv_host self) = Raises e ->
  refresh_meter_data runtime self
  = if is_Exception e then (Returns true, self) else (Raises e, self).
Proof.
  intros H. unfold refresh_meter_data, try_except, bind, get_pv_host, lift, ret.
  rewrite H. destruct (is_Exception e); reflexivity.
Qed.

Lemma refresh_fetch_returns (runtime : string -> result dict) (self : GoodWeEMService) md :
  _get_goodwe_data runtime (pv_host self) = Returns md ->
  exists self', refresh_meter_data runtime self = (Returns true, self').
Proof.
  intros H. unfold refresh_meter_data.
  match goal with |- context [try_except ?b] => set (body := b) end.
  assert (G : fst (try_except body self) = Returns tt).
  { unfold try_except, body, bind at 1 2, get_pv_host, lift at 1. rewrite H.
    match goal with |- context [match ?c self with _ => _ end] =>
      assert (Hg : guarded c) end.
    { walk_guarded. }
    match goal with |- context [match ?c self with _ => _ end] =>
      specialize (Hg self); destruct (c self) as [[[]|e] s'] end; cbn in *; [reflexivity|].
    rewrite (Hg e eq_refl). reflexivity. }
  unfold bind. destruct (try_except body self) as [[[]|e] s']; cbn in G; [|discriminate].
  eexists. reflexivity.
Qed.


Lemma fetch_returns_nonempty (runtime : string -> result dict) (host_ : string) (md : dict) :
  runtime host_ = Returns md -> md <> [] ->
  _get_goodwe_data runtime host_ = Returns md.
Proof.
  intros Hr Hne. unfold _get_goodwe_data. rewrite Hr.
  destruct md; [contradiction|reflexivity].
Qed.

(** X11. [refresh_meter_data] swallows a failed fetch: when the device
    cannot be read (any [Exception]) or answers with an empty mapping, it
    returns [True] and leaves the object exactly as it was; an error that is
    no [Exception] passes through, the object unchanged as well. *)
Theorem refresh_swallows_failures (runtime : string -> result dict) (self : GoodWeEMService) :
  (forall e, runtime (pv_host self) = Raises e -> is_Exception e = true ->
             refresh_meter_data runtime self = (Returns true, self))
  /\ (runtime (pv_host self) = Returns [] ->
      refresh_meter_data runtime self = (Returns true, self))
  /\ (forall e, runtime (pv_host self) = Raises e -> is_Exception e = false ->
                refresh_meter_data runtime self = (Raises e, self)).
Proof.
  split; [|split].
  - intros e Hr He. rewrite (refresh_fetch_fails runtime self e).
    + rewrite He. reflexivity.
    + unfold _get_goodwe_data. rewrite Hr. reflexivity.
  - intros Hr.
    rewrite (refresh_fetch_fails runtime self
               (ConnectionError ("No response from GoodWe EM - " ++ pv_host self))).
    + reflexivity.
    + unfold _get_goodwe_data. rewrite Hr. reflexivity.
  - intros e Hr He. rewrite (refresh_fetch_fails runtime self e).
    + rewrite He. reflexivity.
    + unfold _get_goodwe_data. rewrite Hr. reflexivity.
Qed.

(** X12. A reading that is missing stops [refresh_meter_data] where it
    stands, without undoing what came before: with ["ppv"] and ["igrid"]
    but no ["vgrid"] in the mapping, power, current and total take the new
    values while the voltage and the meter's attributes keep the old ones
    (or stay absent), and the method still returns [True]. *)
Theorem refresh_stops_at_missing_reading
    (runtime : string -> result dict) (self : GoodWeEMService) (md : dict) (p c : pyval) :
  runtime (pv_host self) = Returns md ->
  dict_get md "ppv" = Some p ->
  dict_get md "igrid" = Some c ->
  dict_get md "vgrid" = None ->
  refresh_meter_data runtime self
  = (Returns true,
     with_attributes self
       (dict_set (dict_set (dict_set (attributes self) "pv_power" p) "pv_current" c)
          "pv_total" p))
  /\ forall self', snd (refresh_meter_data runtime self) = self' ->
       attr self' "pv_power" = Some p /\ attr self' "pv_current" = Some c
       /\ attr self' "pv_voltage" = attr self "pv_voltage"
       /\ attr self' "meter_forward" = attr self "meter_forward".
Proof.
  intros Hr Hp Hc Hv.
  assert (Hf : _get_goodwe_data runtime (pv_host self) = Returns md).
  { apply fetch_returns_nonempty; [exact Hr|]. intros ->. discriminate Hp. }
  assert (E : refresh_meter_data runtime self
              = (Returns true,
                 with_attributes self
                   (dict_set (dict_set (dict_set (attributes self) "pv_power" p)
                                "pv_current" c) "pv_total" p))).
  { unfold refresh_meter_data, try_except, bind, get_pv_host, lift, ret, subscript,
      set_attr, get_attr.
    rewrite Hf, Hp, Hc, Hv. cbn. rewrite !dict_get_set. cbn. reflexivity. }
  split; [exact E|]. intros self' <-. rewrite E. unfold attr. cbn.
  rewrite !dict_get_set. cbn. auto.
Qed.

(** X13. With a meter and integer power readings, a refresh keeps
    [meter_forward] and [meter_total_power] equal to [-|pgrid|] and
    [meter_reverse] equal to [-|pgrid - house_consumption|]: none of them is
    ever positive, whatever the sign of the readings. *)
Theorem refresh_meter_readings_are_not_positive
    (runtime : string -> result dict) (self : GoodWeEMService) (md : dict)
    (p c v : pyval) (g h : Z) :
  has_meter self = true ->
  runtime (pv_host self) = Returns md ->
  dict_get md "ppv" = Some p ->
  dict_get md "igrid" = Some c ->
  dict_get md "vgrid" = Some v ->
  dict_get md "pgrid" = Some (PyInt g) ->
  dict_get md "house_consumption" = Some (PyInt h) ->
  exists self',
    refresh_meter_data runtime self = (Returns true, self')
    /\ pv_readings self' v c p
    /\ attr self' "meter_forward" = Some (PyInt (- Z.abs g))
    /\ attr self' "meter_total_power" = Some (PyInt (- Z.abs g))
    /\ attr self' "meter_reverse" = Some (PyInt (- Z.abs (g - h)))
    /\ attr self' "meter_house_consumption" = Some (PyInt h)
    /\ attr self' "meter_current" = Some c
    /\ attr self' "meter_voltage" = Some v
    /\ - Z.abs g <= 0 /\ - Z.abs (g - h) <= 0
    /\ dbus_service self' = dbus_service self.
Proof.
  intros Hm Hr Hp Hc Hv Hg Hh.
  assert (Hf : _get_goodwe_data runtime (pv_host self) = Returns md).
  { apply fetch_returns_nonempty; [exact Hr|]. intros ->. discriminate Hp. }
  eexists. split.
  - unfold refresh_meter_data, refresh_meter, try_except, bind, get_pv_host, lift, ret,
      subscript, set_attr, get_attr, get_has_meter.
    rewrite Hf, Hp, Hc, Hv, Hg, Hh. cbn. rewrite !dict_get_set. cbn. rewrite Hm. cbn.
    reflexivity.
  - unfold pv_readings, attr. cbn. rewrite !dict_get_set. cbn.
    repeat split; try reflexivity; lia.
Qed.

Lemma try_except_after {A : Type} (c : M A) (f : A -> M Datatypes.unit)
    (s s1 : GoodWeEMService) (a : A) :
  c s = (Returns a, s1) -> guarded (f a) ->
  exists s', try_except (bind c f) s = (Returns tt, s').
Proof.
  intros Hc Hg.
  pose proof (try_except_guarded (f a) s1 Hg) as H.
  unfold try_except, bind in *. rewrite Hc.
  destruct (f a s1) as [[[]|e] s'] eqn:E; cbn in *.
  - eexists. reflexivity.
  - destruct (is_Exception e); [eexists; reflexivity|discriminate].
Qed.

Lemma rest_of_update_guarded (now : Q) :
  guarded (publish_pvinverter ;; publish_grid ;; log_published ;;
           bump_update_index ;; set_last_update now).
Proof. walk_guarded. Qed.

(** X15. [update_dbus_pv_inverter] returns [True] after every cycle, never
    [False], so the timer that calls it keeps it scheduled.  The only error
    that escapes it is one that is no [Exception], raised while fetching, and
    then the object is unchanged. *)
Theorem update_always_returns_true
    (runtime : string -> result dict) (now : Q) (self : GoodWeEMService) :
  (exists self', update_dbus_pv_inverter runtime now self = (Returns true, self'))
  \/ (exists e, update_dbus_pv_inverter runtime now self = (Raises e, self)
                /\ is_Exception e = false
                /\ _get_goodwe_data runtime (pv_host self) = Raises e).
Proof.
  pose (rest := fun _ : bool =>
                  publish_pvinverter ;; publish_grid ;; log_published ;;
                  bump_update_index ;; set_last_update now).
  assert (Hrest : forall s s1,
             refresh_meter_data runtime s = (Returns true, s1) ->
             exists s', update_dbus_pv_inverter runtime now s = (Returns true, s')).
  { intros s s1 H1.
    destruct (try_except_after (refresh_meter_data runtime) rest s s1 true H1
                (rest_of_update_guarded now)) as [s' H'].
    unfold update_dbus_pv_inverter. fold rest. unfold bind at 1. rewrite H'.
    eexists. reflexivity. }
  destruct (_get_goodwe_data runtime (pv_host self)) as [md|e] eqn:Hf.
  - left. destruct (refresh_fetch_returns runtime self md Hf) as [s1 H1].
    eapply Hrest, H1.
  - pose proof (refresh_fetch_fails runtime self e Hf) as H1.
    destruct (is_Exception e) eqn:He.
    + left. eapply Hrest, H1.
    + right. exists e. split; [|split; [exact He|reflexivity]].
      unfold update_dbus_pv_inverter, try_except, bind. rewrite H1, He. reflexivity.
Qed.

(** X14. A cycle never adds a service, never adds a path to one and never
    removes one: whatever the device answers and wherever the cycle stops,
    the services and their paths are the ones it started with. *)
Theorem update_keeps_paths
    (runtime : string -> result dict) (now : Q) (self : GoodWeEMService) :
  paths (snd (update_dbus_pv_inverter runtime now self)) = paths self.
Proof.
  assert (H : establishes (fun s => paths s = paths self)
                (update_dbus_pv_inverter runtime now) (fun s => paths s = paths self)).
  { unfold update_dbus_pv_inverter, refresh_meter_data, refresh_meter, publish_pvinverter,
      publish_grid, log_published, bump_update_index.
    cbv zeta.
    walk ltac:(intros s Hs; first [ rewrite paths_set_item; exact Hs | exact Hs ]). }
  apply H. reflexivity.
Qed.

(** ** /UpdateIndex *)
Lemma get_item_some (self : GoodWeEMService) (sv p : string) (v : pyval) :
  item_of self sv p = Some v -> get_item sv p self = (Returns v, self).
Proof.
  unfold item_of, get_item. destruct (dbus_service self) as [d|]; [|discriminate].
  destruct (lookup d sv) as [svc|]; [|discriminate]. intros ->. reflexivity.
Qed.

Lemma set_item_some (self : GoodWeEMService) (sv p : string) (v v0 : pyval) :
  item_of self sv p = Some v0 ->
  set_item sv p v self = (Returns tt, snd (set_item sv p v self)).
Proof.
  unfold item_of, set_item. destruct (dbus_service self) as [d|]; [|discriminate].
  destruct (lookup d sv) as [svc|]; [|discriminate]. intros ->. reflexivity.
Qed.

Lemma bump_update_index_advances (i : Z) :
  establishes (fun s => item_of s "pvinverter" "/UpdateIndex" = Some (PyInt i))
    bump_update_index
    (fun s => item_of s "pvinverter" "/UpdateIndex" = Some (PyInt i)
              \/ item_of s "pvinverter" "/UpdateIndex" = Some (PyInt (next_index i))).
Proof.
  intros s Hs. right. unfold bump_update_index, bind, lift. rewrite (get_item_some _ _ _ _ Hs).
  cbn [py_add py_gt]. cbv zeta.
  rewrite (set_item_some _ _ _ _ _ Hs). cbn [snd].
  rewrite item_of_set_item, Hs. cbn. unfold next_index.
  destruct (255 <? i + 1); reflexivity.
Qed.

(** X16. Over one cycle [/UpdateIndex] either stays as it is or moves to
    the next value, 255 being followed by 0: it never skips a value, and
    from a value between 0 and 255 it never leaves that range. *)
Theorem update_index_stays_or_advances
    (runtime : string -> result dict) (now : Q) (self : GoodWeEMService) (i : Z) :
  item_of self "pvinverter" "/UpdateIndex" = Some (PyInt i) ->
  let self' := snd (update_dbus_pv_inverter runtime now self) in
  (item_of self' "pvinverter" "/UpdateIndex" = Some (PyInt i)
   \/ item_of self' "pvinverter" "/UpdateIndex" = Some (PyInt (next_index i)))
  /\ (0 <= i <= 255 -> 0 <= next_index i <= 255)
  /\ (i = 255 -> next_index i = 0).
Proof.
  intros Hi. split; [|split].
  - set (I0 := fun s => item_of s "pvinverter" "/UpdateIndex" = Some (PyInt i)).
    set (J := fun s => I0 s \/ item_of s "pvinverter" "/UpdateIndex"
                               = Some (PyInt (next_index i))).
    assert (Hframe : forall A (c : M A), establishes I0 c I0 ->
              forall B (f : A -> M B), (forall x, establishes I0 (f x) J) ->
              establishes I0 (bind c f) J).
    { intros A c Hc B f Hf. eapply est_bind; [exact Hc| |exact Hf].
      intros s Hs. left. exact Hs. }
    assert (H : establishes I0 (update_dbus_pv_inverter runtime now) J).
    { unfold update_dbus_pv_inverter.
      eapply est_bind with (R := J); [|auto|].
      - apply est_try.
        apply Hframe; [|intros _; apply Hframe; [|intros _; apply Hframe;
                          [|intros _; apply Hframe; [|intros _]]]].
        + unfold refresh_meter_data, refresh_meter.
          walk ltac:(intros s Hs; exact Hs).
        + unfold publish_pvinverter. cbv zeta.
          walk ltac:(intros s Hs; unfold I0; rewrite item_of_set_item; cbn; exact Hs).
        + unfold publish_grid. cbv zeta.
          walk ltac:(intros s Hs; unfold I0; rewrite item_of_set_item; cbn; exact Hs).
        + unfold log_published. walk idtac.
        + eapply est_bind with (R := J); [apply bump_update_index_advances|auto|].
          intros _ s Hs. exact Hs.
      - intros x s Hs. exact Hs. }
    apply H. exact Hi.
  - unfold next_index. destruct (Z.ltb_spec 255 (i + 1)); lia.
  - intros ->. reflexivity.
Qed.

End Driver.

Section Runs.
Context {fa : FloatArith}.

(** ** Runs of statements that succeed *)

Lemma run_bind {A B : Type} (c : M A) (f : A -> M B) (s s1 : GoodWeEMService) (a : A) :
  c s = (Returns a, s1) -> bind c f s = f a s1.
Proof. intros H. unfold bind. rewrite H. reflexivity. Qed.

Lemma bind_assoc {A B C : Type} (c : M A) (f : A -> M B) (g : B -> M C)
    (s : GoodWeEMService) :
  bind (bind c f) g s = bind c (fun x => bind (f x) g) s.
Proof. unfold bind. destruct (c s) as [[x|e] s']; reflexivity. Qed.

Lemma get_attr_some (self : GoodWeEMService) (n : string) (v : pyval) :
  attr self n = Some v -> get_attr n self = (Returns v, self).
Proof. unfold attr, get_attr. intros ->. reflexivity. Qed.

Lemma has_service_some (self : GoodWeEMService) (sv p : string) (w : pyval) :
  item_of self sv p = Some w -> has_service sv self = (Returns true, self).
Proof.
  unfold item_of, has_service. destruct (dbus_service self) as [d|]; [|discriminate].
  destruct (lookup d sv); [reflexivity|discriminate].
Qed.

Lemma set_item_keeps (self : GoodWeEMService) (sv p : string) (v : pyval) :
  attributes (snd (set_item sv p v self)) = attributes self
  /\ has_meter (snd (set_item sv p v self)) = has_meter self
  /\ _dbus_last_update (snd (set_item sv p v self)) = _dbus_last_update self.
Proof.
  unfold set_item. destruct (dbus_service self) as [d|]; [|auto].
  destruct (lookup d sv) as [svc|]; [|auto].
  destruct (dict_get _ _); auto.
Qed.

Lemma ready_items (self : GoodWeEMService) :
  pvinverter_ready self ->
  exists w1 w2 w3 w4 w5 w6 w7,
    item_of self "pvinverter" "/Ac/L1/Voltage" = Some w1
    /\ item_of self "pvinverter" "/Ac/L1/Current" = Some w2
    /\ item_of self "pvinverter" "/Ac/L1/Power" = Some w3
    /\ item_of self "pvinverter" "/Ac/L1/Energy/Forward" = Some w4
    /\ item_of self "pvinverter" "/Ac/Power" = Some w5
    /\ item_of self "pvinverter" "/Ac/Energy/Forward" = Some w6
    /\ item_of self "pvinverter" "/UpdateIndex" = Some w7.
Proof.
  unfold pvinverter_ready. intros H.
  repeat match goal with
         | H : Forall _ (_ :: _) |- _ =>
             let H1 := fresh "H" in let H2 := fresh "H" in
             inversion H as [|? ? H1 H2]; subst; clear H
         end.
  repeat match goal with
         | H : item_of _ _ ?p <> None |- _ =>
             destruct (item_of self "pvinverter" p); [clear H|contradiction]
         end.
  repeat eexists.
Qed.

(** An assignment to a path that exists: the state it leaves, by what can
    be observed of it. *)
Lemma set_item_step (self : GoodWeEMService) (sv p : string) (v v0 : pyval) :
  item_of self sv p = Some v0 ->
  exists self',
    set_item sv p v self = (Returns tt, self')
    /\ (forall sv' p',
          item_of self' sv' p'
          = if String.eqb sv sv' && String.eqb p p' then Some v else item_of self sv' p')
    /\ attributes self' = attributes self
    /\ has_meter self' = has_meter self
    /\ _dbus_last_update self' = _dbus_last_update self.
Proof.
  intros H. exists (snd (set_item sv p v self)).
  split; [apply (set_item_some _ _ _ _ _ H)|]. split; [|apply set_item_keeps].
  intros sv' p'. rewrite item_of_set_item, H. cbn [is_some]. rewrite andb_true_r.
  reflexivity.
Qed.

(** The facts known of the state before an assignment, restated for the
    state after it. *)
Ltac transfer s s' Fi Fa Fm Fl :=
  repeat match goal with
    | H : item_of s ?a ?b = Some ?w |- _ =>
        let N := fresh "I" in
        pose proof (Fi a b) as N; rewrite H in N;
        cbn [andb String.eqb Ascii.eqb Bool.eqb] in N; clear H
    | H : forall path, item_of s ?a path = _ |- _ =>
        let N := fresh "F" in
        pose proof (fun path => eq_trans (Fi a path) (H path)) as N;
        cbn [andb String.eqb Ascii.eqb Bool.eqb] in N; clear H
    | H : attr s ?n = Some ?w |- _ =>
        let N := fresh "A" in
        assert (N : attr s' n = Some w) by (unfold attr; rewrite Fa; exact H);
        clear H
    | H : attributes s = _ |- _ =>
        let N := fresh "Ka" in pose proof (eq_trans Fa H) as N; clear H
    | H : has_meter s = _ |- _ =>
        let N := fresh "Km" in pose proof (eq_trans Fm H) as N; clear H
    | H : _dbus_last_update s = _ |- _ =>
        let N := fresh "Kl" in pose proof (eq_trans Fl H) as N; clear H
    end;
  clear Fi Fa Fm Fl.

(** One assignment in a run, and the last one. *)
Ltac assign :=
  lazymatch goal with
  | |- context [bind (set_item ?sv ?p ?v) _ ?s] =>
      let s' := fresh "s" in
      let E := fresh "E" in
      let Fi := fresh "Fi" in
      let Fa := fresh "Fa" in
      let Fm := fresh "Fm" in
      let Fl := fresh "Fl" in
      lazymatch goal with
      | H : item_of s sv p = Some _ |- _ =>
          destruct (set_item_step s sv p v _ H) as (s' & E & Fi & Fa & Fm & Fl)
      end;
      rewrite (run_bind _ _ _ _ _ E); clear E;
      transfer s s' Fi Fa Fm Fl
  end.

Ltac assign_last :=
  lazymatch goal with
  | |- exists _, set_item ?sv ?p ?v ?s = _ /\ _ =>
      let s' := fresh "s" in
      let E := fresh "E" in
      let Fi := fresh "Fi" in
      let Fa := fresh "Fa" in
      let Fm := fresh "Fm" in
      let Fl := fresh "Fl" in
      lazymatch goal with
      | H : item_of s sv p = Some _ |- _ =>
          destruct (set_item_step s sv p v _ H) as (s' & E & Fi & Fa & Fm & Fl)
      end;
      exists s'; split; [exact E|]; clear E;
      transfer s s' Fi Fa Fm Fl
  end.

Ltac step :=
  rewrite ?bind_assoc;
  lazymatch goal with
  | |- context [bind (get_attr ?n) _ ?s] =>
      lazymatch goal with
      | H : attr s n = Some _ |- _ => rewrite (run_bind _ _ _ _ _ (get_attr_some s n _ H))
      end
  | |- context [bind (get_item ?sv ?p) _ ?s] =>
      lazymatch goal with
      | H : item_of s sv p = Some _ |- _ =>
          rewrite (run_bind _ _ _ _ _ (get_item_some s sv p _ H))
      end
  | |- context [bind (set_item _ _ _) _ _] => assign
  | |- _ => erewrite run_bind by reflexivity
  end.

(** What is known of the object where a run starts. *)
Ltac start_run self :=
  let Fg := fresh "Fg" in
  let Fp := fresh "Fp" in
  let Ka := fresh "Ka" in
  let Km := fresh "Km" in
  let Kl := fresh "Kl" in
  assert (Fg : forall path, item_of self "grid" path = item_of self "grid" path)
    by reflexivity;
  assert (Ka : attributes self = attributes self) by reflexivity;
  assert (Km : has_meter self = has_meter self) by reflexivity;
  assert (Kl : _dbus_last_update self = _dbus_last_update self) by reflexivity.

Lemma publish_idle (self : GoodWeEMService) (v c p : pyval) :
  pvinverter_ready self ->
  pv_readings self v c p ->
  py_gt p 0 = Returns false ->
  exists self',
    publish_pvinverter self = (Returns tt, self')
    /\ published self' (PyInt 0) (PyInt 0) (PyInt 0) (PyInt 0)
    /\ item_of self' "pvinverter" "/UpdateIndex" = item_of self "pvinverter" "/UpdateIndex"
    /\ (forall path, item_of self' "grid" path = item_of self "grid" path)
    /\ attributes self' = attributes self
    /\ has_meter self' = has_meter self
    /\ _dbus_last_update self' = _dbus_last_update self.
Proof.
  intros Hready (Hv & Hc & Hp & Ht) Hgt.
  destruct (ready_items self Hready) as (w1 & w2 & w3 & w4 & w5 & w6 & w7 &
    I1 & I2 & I3 & I4 & I5 & I6 & I7).
  assert (K7 : Some w7 = item_of self "pvinverter" "/UpdateIndex") by (symmetry; exact I7).
  start_run self.
  unfold publish_pvinverter. cbv zeta. cbn [append].
  do 7 step. rewrite Hgt. step. cbv iota. do 7 step. assign_last.
  unfold published. rewrite <- K7. auto 12.
Qed.

Lemma publish_producing (self : GoodWeEMService) (v c p x y : pyval) :
  pvinverter_ready self ->
  pv_readings self v c p ->
  py_gt p 0 = Returns true ->
  py_truediv p 1000 = Returns x ->
  py_truediv x 60 = Returns y ->
  exists self',
    publish_pvinverter self = (Returns tt, self')
    /\ published self' v c p y
    /\ item_of self' "pvinverter" "/UpdateIndex" = item_of self "pvinverter" "/UpdateIndex"
    /\ (forall path, item_of self' "grid" path = item_of self "grid" path)
    /\ attributes self' = attributes self
    /\ has_meter self' = has_meter self
    /\ _dbus_last_update self' = _dbus_last_update self.
Proof.
  intros Hready (Hv & Hc & Hp & Ht) Hgt Hx Hy.
  destruct (ready_items self Hready) as (w1 & w2 & w3 & w4 & w5 & w6 & w7 &
    I1 & I2 & I3 & I4 & I5 & I6 & I7).
  assert (K7 : Some w7 = item_of self "pvinverter" "/UpdateIndex") by (symmetry; exact I7).
  start_run self.
  unfold publish_pvinverter. cbv zeta. cbn [append].
  do 7 step. rewrite Hgt. step. cbv iota.
  step. rewrite Hx. step. rewrite Hy. do 5 step. assign_last.
  unfold published. rewrite <- K7. auto 12.
Qed.

Lemma grid_items (self : GoodWeEMService) :
  grid_ready self ->
  exists w1 w2 w3 w4 w5 w6 w7 w8,
    item_of self "grid" "/Ac/L1/Voltage" = Some w1
    /\ item_of self "grid" "/Ac/L1/Current" = Some w2
    /\ item_of self "grid" "/Ac/L1/Power" = Some w3
    /\ item_of self "grid" "/Ac/Energy/Forward" = Some w4
    /\ item_of self "grid" "/Ac/Energy/Reverse" = Some w5
    /\ item_of self "grid" "/Ac/L1/Energy/Forward" = Some w6
    /\ item_of self "grid" "/Ac/L1/Energy/Reverse" = Some w7
    /\ item_of self "grid" "/Ac/Power" = Some w8.
Proof.
  unfold grid_ready. intros H.
  repeat match goal with
         | H : Forall _ (_ :: _) |- _ =>
             let H1 := fresh "H" in let H2 := fresh "H" in
             inversion H as [|? ? H1 H2]; subst; clear H
         end.
  repeat match goal with
         | H : item_of _ _ ?p <> None |- _ =>
             destruct (item_of self "grid" p); [clear H|contradiction]
         end.
  repeat eexists.
Qed.

Lemma publish_grid_metered (self : GoodWeEMService)
    (mv mc mp mf mr x1 y1 x2 y2 : pyval) :
  has_meter self = true ->
  grid_ready self ->
  meter_readings self mv mc mp mf mr ->
  py_truediv mf 1000 = Returns x1 -> py_truediv x1 60 = Returns y1 ->
  py_truediv mr 1000 = Returns x2 -> py_truediv x2 60 = Returns y2 ->
  exists self',
    publish_grid self = (Returns tt, self')
    /\ item_of self' "grid" "/Ac/L1/Voltage" = Some mv
    /\ item_of self' "grid" "/Ac/L1/Current" = Some mc
    /\ item_of self' "grid" "/Ac/L1/Power" = Some mp
    /\ item_of self' "grid" "/Ac/Power" = Some mp
    /\ item_of self' "grid" "/Ac/Energy/Forward" = Some y1
    /\ item_of self' "grid" "/Ac/L1/Energy/Forward" = Some y1
    /\ item_of self' "grid" "/Ac/Energy/Reverse" = Some y2
    /\ item_of self' "grid" "/Ac/L1/Energy/Reverse" = Some y2
    /\ (forall path, item_of self' "pvinverter" path = item_of self "pvinverter" path)
    /\ attributes self' = attributes self
    /\ _dbus_last_update self' = _dbus_last_update self.
Proof.
  intros Hm Hready (A1 & A2 & A3 & A4 & A5) Hx1 Hy1 Hx2 Hy2.
  destruct (grid_items self Hready) as (w1 & w2 & w3 & w4 & w5 & w6 & w7 & w8 &
    I1 & I2 & I3 & I4 & I5 & I6 & I7 & I8).
  assert (Fp : forall path, item_of self "pvinverter" path = item_of self "pvinverter" path)
    by reflexivity.
  assert (Ka : attributes self = attributes self) by reflexivity.
  assert (Kl : _dbus_last_update self = _dbus_last_update self) by reflexivity.
  unfold publish_grid. cbv zeta. cbn [append].
  unfold bind at 1. unfold get_has_meter. rewrite Hm.
  rewrite (run_bind _ _ _ _ _ (has_service_some _ _ _ _ I1)).
  do 7 step. rewrite Hx1. step. rewrite Hy1. do 3 step.
  rewrite Hx2. step. rewrite Hy2. do 3 step.
  rewrite Hx1. step. rewrite Hy1. do 3 step.
  rewrite Hx2. step. rewrite Hy2. do 3 step.
  assign_last. auto 15.
Qed.

Lemma snd_try_except (body : M Datatypes.unit) (s : GoodWeEMService) :
  snd (try_except body s) = snd (body s).
Proof.
  unfold try_except. destruct (body s) as [[x|e] s']; [reflexivity|].
  destruct (is_Exception e); reflexivity.
Qed.

Lemma snd_bind_ret {A B : Type} (c : M A) (b : B) (s : GoodWeEMService) :
  snd (bind c (fun _ => ret b) s) = snd (c s).
Proof. unfold bind. destruct (c s) as [[x|e] s']; reflexivity. Qed.

Lemma attr_set_attr_other (self : GoodWeEMService) (n n' : string) (v : pyval) :
  String.eqb n n' = false -> attr (snd (set_attr n v self)) n' = attr self n'.
Proof. intros H. rewrite attr_set_attr, H. reflexivity. Qed.

(** What [refresh_meter_data] leaves when the three readings of the
    inverter are there: they are kept, whatever becomes of the meter's. *)
Lemma refresh_sets_pv_readings
    (runtime : string -> result dict) (self : GoodWeEMService) (md : dict) (p c v : pyval) :
  runtime (pv_host self) = Returns md ->
  dict_get md "ppv" = Some p ->
  dict_get md "igrid" = Some c ->
  dict_get md "vgrid" = Some v ->
  exists self',
    refresh_meter_data runtime self = (Returns true, self')
    /\ pv_readings self' v c p
    /\ dbus_service self' = dbus_service self
    /\ has_meter self' = has_meter self
    /\ _dbus_last_update self' = _dbus_last_update self.
Proof.
  intros Hr Hp Hc Hv.
  assert (Hf : _get_goodwe_data runtime (pv_host self) = Returns md).
  { apply fetch_returns_nonempty; [exact Hr|]. intros ->. discriminate Hp. }
  set (I := fun s => pv_readings s v c p /\ dbus_service s = dbus_service self
                     /\ has_meter s = has_meter self
                     /\ _dbus_last_update s = _dbus_last_update self).
  assert (Hmeter : establishes I (refresh_meter md) I).
  { unfold refresh_meter.
    walk ltac:(intros s (Hs & Hd & Hm & Hl); unfold I, pv_readings in *;
               rewrite !attr_set_attr_other by reflexivity; auto). }
  pose proof (refresh_meter_guarded md) as Hg.
  unfold refresh_meter_data, try_except, bind, get_pv_host, lift, ret, subscript,
    set_attr, get_attr, get_has_meter.
  rewrite Hf, Hp, Hc, Hv. cbn -[refresh_meter]. rewrite !dict_get_set.
  cbn -[refresh_meter].
  match goal with
  | |- context [with_attributes ?s ?a] =>
      match a with
      | dict_set _ "pv_voltage" _ => set (s1 := with_attributes s a)
      end
  end.
  assert (H1 : I s1).
  { unfold I, pv_readings, attr, s1. cbn. rewrite !dict_get_set. cbn. auto. }
  destruct (has_meter self).
  - specialize (Hmeter s1 H1). specialize (Hg s1).
    destruct (refresh_meter md s1) as [[[]|e] s2]; cbn in *.
    + exists s2. split; [reflexivity|exact Hmeter].
    + rewrite (Hg e eq_refl). exists s2. split; [reflexivity|exact Hmeter].
  - exists s1. split; [reflexivity|exact H1].
Qed.

Lemma ready_transfer (s s' : GoodWeEMService) :
  dbus_service s' = dbus_service s -> pvinverter_ready s -> pvinverter_ready s'.
Proof.
  intros H. unfold pvinverter_ready, item_of. rewrite H. auto.
Qed.

Lemma rest_keeps_published (now : Q) (a b c d : pyval) :
  establishes (fun s => published s a b c d)
    (publish_grid ;; log_published ;; bump_update_index ;; set_last_update now)
    (fun s => published s a b c d).
Proof.
  unfold publish_grid, log_published, bump_update_index. cbv zeta.
  walk ltac:(intros s Hs; first
    [ exact Hs
    | unfold published in *; rewrite !item_of_set_item;
      cbn [andb String.eqb Ascii.eqb Bool.eqb]; exact Hs ]).
Qed.

(** X17. When the inverter reports a power that is not above 0, the cycle
    publishes 0 for voltage, current, power and energy of the inverter's
    service, on the phase and on the total -- the voltage and the current
    that were read, both numbers, are not shown -- and this holds even if
    the meter's part of the cycle fails afterwards. *)
Theorem update_publishes_zero_when_idle
    (runtime : string -> result dict) (now : Q) (self : GoodWeEMService)
    (md : dict) (p c v : pyval) :
  pvinverter_ready self ->
  runtime (pv_host self) = Returns md ->
  dict_get md "ppv" = Some p ->
  dict_get md "igrid" = Some c ->
  dict_get md "vgrid" = Some v ->
  is_number c = true ->
  is_number v = true ->
  py_gt p 0 = Returns false ->
  published (snd (update_dbus_pv_inverter runtime now self))
    (PyInt 0) (PyInt 0) (PyInt 0) (PyInt 0).
Proof.
  intros Hready Hr Hp Hc Hv _ _ Hgt.
  destruct (refresh_sets_pv_readings runtime self md p c v Hr Hp Hc Hv)
    as (s1 & E1 & R1 & D1 & _).
  destruct (publish_idle s1 v c p (ready_transfer _ _ D1 Hready) R1 Hgt)
    as (s2 & E2 & Z2 & _).
  unfold update_dbus_pv_inverter.
  rewrite snd_bind_ret, snd_try_except.
  rewrite (run_bind _ _ _ _ _ E1), (run_bind _ _ _ _ _ E2).
  apply (rest_keeps_published now). exact Z2.
Qed.

Lemma bump_update_index_succeeds (self : GoodWeEMService) (i : Z) :
  item_of self "pvinverter" "/UpdateIndex" = Some (PyInt i) ->
  bump_update_index self
  = (Returns tt, snd (set_item "pvinverter" "/UpdateIndex" (PyInt (next_index i)) self)).
Proof.
  intros Hs. unfold bump_update_index, bind, lift. rewrite (get_item_some _ _ _ _ Hs).
  cbn [py_add py_gt]. cbv zeta.
  replace (if 255 <? i + 1 then PyInt 0 else PyInt (i + 1)) with (PyInt (next_index i))
    by (unfold next_index; destruct (255 <? i + 1); reflexivity).
  apply (set_item_some _ _ _ _ _ Hs).
Qed.

(** X18. A failed fetch does not stop the publication: with the readings
    of an earlier cycle still on the object (no meter, inverter producing),
    the cycle publishes those old readings again, advances [/UpdateIndex]
    and stamps the update time, as it would for fresh data. *)
Theorem update_republishes_old_readings
    (runtime : string -> result dict) (now : Q) (self : GoodWeEMService)
    (e : error) (v c x y : pyval) (p i : Z) :
  has_meter self = false ->
  pvinverter_ready self ->
  item_of self "pvinverter" "/UpdateIndex" = Some (PyInt i) ->
  pv_readings self v c (PyInt p) ->
  is_number c = true ->
  is_number v = true ->
  0 < p ->
  py_truediv (PyInt p) 1000 = Returns x ->
  py_truediv x 60 = Returns y ->
  _get_goodwe_data runtime (pv_host self) = Raises e ->
  is_Exception e = true ->
  exists self',
    update_dbus_pv_inverter runtime now self = (Returns true, self')
    /\ published self' v c (PyInt p) y
    /\ item_of self' "pvinverter" "/UpdateIndex" = Some (PyInt (next_index i))
    /\ _dbus_last_update self' = Some now
    /\ attributes self' = attributes self.
Proof.
  intros Hm Hready Hi Hpv _ _ Hpos Hx Hy Hf He.
  pose proof (refresh_fetch_fails runtime self e Hf) as E1. rewrite He in E1.
  assert (Hgt : py_gt (PyInt p) 0 = Returns true).
  { cbn. apply Z.ltb_lt in Hpos. rewrite Hpos. reflexivity. }
  destruct (publish_producing self v c (PyInt p) x y Hready Hpv Hgt Hx Hy)
    as (s2 & E2 & P2 & I2 & _ & A2 & M2 & L2).
  assert (E3 : publish_grid s2 = (Returns tt, s2)).
  { unfold publish_grid, bind, get_has_meter. rewrite M2, Hm. reflexivity. }
  assert (E4 : log_published s2 = (Returns tt, s2)).
  { destruct P2 as (_ & _ & _ & _ & Q5 & Q6).
    unfold log_published.
    rewrite (run_bind _ _ _ _ _ (get_item_some _ _ _ _ Q5)).
    rewrite (run_bind _ _ _ _ _ (get_item_some _ _ _ _ Q6)). reflexivity. }
  rewrite Hi in I2.
  pose proof (bump_update_index_succeeds s2 i I2) as E5.
  eexists. split; [|split; [|split; [|split]]].
  - unfold update_dbus_pv_inverter. unfold bind at 1. unfold try_except.
    rewrite (run_bind _ _ _ _ _ E1), (run_bind _ _ _ _ _ E2), (run_bind _ _ _ _ _ E3),
      (run_bind _ _ _ _ _ E4), (run_bind _ _ _ _ _ E5).
    reflexivity.
  - destruct P2 as (Q1 & Q2 & Q3 & Q4 & Q5 & Q6).
    unfold published, set_last_update. cbn [snd].
    change (item_of (with_last_update ?s now)) with (item_of s).
    rewrite !item_of_set_item. cbn [andb String.eqb Ascii.eqb Bool.eqb]. auto 10.
  - unfold set_last_update. cbn [snd].
    change (item_of (with_last_update ?s now)) with (item_of s).
    rewrite item_of_set_item, I2. reflexivity.
  - reflexivity.
  - unfold set_last_update. cbn [snd]. cbn [attributes with_last_update].
    rewrite (proj1 (set_item_keeps _ _ _ _)). exact A2.
Qed.

(** X19. If the fetch fails before any reading was ever stored, the cycle
    changes nothing at all: no path is assigned, [/UpdateIndex] and the
    update time stay as they were, and [True] is returned. *)
Theorem update_without_readings_changes_nothing
    (runtime : string -> result dict) (now : Q) (self : GoodWeEMService) (e : error) :
  attr self "pv_voltage" = None ->
  _get_goodwe_data runtime (pv_host self) = Raises e ->
  is_Exception e = true ->
  update_dbus_pv_inverter runtime now self = (Returns true, self).
Proof.
  intros Hv Hf He.
  pose proof (refresh_fetch_fails runtime self e Hf) as E1. rewrite He in E1.
  unfold update_dbus_pv_inverter. unfold bind at 1. unfold try_except.
  rewrite (run_bind _ _ _ _ _ E1).
  unfold publish_pvinverter. cbv zeta. unfold bind at 1. unfold bind at 1.
  unfold get_attr. unfold attr in Hv. rewrite Hv. reflexivity.
Qed.


Lemma refresh_metered
    (runtime : string -> result dict) (self : GoodWeEMService) (md : dict)
    (p c v : pyval) (g h : Z) :
  has_meter self = true ->
  runtime (pv_host self) = Returns md ->
  dict_get md "ppv" = Some p ->
  dict_get md "igrid" = Some c ->
  dict_get md "vgrid" = Some v ->
  dict_get md "pgrid" = Some (PyInt g) ->
  dict_get md "house_consumption" = Some (PyInt h) ->
  exists self',
    refresh_meter_data runtime self = (Returns true, self')
    /\ pv_readings self' v c p
    /\ meter_readings self' v c (PyInt (- Z.abs g)) (PyInt (- Z.abs g))
         (PyInt (- Z.abs (g - h)))
    /\ attr self' "meter_house_consumption" = Some (PyInt h)
    /\ dbus_service self' = dbus_service self
    /\ has_meter self' = has_meter self
    /\ _dbus_last_update self' = _dbus_last_update self.
Proof.
  intros Hm Hr Hp Hc Hv Hg Hh.
  assert (Hf : _get_goodwe_data runtime (pv_host self) = Returns md).
  { apply fetch_returns_nonempty; [exact Hr|]. intros ->. discriminate Hp. }
  eexists. split.
  - unfold refresh_meter_data, refresh_meter, try_except, bind, get_pv_host, lift, ret,
      subscript, set_attr, get_attr, get_has_meter.
    rewrite Hf, Hp, Hc, Hv, Hg, Hh. cbn. rewrite !dict_get_set. cbn. rewrite Hm. cbn.
    reflexivity.
  - unfold pv_readings, meter_readings, attr. cbn. rewrite !dict_get_set. cbn.
    repeat split; reflexivity.
Qed.


(** ** A cycle on the services that main creates *)

Lemma main_registers_pvinverter (process_name python_version : string)
    (g : GoodWeEMService) :
  pvinverter_ready (main_setup process_name python_version g)
  /\ item_of (main_setup process_name python_version g) "pvinverter" "/UpdateIndex"
     = Some (PyInt 0).
Proof.
  unfold pvinverter_ready, item_of, main_setup, set_dbus_service, main_services.
  cbv zeta. destruct (has_meter g); cbn; split; try reflexivity;
    repeat constructor; discriminate.
Qed.

Lemma main_registers_grid (process_name python_version : string)
    (g : GoodWeEMService) :
  has_meter g = true ->
  grid_ready (main_setup process_name python_version g).
Proof.
  intros Hm.
  unfold grid_ready, item_of, main_setup, set_dbus_service, main_services.
  cbv zeta. rewrite Hm. cbn. repeat constructor; discriminate.
Qed.

Lemma divides_number (w : pyval) (k : Z) :
  divides -> is_number w = true -> k <> 0 ->
  exists q, py_truediv w k = Returns (PyFloat q).
Proof.
  intros Hd Hw Hk. destruct (Hd w k Hw Hk) as [q Hq]. exists q.
  destruct w; try discriminate; cbn; rewrite Hq; reflexivity.
Qed.

Lemma publish_int (self : GoodWeEMService) (v c : pyval) (p : Z) :
  divides ->
  pvinverter_ready self ->
  pv_readings self v c (PyInt p) ->
  exists self' e,
    publish_pvinverter self = (Returns tt, self')
    /\ published self' (if 0 <? p then v else PyInt 0) (if 0 <? p then c else PyInt 0)
         (PyInt (if 0 <? p then p else 0)) e
    /\ item_of self' "pvinverter" "/UpdateIndex" = item_of self "pvinverter" "/UpdateIndex"
    /\ (forall path, item_of self' "grid" path = item_of self "grid" path)
    /\ attributes self' = attributes self
    /\ has_meter self' = has_meter self
    /\ _dbus_last_update self' = _dbus_last_update self.
Proof.
  intros Hd Hready Hpv.
  destruct (0 <? p) eqn:Hp.
  - destruct (divides_number (PyInt p) 1000 Hd eq_refl ltac:(lia)) as [q1 H1].
    destruct (divides_number (PyFloat q1) 60 Hd eq_refl ltac:(lia)) as [q2 H2].
    assert (Hgt : py_gt (PyInt p) 0 = Returns true) by (cbn; rewrite Hp; reflexivity).
    destruct (publish_producing self v c (PyInt p) _ _ Hready Hpv Hgt H1 H2)
      as (s' & H). exists s', (PyFloat q2). exact H.
  - assert (Hgt : py_gt (PyInt p) 0 = Returns false) by (cbn; rewrite Hp; reflexivity).
    destruct (publish_idle self v c (PyInt p) Hready Hpv Hgt) as (s' & H).
    exists s', (PyInt 0). exact H.
Qed.

Lemma finish_cycle (now : Q) (self : GoodWeEMService) (i : Z) (a b : pyval) :
  item_of self "pvinverter" "/Ac/Power" = Some a ->
  item_of self "pvinverter" "/Ac/Energy/Forward" = Some b ->
  item_of self "pvinverter" "/UpdateIndex" = Some (PyInt i) ->
  exists self',
    (log_published ;; bump_update_index ;; set_last_update now) self = (Returns tt, self')
    /\ item_of self' "pvinverter" "/UpdateIndex" = Some (PyInt (next_index i))
    /\ (forall sv path, (sv, path) <> ("pvinverter", "/UpdateIndex") ->
                        item_of self' sv path = item_of self sv path)
    /\ attributes self' = attributes self
    /\ _dbus_last_update self' = Some now.
Proof.
  intros Ha Hb Hi.
  assert (E4 : log_published self = (Returns tt, self)).
  { unfold log_published.
    rewrite (run_bind _ _ _ _ _ (get_item_some _ _ _ _ Ha)).
    rewrite (run_bind _ _ _ _ _ (get_item_some _ _ _ _ Hb)). reflexivity. }
  pose proof (bump_update_index_succeeds self i Hi) as E5.
  eexists. split; [|split; [|split; [|split]]].
  - rewrite (run_bind _ _ _ _ _ E4), (run_bind _ _ _ _ _ E5). reflexivity.
  - unfold set_last_update. cbn [snd].
    change (item_of (with_last_update ?s now)) with (item_of s).
    rewrite item_of_set_item, Hi. reflexivity.
  - intros sv path Hne. unfold set_last_update. cbn [snd].
    change (item_of (with_last_update ?s now)) with (item_of s).
    rewrite item_of_set_item.
    destruct (String.eqb_spec "pvinverter" sv) as [<-|]; [|reflexivity].
    destruct (String.eqb_spec "/UpdateIndex" path) as [<-|]; [|reflexivity].
    contradiction.
  - unfold set_last_update. cbn [snd]. cbn [attributes with_last_update].
    apply set_item_keeps.
  - reflexivity.
Qed.


Lemma item_of_same_services (s s' : GoodWeEMService) (sv path : string) :
  dbus_service s' = dbus_service s -> item_of s' sv path = item_of s sv path.
Proof. intros H. unfold item_of. rewrite H. reflexivity. Qed.

Lemma grid_ready_frame (s s' : GoodWeEMService) :
  (forall path, item_of s' "grid" path = item_of s "grid" path) ->
  grid_ready s -> grid_ready s'.
Proof.
  intros H. unfold grid_ready. rewrite !Forall_forall. intros Hs path Hin.
  rewrite H. apply Hs, Hin.
Qed.

(** X20. [main] adds every path a cycle assigns or reads: on the services
    it creates, with or without a meter, the first cycle with integer power
    readings (current and voltage being numbers) runs to its end --
    [/UpdateIndex] goes from 0 to 1, the update time is stamped, the total
    power is the reading or 0, and with a meter its power is [-|pgrid|] and
    its voltage the one read. *)
Theorem first_cycle_after_main
    (process_name python_version : string) (g : GoodWeEMService)
    (runtime : string -> result dict) (now : Q) (md : dict)
    (p gr h : Z) (c v : pyval) :
  divides ->
  runtime (pv_host g) = Returns md ->
  dict_get md "ppv" = Some (PyInt p) ->
  dict_get md "igrid" = Some c ->
  dict_get md "vgrid" = Some v ->
  is_number c = true ->
  is_number v = true ->
  dict_get md "pgrid" = Some (PyInt gr) ->
  dict_get md "house_consumption" = Some (PyInt h) ->
  exists self',
    update_dbus_pv_inverter runtime now (main_setup process_name python_version g)
    = (Returns true, self')
    /\ item_of self' "pvinverter" "/UpdateIndex" = Some (PyInt 1)
    /\ _dbus_last_update self' = Some now
    /\ item_of self' "pvinverter" "/Ac/Power" = Some (PyInt (if 0 <? p then p else 0))
    /\ (has_meter g = true ->
        item_of self' "grid" "/Ac/Power" = Some (PyInt (- Z.abs gr))
        /\ item_of self' "grid" "/Ac/L1/Voltage" = Some v).
Proof.
  intros Hd Hr Hp Hc Hv _ _ Hg Hh.
  set (s0 := main_setup process_name python_version g).
  destruct (main_registers_pvinverter process_name python_version g) as [Hready Hidx].
  fold s0 in Hready, Hidx.
  assert (Hr0 : runtime (pv_host s0) = Returns md) by exact Hr.
  destruct (has_meter g) eqn:Hm.
  - assert (Hm0 : has_meter s0 = true) by exact Hm.
    pose proof (main_registers_grid process_name python_version g Hm) as Hgrid.
    fold s0 in Hgrid.
    destruct (refresh_metered runtime s0 md (PyInt p) c v gr h Hm0 Hr0 Hp Hc Hv Hg Hh)
      as (s1 & E1 & R1 & MR1 & _ & D1 & M1 & L1).
    destruct (publish_int s1 v c p Hd (ready_transfer _ _ D1 Hready) R1)
      as (s2 & e & E2 & P2 & I2 & G2 & A2 & M2 & L2).
    assert (MR2 : meter_readings s2 v c (PyInt (- Z.abs gr)) (PyInt (- Z.abs gr))
                    (PyInt (- Z.abs (gr - h))))
      by (unfold meter_readings, attr in *; rewrite A2; exact MR1).
    assert (Hgrid2 : grid_ready s2).
    { apply (grid_ready_frame s1); [exact G2|].
      apply (grid_ready_frame s0); [|exact Hgrid].
      intros path. apply item_of_same_services, D1. }
    destruct (divides_number (PyInt (- Z.abs gr)) 1000 Hd eq_refl ltac:(lia)) as [q1 H1].
    destruct (divides_number (PyFloat q1) 60 Hd eq_refl ltac:(lia)) as [q2 H2].
    destruct (divides_number (PyInt (- Z.abs (gr - h))) 1000 Hd eq_refl ltac:(lia))
      as [q3 H3].
    destruct (divides_number (PyFloat q3) 60 Hd eq_refl ltac:(lia)) as [q4 H4].
    assert (Hm2 : has_meter s2 = true) by congruence.
    destruct (publish_grid_metered s2 _ _ _ _ _ _ _ _ _ Hm2 Hgrid2 MR2 H1 H2 H3 H4)
      as (s3 & E3 & GV & _ & _ & GP & _ & _ & _ & _ & Fp3 & A3 & L3).
    destruct P2 as (_ & _ & _ & _ & Q5 & Q6).
    rewrite (item_of_same_services s0 s1 _ _ D1), Hidx in I2.
    rewrite <- Fp3 in Q5, Q6, I2.
    destruct (finish_cycle now s3 0 _ _ Q5 Q6 I2) as (s4 & E4 & J4 & F4 & _ & L4).
    exists s4. split; [|split; [exact J4|split; [exact L4|split]]].
    + unfold update_dbus_pv_inverter. unfold bind at 1. unfold try_except.
      rewrite (run_bind _ _ _ _ _ E1), (run_bind _ _ _ _ _ E2), (run_bind _ _ _ _ _ E3), E4.
      reflexivity.
    + rewrite F4 by discriminate. exact Q5.
    + intros _. rewrite !F4 by discriminate. auto.
  - assert (Hm0 : has_meter s0 = false) by exact Hm.
    destruct (refresh_sets_pv_readings runtime s0 md (PyInt p) c v Hr0 Hp Hc Hv)
      as (s1 & E1 & R1 & D1 & M1 & L1).
    destruct (publish_int s1 v c p Hd (ready_transfer _ _ D1 Hready) R1)
      as (s2 & e & E2 & P2 & I2 & G2 & A2 & M2 & L2).
    assert (E3 : publish_grid s2 = (Returns tt, s2)).
    { unfold publish_grid, bind, get_has_meter. rewrite M2, M1, Hm0. reflexivity. }
    destruct P2 as (_ & _ & _ & _ & Q5 & Q6).
    rewrite (item_of_same_services s0 s1 _ _ D1), Hidx in I2.
    destruct (finish_cycle now s2 0 _ _ Q5 Q6 I2) as (s4 & E4 & J4 & F4 & _ & L4).
    exists s4. split; [|split; [exact J4|split; [exact L4|split]]].
    + unfold update_dbus_pv_inverter. unfold bind at 1. unfold try_except.
      rewrite (run_bind _ _ _ _ _ E1), (run_bind _ _ _ _ _ E2), (run_bind _ _ _ _ _ E3), E4.
      reflexivity.
    + rewrite F4 by discriminate. exact Q5.
    + discriminate.
Qed.

End Runs.

(** ** Examples on a site *)

Lemma exact_arith_divides : @divides exact_arith.
Proof.
  intros w k Hw Hk. destruct w as [|z|q|s]; try discriminate; cbn.
  - destruct (Z.eqb_spec k 0); [contradiction|]. eexists. reflexivity.
  - destruct (Z.eqb_spec k 0); [contradiction|]. eexists. reflexivity.
Qed.

Lemma refresh_stops_at_missing_reading_witness :
  @refresh_meter_data exact_arith device_without_voltage site_set_up
  = (Returns true,
     with_attributes site_set_up
       [ ("pv_power", PyInt 1500); ("pv_current", PyFloat (52 # 10));
         ("pv_total", PyInt 1500) ]).
Proof.
  apply (@refresh_stops_at_missing_reading exact_arith device_without_voltage
           site_set_up [ ("igrid", PyFloat (52 # 10)); ("ppv", PyInt 1500) ]
           (PyInt 1500) (PyFloat (52 # 10)));
    reflexivity.
Defined.

Lemma refresh_meter_readings_are_not_positive_witness :
  exists self',
    @refresh_meter_data exact_arith (device 1500 320 410) site_set_up
    = (Returns true, self')
    /\ pv_readings self' (PyFloat (2301 # 10)) (PyFloat (52 # 10)) (PyInt 1500)
    /\ attr self' "meter_forward" = Some (PyInt (-320))
    /\ attr self' "meter_total_power" = Some (PyInt (-320))
    /\ attr self' "meter_reverse" = Some (PyInt (-90))
    /\ attr self' "meter_house_consumption" = Some (PyInt 410)
    /\ attr self' "meter_current" = Some (PyFloat (52 # 10))
    /\ attr self' "meter_voltage" = Some (PyFloat (2301 # 10))
    /\ -320 <= 0 /\ -90 <= 0
    /\ dbus_service self' = dbus_service site_set_up.
Proof.
  apply (@refresh_meter_readings_are_not_positive exact_arith (device 1500 320 410)
           site_set_up (readings 1500 320 410)
           (PyInt 1500) (PyFloat (52 # 10)) (PyFloat (2301 # 10)) 320 410);
    reflexivity.
Defined.

Lemma update_index_stays_or_advances_witness :
  let self' := snd (@update_dbus_pv_inverter exact_arith (device 1500 320 410) (17 # 1)
                      site_set_up) in
  (item_of self' "pvinverter" "/UpdateIndex" = Some (PyInt 0)
   \/ item_of self' "pvinverter" "/UpdateIndex" = Some (PyInt (next_index 0)))
  /\ (0 <= 0 <= 255 -> 0 <= next_index 0 <= 255)
  /\ (0 = 255 -> next_index 0 = 0).
Proof.
  apply (@update_index_stays_or_advances exact_arith (device 1500 320 410) (17 # 1)
           site_set_up 0).
  reflexivity.
Defined.

Lemma update_publishes_zero_when_idle_witness :
  published (snd (@update_dbus_pv_inverter exact_arith (device 0 (-250) 250) (17 # 1)
                    site_set_up))
    (PyInt 0) (PyInt 0) (PyInt 0) (PyInt 0).
Proof.
  apply (@update_publishes_zero_when_idle exact_arith (device 0 (-250) 250) (17 # 1)
           site_set_up (readings 0 (-250) 250)
           (PyInt 0) (PyFloat (52 # 10)) (PyFloat (2301 # 10)));
    try reflexivity.
  apply main_registers_pvinverter.
Defined.

Lemma update_republishes_old_readings_witness :
  exists self',
    @update_dbus_pv_inverter exact_arith device_down (17 # 1) site_producing
    = (Returns true, self')
    /\ published self' (PyFloat (2301 # 10)) (PyFloat (52 # 10)) (PyInt 1500)
         (PyFloat (1 # 40))
    /\ item_of self' "pvinverter" "/UpdateIndex" = Some (PyInt (next_index 0))
    /\ _dbus_last_update self' = Some (17 # 1)
    /\ attributes self' = attributes site_producing.
Proof.
  apply (@update_republishes_old_readings exact_arith device_down (17 # 1)
           site_producing
           (InverterError
              (RequestFailedException
                 "No valid response received even after 3 retries" 1))
           (PyFloat (2301 # 10)) (PyFloat (52 # 10)) (PyFloat (3 # 2)) (PyFloat (1 # 40))
           1500 0);
    try reflexivity.
  - apply main_registers_pvinverter.
  - repeat split.
Defined.

Lemma update_without_readings_changes_nothing_witness :
  @update_dbus_pv_inverter exact_arith device_down (17 # 1) site_set_up
  = (Returns true, site_set_up).
Proof.
  apply (@update_without_readings_changes_nothing exact_arith device_down (17 # 1)
           site_set_up
           (InverterError
              (RequestFailedException
                 "No valid response received even after 3 retries" 1)));
    reflexivity.
Defined.

Lemma first_cycle_after_main_witness :
  exists self',
    @update_dbus_pv_inverter exact_arith (device 1500 320 410) (17 # 1) site_set_up
    = (Returns true, self')
    /\ item_of self' "pvinverter" "/UpdateIndex" = Some (PyInt 1)
    /\ _dbus_last_update self' = Some (17 # 1)
    /\ item_of self' "pvinverter" "/Ac/Power" = Some (PyInt 1500)
    /\ (has_meter site = true ->
        item_of self' "grid" "/Ac/Power" = Some (PyInt (-320))
        /\ item_of self' "grid" "/Ac/L1/Voltage" = Some (PyFloat (2301 # 10))).
Proof.
  apply (@first_cycle_after_main exact_arith "dbus-goodwe-em-pvinverter.py" "3.8.13"
           site (device 1500 320 410) (17 # 1) (readings 1500 320 410) 1500 320 410
           (PyFloat (52 # 10)) (PyFloat (2301 # 10)));
    try reflexivity.
  apply exact_arith_divides.
Defined.

Example service_names :
  map (fun entry => servicename (snd entry))
    (main_services "dbus-goodwe-em-pvinverter.py" "3.8.13" site)
  = [ "com.victronenergy.pvinverter.http_id40"; "com.victronenergy.grid.http_id40" ].
Proof. reflexivity. Qed.

Example first_cycle_on_site :
  option_map (map (fun entry => (fst entry, dict_get (items (snd entry)) "/Ac/Power")))
    (dbus_service
       (snd (@update_dbus_pv_inverter exact_arith (device 1500 320 410) (17 # 1)
               site_set_up)))
  = Some [ ("pvinverter", Some (PyInt 1500)); ("grid", Some (PyInt (-320))) ].
Proof. vm_compute. reflexivity. Qed.
